(** * DatabaseTableComparator: the two-sided version comparison

    A shallow embedding of [DatabaseTablesComparator._comparator_two_sided_merge]
    (src/1.2.0_250314_beta.py, lines 339-504) and of the helpers it calls,
    together with the properties of the reconciliation engine.

    Modelling conventions.
    - A cell is a [value]: an integer ([VInt], Python/numpy integers), a
      string ([VStr]; dates and other printable scalars are carried by their
      [str] form) or a null ([VNaN], what [pd.notna] rejects, compared the
      way a float NaN is).  Floating point formatting is outside the model.
    - A pandas [Series] (one row, as [iterrows] yields it) and a Python
      [dict] are ordered association lists from labels to cells.
    - A [DataFrame] is its list of column labels and its list of rows,
      each row carrying its labels.  Column labels are taken to be distinct
      and none is [_merge], which the merge would refuse.
    - The pandas calls ([sort_values], [groupby], [unique], [merge],
      [concat]) are modelled by their documented behaviour; each model says
      so where it is defined. *)

From Stdlib Require Import List String Ascii ZArith Lia Bool.
From Stdlib Require Import Permutation Sorted.
From Stdlib Require Import Decimal DecimalString DecimalZ DecimalPos.
Import ListNotations.
Open Scope string_scope.
Open Scope list_scope.

Set Implicit Arguments.

(* ------------------------------------------------------------------ *)
(** ** Cells and their string form *)

Inductive value : Type :=
| VInt (z : Z)
| VStr (s : string)
| VNaN.

Definition value_eqb (a b : value) : bool :=
  match a, b with
  | VInt x, VInt y => Z.eqb x y
  | VStr x, VStr y => String.eqb x y
  | VNaN, VNaN => true
  | _, _ => false
  end.

(** Python's [a != b] on cells: a float NaN differs from everything,
    itself included. *)
Definition py_ne (a b : value) : bool :=
  match a, b with
  | VNaN, _ => true
  | _, VNaN => true
  | _, _ => negb (value_eqb a b)
  end.

(** [pd.notna]. *)
Definition notna (v : value) : bool :=
  match v with VNaN => false | _ => true end.

(** [str(val)]. *)
Definition py_str (v : value) : string :=
  match v with
  | VInt z => NilZero.string_of_int (Z.to_int z)
  | VStr s => s
  | VNaN => "nan"
  end.

(** [sub in s] on strings. *)
Fixpoint contains (sub s : string) : bool :=
  String.prefix sub s ||
  match s with
  | EmptyString => false
  | String _ r => contains sub r
  end.

Definition MISSING : string := "##MISSING##".

(** [val == "##MISSING##"]. *)
Definition is_missing (v : value) : bool :=
  match v with
  | VStr s => String.eqb s MISSING
  | _ => false
  end.

(** [f"**{val}**"]. *)
Definition mark (v : value) : value := VStr ("**" ++ py_str v ++ "**").

(* ------------------------------------------------------------------ *)
(** ** Field comparison (lines 435-447)

    The [if]/[elif] chain executed for one column of a ['both'] row;
    the result is the pair of cells left in [old_dict] and [new_dict]. *)

Definition compare_cell (new_num group_max val_old val_new : value)
  : value * value :=
  if is_missing val_old && negb (is_missing val_new) then
    (val_old, mark val_new)
  else if is_missing val_new && negb (is_missing val_old) then
    (mark val_old, val_new)
  else if py_ne val_old val_new
          && negb (contains "##" (py_str val_old))
          && negb (contains "##" (py_str val_new)) then
    (mark val_old, if py_ne new_num group_max then mark val_new else val_new)
  else
    (val_old, val_new).

(** The first two branches alone: what the chain does when the third
    one is not taken. *)
Definition compare_cell_missing_only (val_old val_new : value)
  : value * value :=
  if is_missing val_old && negb (is_missing val_new) then
    (val_old, mark val_new)
  else if is_missing val_new && negb (is_missing val_old) then
    (mark val_old, val_new)
  else
    (val_old, val_new).

(* ------------------------------------------------------------------ *)
(** ** Python dictionaries and pandas rows *)

Section Dict.
Variable V : Type.

Definition dict := list (string * V).

Fixpoint dict_get (d : dict) (k : string) : option V :=
  match d with
  | [] => None
  | (k', v) :: t => if String.eqb k' k then Some v else dict_get t k
  end.

(** [k in d]. *)
Definition dict_mem (d : dict) (k : string) : bool :=
  match dict_get d k with Some _ => true | None => false end.

(** [d[k] = v]: an existing key keeps its position, a new key goes
    last. *)
Fixpoint dict_set (d : dict) (k : string) (v : V) : dict :=
  match d with
  | [] => [(k, v)]
  | (k', v') :: t =>
      if String.eqb k' k then (k', v) :: t else (k', v') :: dict_set t k v
  end.

Definition dict_keys (d : dict) : list string := map fst d.
End Dict.

Arguments dict_get {V} d k.
Arguments dict_mem {V} d k.
Arguments dict_set {V} d k v.
Arguments dict_keys {V} d.

Definition Series := dict value.

(** [row[col]]; rows are read only at labels they carry. *)
Definition get (row : Series) (col : string) : value :=
  match dict_get row col with Some v => v | None => VNaN end.

Record DataFrame : Type := mkDataFrame {
  columns : list string;
  rows : list Series
}.

Definition mem_str (s : string) (l : list string) : bool :=
  existsb (String.eqb s) l.

(* ------------------------------------------------------------------ *)
(** ** Orders and sorting

    pandas sorts a column by the order of its values and puts nulls
    last ([na_position='last']).  Columns are homogeneous in practice;
    the model extends the order to mixed columns by putting integers
    before strings, so that it is total on every frame. *)

Section Lex.
Variable A : Type.
Variable leb : A -> A -> bool.

(** Lexicographic comparison of tuples, component by component. *)
Fixpoint lex_leb (l1 l2 : list A) : bool :=
  match l1, l2 with
  | [], _ => true
  | _ :: _, [] => false
  | x :: t1, y :: t2 =>
      if leb x y then (if leb y x then lex_leb t1 t2 else true) else false
  end.

Fixpoint insert_by (x : A) (l : list A) : list A :=
  match l with
  | [] => [x]
  | y :: t => if leb x y then x :: l else y :: insert_by x t
  end.

(** A stable sort: an element goes in front of the later elements it
    ties with. *)
Definition sort_by (l : list A) : list A := fold_right insert_by [] l.
End Lex.

Section Unique.
Variable A : Type.
Variable eqb : A -> A -> bool.

(** [Series.unique()]: the distinct values, in order of first
    appearance. *)
Fixpoint unique (l : list A) : list A :=
  match l with
  | [] => []
  | x :: t => x :: filter (fun y => negb (eqb x y)) (unique t)
  end.

Fixpoint list_eqb (l1 l2 : list A) : bool :=
  match l1, l2 with
  | [], [] => true
  | x :: t1, y :: t2 => eqb x y && list_eqb t1 t2
  | _, _ => false
  end.
End Unique.

Definition ascii_leb (a b : ascii) : bool :=
  N.leb (N_of_ascii a) (N_of_ascii b).

Definition string_leb (s1 s2 : string) : bool :=
  lex_leb ascii_leb (list_ascii_of_string s1) (list_ascii_of_string s2).

Definition value_leb (a b : value) : bool :=
  match a, b with
  | VInt x, VInt y => Z.leb x y
  | VInt _, _ => true
  | VStr _, VInt _ => false
  | VStr x, VStr y => string_leb x y
  | VStr _, VNaN => true
  | VNaN, VNaN => true
  | VNaN, _ => false
  end.

Definition tuple_leb : list value -> list value -> bool := lex_leb value_leb.
Definition tuple_eqb : list value -> list value -> bool := list_eqb value_eqb.

(** The tuple of a row's cells at the given columns. *)
Definition key_of (cols : list string) (row : Series) : list value :=
  map (get row) cols.

(** [df.sort_values(by=cols)]: rows in lexicographic order of the [by]
    columns, ties in their previous order. *)
Definition sort_values (by_cols : list string) (df : DataFrame) : DataFrame :=
  mkDataFrame (columns df)
    (sort_by (fun r1 r2 => tuple_leb (key_of by_cols r1) (key_of by_cols r2))
             (rows df)).

(** [df.groupby(cols)] as iterated by [for group_keys, group_data in
    grouped]: one group per distinct key tuple, groups in sorted key
    order ([sort=True]), rows of a group in frame order; a row with a
    null in a key column belongs to no group ([dropna=True]). *)
Definition groupby (by_cols : list string) (df : DataFrame)
  : list (list value * DataFrame) :=
  let keys := filter (forallb notna) (map (key_of by_cols) (rows df)) in
  map (fun k =>
         (k, mkDataFrame (columns df)
               (filter (fun r => tuple_eqb (key_of by_cols r) k) (rows df))))
      (sort_by tuple_leb (unique tuple_eqb keys)).

(** [max(l)] on a non-empty list: the first greatest element. *)
Definition py_max (l : list value) : value :=
  match l with
  | [] => VNaN
  | x :: t => fold_left (fun m y => if value_leb y m then m else y) t x
  end.

(** [df[df[col] == v]]. *)
Definition select_eq (col : string) (v : value) (df : DataFrame) : DataFrame :=
  mkDataFrame (columns df)
    (filter (fun r => negb (py_ne (get r col) v)) (rows df)).

(* ------------------------------------------------------------------ *)
(** ** The column lists of the engine (lines 350-370) *)

Definition sort_columns : list string :=
  [ "DET_ROW_NUM"; "DET_WH_CUST_NO"; "ACC_WH_ACC_NO";
    "REL_WH_SECNDRY_CUST_NO"; "REL_CUST_KIR_TYP_CDE" ].

Definition id_columns : list string :=
  [ "DET_WH_CUST_NO"; "ACC_WH_ACC_NO"; "REL_WH_SECNDRY_CUST_NO";
    "REL_CUST_KIR_TYP_CDE"; "ACTE_PERIOD_DTE"; "ACC_RPT_PERIOD_DTE";
    "ACC_PERIOD_DTE"; "ACC_LOAD_DTE"; "ACC_LOAD_TIME"; "REL_RPT_PERIOD_DTE";
    "REL_PERIOD_DTE"; "REL_LOAD_DTE"; "REL_LOAD_TIME";
    "ACC_REL_RPT_PERIOD_DTE"; "ACC_REL_PERIOD_DTE"; "ACC_REL_LOAD_DTE";
    "ACC_REL_LOAD_TIME" ].

Definition merge_key_cols : list string :=
  [ "ACC_WH_ACC_NO"; "REL_WH_SECNDRY_CUST_NO"; "REL_CUST_KIR_TYP_CDE" ].

(* ------------------------------------------------------------------ *)
(** ** The outer merge (lines 407-413)

    [sub_old.merge(sub_new, on=merge_key_cols, how="outer",
    suffixes=('_old','_new'), indicator=True)].  Both frames are slices
    of one frame and have the same columns, so every column outside the
    join key overlaps and takes its suffix.  Keys match by equality of
    their cells (null keys match each other).  The result lists the keys
    in sorted order; a key matched on both sides gives every combination
    of its old and new rows, a key on one side gives its rows with nulls
    on the other side. *)

Definition suffixed (suffix : string) (row : Series) : Series :=
  map (fun cv => (if mem_str (fst cv) merge_key_cols then fst cv
                  else (fst cv ++ suffix)%string, snd cv)) row.

Definition non_key (row : Series) : Series :=
  filter (fun cv => negb (mem_str (fst cv) merge_key_cols)) row.

Definition null_side (suffix : string) (cols : list string) : Series :=
  map (fun c => ((c ++ suffix)%string, VNaN))
      (filter (fun c => negb (mem_str c merge_key_cols)) cols).

Definition both_row (l r : Series) : Series :=
  suffixed "_old" l ++ suffixed "_new" (non_key r)
  ++ [("_merge", VStr "both")].

Definition left_only_row (new_cols : list string) (l : Series) : Series :=
  suffixed "_old" l ++ null_side "_new" new_cols
  ++ [("_merge", VStr "left_only")].

Definition right_only_row (old_cols : list string) (r : Series) : Series :=
  map (fun c => if mem_str c merge_key_cols then (c, get r c)
                else ((c ++ "_old")%string, VNaN)) old_cols
  ++ suffixed "_new" (non_key r)
  ++ [("_merge", VStr "right_only")].

Definition merge_key (row : Series) : list value := key_of merge_key_cols row.

Definition rows_with_key (k : list value) (df : DataFrame) : list Series :=
  filter (fun r => tuple_eqb (merge_key r) k) (rows df).

Definition merge_rows_of_key (sub_old sub_new : DataFrame) (k : list value)
  : list Series :=
  match rows_with_key k sub_old, rows_with_key k sub_new with
  | ls, [] => map (left_only_row (columns sub_new)) ls
  | [], rs => map (right_only_row (columns sub_old)) rs
  | ls, rs => flat_map (fun l => map (both_row l) rs) ls
  end.

Definition merge_outer (sub_old sub_new : DataFrame) : list Series :=
  flat_map (merge_rows_of_key sub_old sub_new)
    (sort_by tuple_leb
       (unique tuple_eqb (map merge_key (rows sub_old ++ rows sub_new)))).

(* ------------------------------------------------------------------ *)
(** ** One side of a merged row (lines 376-390) *)

Definition build_side_dict (row : Series) (sub_df : DataFrame)
           (suffix : string) (ref_num : value) : dict value :=
  let d :=
    fold_left
      (fun d col =>
         if mem_str col merge_key_cols then dict_set d col (get row col)
         else
           let col_name := (col ++ suffix)%string in
           if dict_mem row col_name && notna (get row col_name)
           then dict_set d col (get row col_name)
           else dict_set d col (VStr MISSING))
      (columns sub_df) [] in
  dict_set d "DET_ROW_NUM" ref_num.

(** [{col: "##MISSING##" for col in sub_df.columns}] followed by
    [d["DET_ROW_NUM"] = ref_num] (lines 420-421 and 424-425). *)
Definition missing_dict (sub_df : DataFrame) (ref_num : value) : dict value :=
  dict_set
    (fold_left (fun d col => dict_set d col (VStr MISSING)) (columns sub_df) [])
    "DET_ROW_NUM" ref_num.

(* ------------------------------------------------------------------ *)
(** ** Comparing the two sides of a ['both'] row (lines 431-447)

    One iteration of [for col in old_dict], on the pair of dictionaries.
    Assigning to an existing key does not disturb the iteration. *)

Definition compare_step (new_num group_max : value)
           (st : dict value * dict value) (col : string)
  : dict value * dict value :=
  let (old_dict, new_dict) := st in
  if String.eqb col "DET_ROW_NUM" then st
  else if dict_mem new_dict col then
    let val_old := get old_dict col in
    let val_new := get new_dict col in
    if is_missing val_old && negb (is_missing val_new) then
      (old_dict, dict_set new_dict col (mark val_new))
    else if is_missing val_new && negb (is_missing val_old) then
      (dict_set old_dict col (mark val_old), new_dict)
    else if py_ne val_old val_new
            && negb (contains "##" (py_str val_old))
            && negb (contains "##" (py_str val_new)) then
      let old_dict := dict_set old_dict col (mark val_old) in
      if py_ne new_num group_max
      then (old_dict, dict_set new_dict col (mark val_new))
      else (old_dict, new_dict)
    else st
  else st.

Definition compare_dicts (new_num group_max : value)
           (old_dict new_dict : dict value) : dict value * dict value :=
  fold_left (compare_step new_num group_max) (dict_keys old_dict)
            (old_dict, new_dict).

(** The body of [for idx, row in merged.iterrows()] up to the two
    dictionaries (lines 416-447). *)
Definition side_dicts (sub_old sub_new : DataFrame)
           (old_num new_num group_max : value) (row : Series)
  : dict value * dict value :=
  let merge_status := get row "_merge" in
  if value_eqb merge_status (VStr "left_only") then
    (build_side_dict row sub_old "_old" old_num, missing_dict sub_new new_num)
  else if value_eqb merge_status (VStr "right_only") then
    (missing_dict sub_old old_num, build_side_dict row sub_new "_new" new_num)
  else
    compare_dicts new_num group_max
      (build_side_dict row sub_old "_old" old_num)
      (build_side_dict row sub_new "_new" new_num).

(* ------------------------------------------------------------------ *)
(** ** Difference frames (lines 449-452) *)

(** A cell of the output: a data cell, or the tuple stored under
    [GROUP_KEYS]. *)
Inductive cell : Type :=
| CVal (v : value)
| CKeys (group_keys : list value).

Definition out_row := dict cell.

Definition cell_get (row : out_row) (col : string) : cell :=
  match dict_get row col with Some c => c | None => CVal VNaN end.

(** [pd.DataFrame([old_dict, new_dict])] with the [GROUP_KEYS] column
    set on both rows: the two rows of one DiffPair. *)
Definition df_diff (group_keys : list value) (old_dict new_dict : dict value)
  : list out_row :=
  [ dict_set (map (fun cv => (fst cv, CVal (snd cv))) old_dict)
             "GROUP_KEYS" (CKeys group_keys);
    dict_set (map (fun cv => (fst cv, CVal (snd cv))) new_dict)
             "GROUP_KEYS" (CKeys group_keys) ].

(** The inner loop over one consecutive version pair (lines 401-452). *)
Definition process_pair (group_keys : list value) (group_sorted : DataFrame)
           (group_max old_num new_num : value) : list (list out_row) :=
  let sub_old := select_eq "DET_ROW_NUM" old_num group_sorted in
  let sub_new := select_eq "DET_ROW_NUM" new_num group_sorted in
  map (fun row =>
         let (old_dict, new_dict) :=
           side_dicts sub_old sub_new old_num new_num group_max row in
         df_diff group_keys old_dict new_dict)
      (merge_outer sub_old sub_new).

(** [sorted(group_sorted["DET_ROW_NUM"].unique())]. *)
Definition unique_nums (group_sorted : DataFrame) : list value :=
  sort_by value_leb
    (unique value_eqb (map (fun r => get r "DET_ROW_NUM") (rows group_sorted))).

(** The pairs [(unique_nums[i], unique_nums[i+1])] for
    [i in range(len(unique_nums) - 1)]. *)
Fixpoint version_pairs (nums : list value) : list (value * value) :=
  match nums with
  | [] => []
  | old_num :: rest =>
      match rest with
      | [] => []
      | new_num :: _ => (old_num, new_num) :: version_pairs rest
      end
  end.

(** The body of [for group_keys, group_data in grouped] (lines 393-452).
    The single-column sort is modelled as stable; [max] is applied to a
    list that is never empty for a group of [groupby]. *)
Definition process_group (g : list value * DataFrame) : list (list out_row) :=
  let (group_keys, group_data) := g in
  let group_sorted := sort_values ["DET_ROW_NUM"] group_data in
  let nums := unique_nums group_sorted in
  let group_max := py_max nums in
  flat_map (fun p => process_pair group_keys group_sorted group_max
                                  (fst p) (snd p))
           (version_pairs nums).

(** [differences_list] when the loop over the groups ends. *)
Definition differences_list (df : DataFrame) : list (list out_row) :=
  flat_map process_group (groupby id_columns (sort_values sort_columns df)).

(* ------------------------------------------------------------------ *)
(** ** Sort keys of the output (lines 459-466) *)

(** [s.replace(marker, "")]: the occurrences of [marker] are removed
    from left to right.  The fuel is the length of [s], which a
    non-empty marker never exhausts. *)
Fixpoint drop_prefix (p s : string) : option string :=
  match p, s with
  | EmptyString, _ => Some s
  | String a p', String b s' =>
      if Ascii.eqb a b then drop_prefix p' s' else None
  | String _ _, EmptyString => None
  end.

Fixpoint remove_marker (fuel : nat) (marker s : string) : string :=
  match fuel with
  | O => s
  | S fuel' =>
      match s with
      | EmptyString => EmptyString
      | String c r =>
          match drop_prefix marker s with
          | Some rest => remove_marker fuel' marker rest
          | None => String c (remove_marker fuel' marker r)
          end
      end
  end.

Definition str_replace_empty (marker s : string) : string :=
  remove_marker (String.length s) marker s.

Definition is_space (c : ascii) : bool :=
  match N_of_ascii c with
  | 9%N | 10%N | 11%N | 12%N | 13%N | 32%N => true
  | _ => false
  end.

Fixpoint lstrip (s : string) : string :=
  match s with
  | String c r => if is_space c then lstrip r else s
  | EmptyString => EmptyString
  end.

Fixpoint rstrip (s : string) : string :=
  match s with
  | EmptyString => EmptyString
  | String c r =>
      match rstrip r with
      | EmptyString => if is_space c then EmptyString else String c EmptyString
      | r' => String c r'
      end
  end.

Definition is_digit (c : ascii) : bool :=
  (N.leb 48 (N_of_ascii c) && N.leb (N_of_ascii c) 57)%N.

(** The digits of an integer literal; a single underscore may separate
    two digits.  [prev_digit] tells whether the previous character was a
    digit. *)
Fixpoint literal_digits (prev_digit : bool) (s : string) : option string :=
  match s with
  | EmptyString => if prev_digit then Some EmptyString else None
  | String c r =>
      if is_digit c then option_map (String c) (literal_digits true r)
      else if Ascii.eqb c "_" && prev_digit then literal_digits false r
      else None
  end.

Definition digits_int (s : string) : option Z :=
  match literal_digits false s with
  | Some ds => option_map Z.of_uint (NilZero.uint_of_string ds)
  | None => None
  end.

(** [int(s)] on a string: [None] stands for [ValueError].  Surrounding
    white space, one sign and digit-separating underscores are accepted,
    as Python does for ASCII input. *)
Definition py_int (s : string) : option Z :=
  match rstrip (lstrip s) with
  | String "-" r => option_map Z.opp (digits_int r)
  | String "+" r => digits_int r
  | t => digits_int t
  end.

(** [repr] of a cell inside a tuple; quotes inside strings are not
    escaped in the model. *)
Definition py_repr (v : value) : string :=
  match v with
  | VStr s => "'" ++ s ++ "'"
  | _ => py_str v
  end.

Definition tuple_str (k : list value) : string :=
  "(" ++ String.concat ", " (map py_repr k)
      ++ (match k with [_] => "," | _ => "" end) ++ ")".

Definition cell_str (c : cell) : string :=
  match c with
  | CVal v => py_str v
  | CKeys k => tuple_str k
  end.

(** An integer or [float("inf")]. *)
Inductive num : Type :=
| Fin (z : Z)
| Inf.

Definition num_leb (a b : num) : bool :=
  match a, b with
  | Fin x, Fin y => Z.leb x y
  | _, Inf => true
  | Inf, Fin _ => false
  end.

Definition extract_num (val : cell) : num :=
  let val_str := cell_str val in
  let val_str :=
    fold_left (fun s marker => str_replace_empty marker s) ["**"; "##"]
              val_str in
  match py_int val_str with
  | Some z => Fin z
  | None => Inf
  end.

(** [highlight_differences] (lines 490-496). *)
Definition highlight_differences (val : cell) : string :=
  let val_str := cell_str val in
  if contains "##" val_str then "background-color: lightblue"
  else if contains "**" val_str then "background-color: pink"
  else "".

(* ------------------------------------------------------------------ *)
(** ** Assembling the output table (lines 456-487) *)

Record OutFrame : Type := mkOutFrame {
  out_columns : list string;
  out_rows : list out_row
}.

(** [pd.concat(differences_list, ignore_index=True)]: the rows of all
    frames in order, over the labels of all frames in order of first
    appearance; a row takes a null under a label it does not carry. *)
Definition align (cols : list string) (row : out_row) : out_row :=
  map (fun c => (c, cell_get row c)) cols.

Definition concat_frames (frames : list (list out_row)) : OutFrame :=
  let all_rows := List.concat frames in
  let cols := unique String.eqb (flat_map (@dict_keys cell) all_rows) in
  mkOutFrame cols (map (align cols) all_rows).

Definition desired_order : list string :=
  [ "DET_ROW_NUM"; "DET_WH_CUST_NO"; "ACC_WH_ACC_NO";
    "REL_WH_SECNDRY_CUST_NO"; "REL_CUST_KIR_TYP_CDE" ].

(** The columns cleaned at lines 468-471: [DET_ROW_NUM] always, each of
    the other four when the table has it. *)
Definition cleaned_columns (cols : list string) : list string :=
  "DET_ROW_NUM"
  :: filter (fun c => mem_str c cols)
       [ "DET_WH_CUST_NO"; "ACC_WH_ACC_NO"; "REL_WH_SECNDRY_CUST_NO";
         "REL_CUST_KIR_TYP_CDE" ].

(** The values a row has in the [_clean] columns, in the order of
    [sort_cols_clean]. *)
Definition clean_key (cols : list string) (row : out_row) : list num :=
  map (fun c => extract_num (cell_get row c)) (cleaned_columns cols).

Definition sort_cols_clean (cols : list string) : list string :=
  map (fun c => (c ++ "_clean")%string) (cleaned_columns cols).

(** Lines 468-479.  The [_clean] columns live only between their
    creation and [drop]; the model sorts on their values and then drops
    their labels.  The sort is on several columns, hence stable. *)
Definition sort_clean (t : OutFrame) : OutFrame :=
  let cols := out_columns t in
  let sorted :=
    sort_by (fun r1 r2 => lex_leb num_leb (clean_key cols r1) (clean_key cols r2))
            (out_rows t) in
  let kept := filter (fun c => negb (mem_str c (sort_cols_clean cols))) cols in
  mkOutFrame kept (map (align kept) sorted).

(** Lines 481-487. *)
Definition reorder (t : OutFrame) : OutFrame :=
  let remaining_cols :=
    filter (fun c => negb (mem_str c desired_order)) (out_columns t) in
  let new_order := desired_order ++ remaining_cols in
  mkOutFrame new_order (map (align new_order) (out_rows t)).

Definition all_diffs_df (frames : list (list out_row)) : OutFrame :=
  reorder (sort_clean (concat_frames frames)).

(** What the method returns: the styled table, or [pd.DataFrame()].
    The [Styler] keeps the table and applies [highlight_differences]
    cell by cell when it is rendered. *)
Inductive result : Type :=
| Styler (data : OutFrame)
| EmptyDataFrame.

Inductive outcome : Type :=
| Returned (r : result)
| Raised (exc : string).

Definition has_columns (cols : list string) (df : DataFrame) : bool :=
  forallb (fun c => mem_str c (columns df)) cols.

(** The value computed by [_comparator_two_sided_merge]: [sort_values]
    and [groupby] raise [KeyError] on a frame that lacks one of their
    columns. *)
Definition reconcile (df : DataFrame) : outcome :=
  if negb (has_columns sort_columns df) then Raised "KeyError"
  else if negb (has_columns id_columns df) then Raised "KeyError"
  else
    match differences_list df with
    | [] => Returned EmptyDataFrame
    | frames => Returned (Styler (all_diffs_df frames))
    end.

(* ------------------------------------------------------------------ *)
(** ** The method with its effects

    The method prints, logs and writes a spreadsheet.  The object and
    the world it touches are threaded as a state: the attributes of
    [self] it reads, the log buffer, the clock behind [datetime.now()],
    standard output and the files written. *)

Inductive event : Type :=
| Print (line : string)
| PrintHead (sample : list Series)
| PrintGroup (group_keys : list value) (n_rows : nat).

Record State : Type := mkState {
  _customer_number : string;
  _xlsx_path : string;
  _logs : list string;
  clock : nat;
  stdout : list event;
  files : list (string * OutFrame);
  disk_fails : bool
}.

Definition M (A : Type) : Type := State -> A * State.

Definition ret {A : Type} (a : A) : M A := fun s => (a, s).

Definition bind {A B : Type} (m : M A) (f : A -> M B) : M B :=
  fun s => let (a, s') := m s in f a s'.

Notation "x <- m ;; k" := (bind m (fun x => k))
  (at level 61, m at next level, right associativity).
Notation "m ;;; k" := (bind m (fun _ => k))
  (at level 61, right associativity).

Definition print (e : event) : M unit :=
  fun s => (tt, mkState (_customer_number s) (_xlsx_path s) (_logs s)
                  (clock s) (stdout s ++ [e]) (files s) (disk_fails s)).

Fixpoint for_each {A : Type} (l : list A) (body : A -> M unit) : M unit :=
  match l with
  | [] => ret tt
  | x :: t => body x ;;; for_each t body
  end.

Section Effects.
(** [strftime], [os.path.join] and the text of a caught exception are
    left to the platform. *)
Variable strftime : string -> nat -> string.
Variable path_join : string -> string -> string.
Variable exc_text : string.

(** [datetime.now().strftime(fmt)]: reads the clock, which moves on. *)
Definition now (fmt : string) : M string :=
  fun s => (strftime fmt (clock s),
            mkState (_customer_number s) (_xlsx_path s) (_logs s)
              (S (clock s)) (stdout s) (files s) (disk_fails s)).

Definition _get_date_str (date_format : string) : M string :=
  now date_format.

(** [_logger] (lines 75-82). *)
Definition _logger (message level : string) : M unit :=
  timestamp <- now "%Y-%m-%d %H:%M:%S" ;;
  let log_entry := (timestamp ++ " [" ++ level ++ "] - " ++ message)%string in
  (fun s =>
     let logs := if Nat.ltb 1000 (List.length (_logs s))
                 then tl (_logs s) else _logs s in
     (tt, mkState (_customer_number s) (_xlsx_path s) (logs ++ [log_entry])
            (clock s) (stdout s) (files s) (disk_fails s))) ;;;
  print (Print log_entry).

(** [df.to_excel(path, index=False)] on a [Styler]: the file is
    written, or the call raises. *)
Definition to_excel (path : string) (t : OutFrame) : M bool :=
  fun s =>
    if disk_fails s then (false, s)
    else (true, mkState (_customer_number s) (_xlsx_path s) (_logs s)
                  (clock s) (stdout s) (files s ++ [(path, t)])
                  (disk_fails s)).

(** [_write_xlsx] (lines 523-554) on what the comparison hands it. *)
Definition _write_xlsx (df : result) : M unit :=
  fun s0 =>
    (d1 <- _get_date_str "%Y%m%d%H%M%S" ;;
     let output_name :=
       ("WH_CUST_NO_" ++ _customer_number s0 ++ "_" ++ d1 ++ "_AM.xlsx")%string in
     d2 <- _get_date_str "%Y%m%d%H%M%S" ;;
     let output_name_diff :=
       ("DIFF_WH_CUST_NO_" ++ _customer_number s0 ++ "_" ++ d2
          ++ "_AM.xlsx")%string in
     let output_path := path_join (_xlsx_path s0) output_name in
     let output_path_diff := path_join (_xlsx_path s0) output_name_diff in
     match df with
     | Styler t =>
         ok <- to_excel output_path_diff t ;;
         if ok then _logger ("Excel file stored at " ++ output_path) "INFO"
         else _logger ("CRITICAL in _write_xlsx(): " ++ exc_text) "INFO"
     | EmptyDataFrame =>
         _logger "WARNING: Empty DataFrame; skipping XLSX." "INFO"
     end) s0.

(** [_comparator_two_sided_merge] (lines 339-504). *)
Definition _comparator_two_sided_merge (df : DataFrame) : M outcome :=
  print (Print "Original DataFrame sample:") ;;;
  print (PrintHead (firstn 10 (rows df))) ;;;
  if negb (has_columns sort_columns df) then ret (Raised "KeyError")
  else if negb (has_columns id_columns df) then ret (Raised "KeyError")
  else
    let grouped := groupby id_columns (sort_values sort_columns df) in
    for_each grouped
      (fun g => print (PrintGroup (fst g) (List.length (rows (snd g))))) ;;;
    match flat_map process_group grouped with
    | [] =>
        print (Print
          "INFO: No differences found in any group. No Excel file generated.") ;;;
        ret (Returned EmptyDataFrame)
    | frames =>
        let styled := Styler (all_diffs_df frames) in
        _write_xlsx styled ;;;
        (fun s =>
           print (Print ("INFO: Differences have been saved to "
                           ++ _xlsx_path s)) s) ;;;
        ret (Returned styled)
    end.
End Effects.

(* ------------------------------------------------------------------ *)
(** ** Auxiliary views used by the statements *)

(** The cell [build_side_dict] stores under [col]: the three branches of
    its loop body as one expression. *)
Definition side_value (row : Series) (suffix col : string) : value :=
  if mem_str col merge_key_cols then get row col
  else
    let col_name := (col ++ suffix)%string in
    if dict_mem row col_name && notna (get row col_name)
    then get row col_name
    else VStr MISSING.

(** The two suffixes of the merge. *)
Definition is_suffix (s : string) : Prop := s = "_old" \/ s = "_new".

(** Strictly increasing versions. *)
Definition value_lt (a b : value) : Prop := value_leb a b = true /\ a <> b.

(** The comparison [sort_values] sorts the rows with. *)
Definition rows_leb (by_cols : list string) (r1 r2 : Series) : bool :=
  tuple_leb (key_of by_cols r1) (key_of by_cols r2).

(** Rows of one group and one version are identical rows. *)
Definition one_row_per_version (df : DataFrame) : Prop :=
  forall r1 r2,
    In r1 (rows df) -> In r2 (rows df) ->
    key_of id_columns r1 = key_of id_columns r2 ->
    get r1 "DET_ROW_NUM" = get r2 "DET_ROW_NUM" ->
    r1 = r2.

(** The sort key of an output row: the numbers read in the five
    leading columns. *)
Definition sort_key (row : out_row) : list num :=
  map (fun c => extract_num (cell_get row c)) desired_order.

Definition sort_key_leb (r1 r2 : out_row) : bool :=
  lex_leb num_leb (sort_key r1) (sort_key r2).

(** The labels of the temporary sort columns. *)
Definition clean_labels : list string :=
  map (fun c => (c ++ "_clean")%string) desired_order.

(** Every character of a string satisfies a test. *)
Fixpoint string_forall (p : ascii -> bool) (s : string) : bool :=
  match s with
  | EmptyString => true
  | String c r => p c && string_forall p r
  end.

(** The characters of the decimal form of an integer. *)
Definition is_int_char (c : ascii) : bool := is_digit c || Ascii.eqb c "-".

(** The cells of a column of the returned table, top to bottom. *)
Definition column_of (o : outcome) (col : string) : list cell :=
  match o with
  | Returned (Styler t) => map (fun r => cell_get r col) (out_rows t)
  | _ => []
  end.

(** The table of a returned result. *)
Definition table_of (o : outcome) : OutFrame :=
  match o with
  | Returned (Styler t) => t
  | _ => mkOutFrame [] []
  end.

(* ------------------------------------------------------------------ *)
(** ** Sample tables

    The samples have the version column, the identity columns and one
    payload column [AMOUNT].  [sample_row_acc acc ver amount] is the row
    at version [ver] of the group whose account number is [acc], every
    other identity column holding 1. *)

Definition sample_columns : list string :=
  "DET_ROW_NUM" :: id_columns ++ ["AMOUNT"].

Definition sample_row_acc (acc ver : Z) (amount : value) : Series :=
  ("DET_ROW_NUM", VInt ver)
  :: map (fun c => (c, if String.eqb c "ACC_WH_ACC_NO" then VInt acc
                       else VInt 1)) id_columns
  ++ [("AMOUNT", amount)].

Definition sample_row (ver : Z) (amount : value) : Series :=
  sample_row_acc 1 ver amount.

(** Scenario D: versions 1 and 2 of one group, [AMOUNT] 100 then 200. *)
Definition scenario_D : DataFrame :=
  mkDataFrame sample_columns
    [sample_row 1 (VInt 100); sample_row 2 (VInt 200)].

(** Scenario D with its rows in the other order. *)
Definition scenario_D_reversed : DataFrame :=
  mkDataFrame sample_columns
    [sample_row 2 (VInt 200); sample_row 1 (VInt 100)].

(** Scenario D with the payload column ahead of the identity columns. *)
Definition payload_first : DataFrame :=
  mkDataFrame ("DET_ROW_NUM" :: "AMOUNT" :: id_columns)
    [ ("DET_ROW_NUM", VInt 1) :: ("AMOUNT", VInt 100)
        :: map (fun c => (c, VInt 1)) id_columns;
      ("DET_ROW_NUM", VInt 2) :: ("AMOUNT", VInt 200)
        :: map (fun c => (c, VInt 1)) id_columns ].

(** Two rows of one group and one version that differ in [AMOUNT],
    with the next version, in the two orders of the first two rows. *)
Definition duplicated_version : DataFrame :=
  mkDataFrame sample_columns
    [sample_row 1 (VInt 100); sample_row 1 (VInt 150); sample_row 2 (VInt 200)].

Definition duplicated_version_swapped : DataFrame :=
  mkDataFrame sample_columns
    [sample_row 1 (VInt 150); sample_row 1 (VInt 100); sample_row 2 (VInt 200)].

(** A null then a value, and two different values one of which
    contains ["##"]. *)
Definition null_then_value : DataFrame :=
  mkDataFrame sample_columns [sample_row 1 VNaN; sample_row 2 (VInt 5)].

Definition hash_values : DataFrame :=
  mkDataFrame sample_columns
    [sample_row 1 (VStr "a##b"); sample_row 2 (VStr "c")].

(** An old subset whose only row has a null [AMOUNT], and a new subset
    whose only row has another merge key. *)
Definition one_sided_old : DataFrame :=
  mkDataFrame sample_columns [sample_row_acc 1 1 VNaN].

Definition one_sided_new : DataFrame :=
  mkDataFrame sample_columns [sample_row_acc 2 2 (VInt 5)].

(** The frame [pd.DataFrame()]: no column, no row. *)
Definition empty_frame : DataFrame := mkDataFrame [] [].

(** The sample columns without rows. *)
Definition sample_no_rows : DataFrame := mkDataFrame sample_columns [].

(** A state to run the method in. *)
Definition sample_state : State :=
  mkState "ALL_CHECK" "XLSXs" [] 0 [] [] false.

(* ------------------------------------------------------------------ *)
(** ** Readings that the code does not satisfy

    Each of these propositions words a sentence of the specification
    literally; the properties part refutes it on a sample table. *)

(** A key met on the old side only: the old row is shown as it is and
    the new row is the missing marker throughout. *)
Definition old_row_taken_as_is : Prop :=
  forall (sub_old sub_new : DataFrame) (old_num new_num group_max : value)
         (k : list value) (l : Series) (col : string),
    columns sub_old = columns sub_new ->
    In l (rows_with_key k sub_old) ->
    rows_with_key k sub_new = [] ->
    mem_str col (columns sub_old) = true ->
    col <> "DET_ROW_NUM" ->
    let row := left_only_row (columns sub_new) l in
    let st := side_dicts sub_old sub_new old_num new_num group_max row in
    get (fst st) col = get l col /\ get (snd st) col = VStr MISSING.

(** A group with [k >= 2] distinct versions contributes exactly [k-1]
    DiffPairs. *)
Definition one_diffpair_per_version_pair : Prop :=
  forall (df : DataFrame) (g : list value * DataFrame),
    In g (groupby id_columns (sort_values sort_columns df)) ->
    let nums := unique_nums (sort_values ["DET_ROW_NUM"] (snd g)) in
    2 <= List.length nums ->
    List.length (process_group g) = List.length nums - 1.

(** The columns of the table are the version column, the identity
    columns, then the payload columns in their original order (and the
    back-reference [GROUP_KEYS]). *)
Definition identity_columns_then_payload : Prop :=
  forall (df : DataFrame) (t : OutFrame),
    reconcile df = Returned (Styler t) ->
    out_columns t
    = "DET_ROW_NUM" :: id_columns
      ++ filter (fun c => negb (mem_str c ("DET_ROW_NUM" :: id_columns)))
                (columns df)
      ++ ["GROUP_KEYS"].

(** A table without rows gives the empty result. *)
Definition empty_result_on_zero_rows : Prop :=
  forall df : DataFrame, rows df = [] -> reconcile df = Returned EmptyDataFrame.

(** Permuting the rows of the input never changes the output. *)
Definition order_invariant : Prop :=
  forall df df' : DataFrame,
    columns df' = columns df ->
    Permutation (rows df) (rows df') ->
    reconcile df' = reconcile df.

(* ------------------------------------------------------------------ *)
(** ** More views of the comparison *)

(** What a side dictionary shows for a cell of an input row: a null is
    replaced by the missing marker (lines 384-387). *)
Definition shown (v : value) : value :=
  if notna v then v else VStr MISSING.

(** The frame without the rows that have a null in an identity
    column. *)
Definition dropna_identity (df : DataFrame) : DataFrame :=
  mkDataFrame (columns df)
    (filter (fun r => forallb notna (key_of id_columns r)) (rows df)).

(* ------------------------------------------------------------------ *)
(** * The rest of the class: log file, database session, scripts, [run]

    The comparison above calls [_logger] and [_write_xlsx]; this part
    embeds the other methods of [DatabaseTablesComparator].

    Modelling conventions.
    - An exception is its class and its text ([str(e)]).  An [except]
      clause catches by [issubclass] over the class hierarchy of Python
      and of pyodbc.
    - A method is a function from the object to its outcome (a value or
      a raised exception) and the object afterwards.
    - Besides its attributes the object records what the methods do to
      the world: the calls made to the database driver, in order, the
      text appended to files, the frames written to disk and the seconds
      slept.
    - What the world answers is a parameter: the reply of the driver to
      a call after the calls made before, whether a file can be opened,
      the content of a script file, what [sqlparse] returns.
    - Text is ASCII. *)

(** The newline character. *)
Definition nl : string := String (ascii_of_nat 10) EmptyString.

(** [str(n)] of a count. *)
Definition str_nat (n : nat) : string := py_str (VInt (Z.of_nat n)).

(** [l[-n:]] for a positive [n]. *)
Definition last_n (A : Type) (n : nat) (l : list A) : list A :=
  skipn (List.length l - n) l.

(** [str.isspace] on an ASCII character. *)
Definition py_isspace (c : ascii) : bool :=
  match N_of_ascii c with
  | 9%N | 10%N | 11%N | 12%N | 13%N
  | 28%N | 29%N | 30%N | 31%N | 32%N => true
  | _ => false
  end.

Fixpoint skip_spaces (s : string) : string :=
  match s with
  | String c r => if py_isspace c then skip_spaces r else s
  | EmptyString => EmptyString
  end.

Fixpoint drop_trailing_spaces (s : string) : string :=
  match s with
  | EmptyString => EmptyString
  | String c r =>
      match drop_trailing_spaces r with
      | EmptyString =>
          if py_isspace c then EmptyString else String c EmptyString
      | r' => String c r'
      end
  end.

(** [s.strip()]. *)
Definition strip (s : string) : string :=
  drop_trailing_spaces (skip_spaces s).

(** [s.isdigit()]. *)
Definition isdigit (s : string) : bool :=
  negb (String.eqb s "") && string_forall is_digit s.

(* ------------------------------------------------------------------ *)
(** ** Exceptions *)

Inductive exc_class : Type :=
| BaseException | SystemExit | Exception
| ValueError | TypeError | KeyError | AttributeError
| OSError | PermissionError | FileNotFoundError
| PyodbcError | InterfaceError | DatabaseError
| ProgrammingError | IntegrityError | OperationalError.

Definition exc_class_eqb (c d : exc_class) : bool :=
  match c, d with
  | BaseException, BaseException | SystemExit, SystemExit
  | Exception, Exception | ValueError, ValueError | TypeError, TypeError
  | KeyError, KeyError | AttributeError, AttributeError | OSError, OSError
  | PermissionError, PermissionError
  | FileNotFoundError, FileNotFoundError | PyodbcError, PyodbcError
  | InterfaceError, InterfaceError | DatabaseError, DatabaseError
  | ProgrammingError, ProgrammingError | IntegrityError, IntegrityError
  | OperationalError, OperationalError => true
  | _, _ => false
  end.

(** The base class.  [pyodbc.Error] is [PyodbcError]; [KeyError] is put
    directly under [Exception]. *)
Definition parent (c : exc_class) : option exc_class :=
  match c with
  | BaseException => None
  | SystemExit | Exception => Some BaseException
  | ValueError | TypeError | KeyError | AttributeError | OSError
  | PyodbcError => Some Exception
  | PermissionError | FileNotFoundError => Some OSError
  | InterfaceError | DatabaseError => Some PyodbcError
  | ProgrammingError | IntegrityError | OperationalError => Some DatabaseError
  end.

Fixpoint subclass_within (depth : nat) (c d : exc_class) : bool :=
  exc_class_eqb c d
  || match depth, parent c with
     | S depth', Some p => subclass_within depth' p d
     | _, _ => false
     end.

(** [issubclass(c, d)]; no class is more than four steps below
    [BaseException]. *)
Definition issubclass (c d : exc_class) : bool := subclass_within 4 c d.

Record exn : Type := mkExn {
  exn_class : exc_class;
  exn_text : string
}.

(** [except (c1, c2, ...)] catches [e]. *)
Definition caught_by (e : exn) (classes : list exc_class) : bool :=
  existsb (issubclass (exn_class e)) classes.

Inductive res (A : Type) : Type :=
| Ok (a : A)
| Err (e : exn).

Arguments Err {A} e.

(* ------------------------------------------------------------------ *)
(** ** The object and the world *)

(** The attributes [__init__] sets and no method assigns afterwards.
    [_customer_number] is a string or an integer: the session state
    carries its [str] form and [customer_is_int] tells which it is. *)
Record Attributes : Type := mkAttributes {
  customer_is_int : bool;
  _db_type : string;
  _file_generation_date : string;
  _dsn_name : string;
  _server : string;
  _sql_db : string;
  _sql_user : string;
  _sql_password : string;
  _scripts_path : string;
  _parquets_path : string;
  _log_path : string
}.

(** The calls made on the driver: [pyodbc.connect], and the methods of
    the connection and of its cursor.  [ExitCursor failed] is the end of
    a [with self._connection.cursor()] block, left by an exception or
    not. *)
Inductive db_call : Type :=
| Connect (connection_string : string)
| Cursor
| Execute (sql : string)
| Commit
| Rollback
| Fetchall
| Description
| ExitCursor (failed : bool)
| Close.

Inductive db_reply : Type :=
| Done
| Fails (e : exn)
| Records (records : list (list value))
| Names (names : list string).

(** [Path(directory) / name]. *)
Record Path : Type := mkPath {
  path_parent : string;
  path_name : string
}.

(** A script file on disk. *)
Inductive file_read : Type :=
| NoFile
| Unreadable (e : exn)
| FileText (text : string).

Record Object : Type := mkObject {
  attributes : Attributes;
  session : State;
  _connection : bool;
  db_trace : list db_call;
  text_files : list (string * string);
  data_files : list (string * DataFrame);
  opens : nat;
  slept : list nat
}.

Definition Prog (A : Type) : Type := Object -> res A * Object.

Definition pret {A : Type} (a : A) : Prog A := fun o => (Ok a, o).

Definition raise {A : Type} (e : exn) : Prog A := fun o => (Err e, o).

Definition pbind {A B : Type} (m : Prog A) (f : A -> Prog B) : Prog B :=
  fun o =>
    match m o with
    | (Ok a, o') => f a o'
    | (Err e, o') => (Err e, o')
    end.

Notation "x <-- m ;; k" := (pbind m (fun x => k))
  (at level 61, m at next level, right associativity).
Notation "m >> k" := (pbind m (fun _ => k))
  (at level 61, right associativity).

(** The clauses of a [try] statement: the first clause that catches
    the exception handles it. *)
Fixpoint handle {A : Type}
         (handlers : list (list exc_class * (exn -> Prog A))) (e : exn)
  : Prog A :=
  match handlers with
  | [] => raise e
  | (classes, handler) :: rest =>
      if caught_by e classes then handler e else handle rest e
  end.

Definition try_except {A : Type} (body : Prog A)
           (handlers : list (list exc_class * (exn -> Prog A))) : Prog A :=
  fun o =>
    match body o with
    | (Err e, o') => handle handlers e o'
    | r => r
    end.

(** [try: body finally: final]: the final block runs whatever the body
    did; what it raises replaces the outcome of the body. *)
Definition try_finally {A : Type} (body : Prog A) (final : Prog unit)
  : Prog A :=
  fun o =>
    let (r, o1) := body o in
    match final o1 with
    | (Ok _, o2) => (r, o2)
    | (Err e, o2) => (Err e, o2)
    end.

(** A computation on the session state, inside the object. *)
Definition lift {A : Type} (m : M A) : Prog A :=
  fun o =>
    let (a, s) := m (session o) in
    (Ok a, mkObject (attributes o) s (_connection o) (db_trace o)
             (text_files o) (data_files o) (opens o) (slept o)).

Definition set_connection (c : bool) : Prog unit :=
  fun o =>
    (Ok tt, mkObject (attributes o) (session o) c (db_trace o)
              (text_files o) (data_files o) (opens o) (slept o)).

(** [time.sleep(seconds)]. *)
Definition sleep (seconds : nat) : Prog unit :=
  fun o =>
    (Ok tt, mkObject (attributes o) (session o) (_connection o) (db_trace o)
              (text_files o) (data_files o) (opens o)
              (slept o ++ [seconds])).

(** [df.empty]: no row or no column. *)
Definition df_empty (df : DataFrame) : bool :=
  match rows df, columns df with
  | [], _ => true
  | _, [] => true
  | _, _ => false
  end.

(** [pd.DataFrame.from_records(rows, columns=columns)]. *)
Definition from_records (records : list (list value)) (cols : list string)
  : DataFrame :=
  mkDataFrame cols (map (fun record => combine cols record) records).

(** The failed statements of a script: index, statement, error text. *)
Definition failure : Type := nat * string * string.

(** How the loop over the statements of a script ends: at the end of
    the list, or by a [return]. *)
Inductive loop_end : Type :=
| Completed (executed failed : nat) (failed_statements : list failure)
| Return (result : string).

(** How the [try] statement around one statement ends. *)
Inductive step_end : Type :=
| StepExecuted
| StepFailed (error : string)
| StepReturn (result : string).

(** [\w] on an ASCII character. *)
Definition is_word (c : ascii) : bool :=
  let n := N_of_ascii c in
  is_digit c
  || (N.leb 65 n && N.leb n 90)%N
  || (N.leb 97 n && N.leb n 122)%N
  || N.eqb n 95.

(** A match of [\bDATE\s+YYYY-MM-DD\b] at the head of [s], knowing
    whether the character before [s] is a word character: the text after
    the match.  [\s+] takes all the white space there is, since the next
    character of the pattern is not white space. *)
Definition match_date (after_word : bool) (s : string) : option string :=
  if after_word then None
  else
    match drop_prefix "DATE" s with
    | Some (String c r) =>
        if py_isspace c then
          match drop_prefix "YYYY-MM-DD" (skip_spaces r) with
          | Some rest =>
              match rest with
              | String d _ => if is_word d then None else Some rest
              | EmptyString => Some rest
              end
          | None => None
          end
        else None
    | _ => None
    end.

(** [re.sub(r"\bDATE\s+YYYY-MM-DD\b", repl, s)] for a replacement text
    without escapes: the matches are replaced from left to right.  The
    fuel is the length of [s] plus one. *)
Fixpoint sub_date (fuel : nat) (repl : string) (after_word : bool)
         (s : string) : string :=
  match fuel with
  | O => s
  | S fuel' =>
      match match_date after_word s with
      | Some rest => repl ++ sub_date fuel' repl true rest
      | None =>
          match s with
          | EmptyString => EmptyString
          | String c r => String c (sub_date fuel' repl (is_word c) r)
          end
      end
  end.

(** [re.sub(old, new, s)] for a pattern [old] without special
    characters and a replacement text without escapes. *)
Fixpoint replace_all (fuel : nat) (old new s : string) : string :=
  match fuel with
  | O => s
  | S fuel' =>
      match s with
      | EmptyString => EmptyString
      | String c r =>
          match drop_prefix old s with
          | Some rest => new ++ replace_all fuel' old new rest
          | None => String c (replace_all fuel' old new r)
          end
      end
  end.

(** The SQL text of the calls that executed a statement. *)
Fixpoint executed_sql (calls : list db_call) : list string :=
  match calls with
  | [] => []
  | Execute sql :: t => sql :: executed_sql t
  | _ :: t => executed_sql t
  end.

(** The lines of a log file. *)
Definition log_lines (entries : list string) : string :=
  String.concat "" (map (fun log_entry => (log_entry ++ nl)%string) entries).

Section Program.
(** The platform: [strftime], [os.path.join], the text of the exception
    a failed [to_excel] or [to_parquet] raises, the driver, the file
    system, [sqlparse], the text of a rounded duration and what
    [re.sub] makes of a replacement text that holds a backslash. *)
Variable strftime : string -> nat -> string.
Variable path_join : string -> string -> string.
Variable exc_text : string.
Variable driver : list db_call -> db_call -> db_reply.
Variable open_fails : nat -> string -> option exn.
Variable script_file_at : string -> file_read.
Variable sqlparse_format : string -> string.
Variable sqlparse_split : string -> list string.
Variable elapsed_text : nat -> nat -> string.
Variable re_template : string -> res string.

(** [self._logger(message)]. *)
Definition logger (message : string) : Prog unit :=
  lift (_logger strftime message "INFO").

(** [print(line)]. *)
Definition console (line : string) : Prog unit :=
  lift (print (Print line)).

(** [time.time()]: reads the clock, which moves on. *)
Definition time_time : Prog nat :=
  lift (fun s => (clock s,
                  mkState (_customer_number s) (_xlsx_path s) (_logs s)
                    (S (clock s)) (stdout s) (files s) (disk_fails s))).

(** [str(path)]. *)
Definition path_str (p : Path) : string :=
  path_join (path_parent p) (path_name p).

(** One call on the driver: it is recorded, and returns or raises. *)
Definition db_do (c : db_call) : Prog db_reply :=
  fun o =>
    let reply := driver (db_trace o) c in
    let o' := mkObject (attributes o) (session o) (_connection o)
                (db_trace o ++ [c]) (text_files o) (data_files o)
                (opens o) (slept o) in
    match reply with
    | Fails e => (Err e, o')
    | _ => (Ok reply, o')
    end.

(** [with open(path, "a") as f: f.write(text)]: the text is appended,
    or the attempt raises and nothing is written. *)
Definition append_text (path text : string) : Prog unit :=
  fun o =>
    match open_fails (opens o) path with
    | Some e =>
        (Err e, mkObject (attributes o) (session o) (_connection o)
                  (db_trace o) (text_files o) (data_files o)
                  (S (opens o)) (slept o))
    | None =>
        (Ok tt, mkObject (attributes o) (session o) (_connection o)
                  (db_trace o) (text_files o ++ [(path, text)])
                  (data_files o) (S (opens o)) (slept o))
    end.

(** [df.to_parquet(path, ...)] and [df.to_excel(path, index=False)] on
    a frame: the file is written, or the call raises. *)
Definition write_frame (path : string) (df : DataFrame) : Prog unit :=
  fun o =>
    if disk_fails (session o) then (Err (mkExn OSError exc_text), o)
    else
      (Ok tt, mkObject (attributes o) (session o) (_connection o)
                (db_trace o) (text_files o) (data_files o ++ [(path, df)])
                (opens o) (slept o)).

(** The loop of [_write_logs] (lines 92-106), from attempt number
    [attempt] on, [remaining] attempts being left. *)
Fixpoint write_attempts (log_file_path : string) (max_attempts retry_delay : nat)
         (remaining attempt : nat) : Prog unit :=
  match remaining with
  | O => pret tt
  | S remaining' =>
      fun o =>
        match append_text log_file_path
                (log_lines (last_n 500 (_logs (session o)))) o with
        | (Ok _, o1) => logger "Logs written successfully." o1
        | (Err e, o1) =>
            if caught_by e [PermissionError; OSError] then
              (logger ("Attempt " ++ str_nat attempt ++ "/"
                         ++ str_nat max_attempts
                         ++ ": Failed to write logs: " ++ exn_text e) >>
               (if Nat.ltb attempt max_attempts then sleep retry_delay
                else
                  console "CRITICAL: Could not write logs. Dumping to console:" >>
                  (fun o2 =>
                     lift (for_each (last_n 100 (_logs (session o2)))
                                    (fun log_entry => print (Print log_entry)))
                          o2)) >>
               write_attempts log_file_path max_attempts retry_delay
                              remaining' (S attempt)) o1
            else (Err e, o1)
        end
  end.

(** [_write_logs] (lines 84-106). *)
Definition _write_logs (max_attempts retry_delay : nat) : Prog unit :=
  fun o =>
    (stamp <-- lift (_get_date_str strftime "%Y%m%d%H%M%S") ;;
     let log_filename :=
       ("I-O-I_" ++ _customer_number (session o) ++ "_" ++ stamp
          ++ "_I-O-I.log")%string in
     let log_file_path := path_join (_log_path (attributes o)) log_filename in
     logger ("Logs stored at: " ++ log_file_path) >>
     write_attempts log_file_path max_attempts retry_delay max_attempts 1) o.

(** [_open_connection] (lines 124-159).  Both [except] clauses log and
    fall through to [return False]. *)
Definition _open_connection : Prog bool :=
  fun o =>
    let a := attributes o in
    let target :=
      if String.eqb (_db_type a) "TERA"
      then ("Teradata DSN: " ++ _dsn_name a)%string
      else ("SQL Server: " ++ _server a)%string in
    if _connection o then
      (logger "WARNING: Connection already open." >> pret true) o
    else
      try_except
        ((if String.eqb (_db_type a) "TERA" then
            logger ("Opening Teradata DSN: " ++ _dsn_name a ++ "...") >>
            db_do (Connect ("DSN=" ++ _dsn_name a)) >>
            set_connection true
          else
            logger ("Opening SQL Server: " ++ _server a ++ "...") >>
            db_do (Connect ("DRIVER={SQL Server};"
                              ++ "SERVER=" ++ _server a ++ ";"
                              ++ "DATABASE=" ++ _sql_db a ++ ";"
                              ++ "UID=" ++ _sql_user a ++ ";"
                              ++ "PWD=" ++ _sql_password a ++ ";")) >>
            set_connection true) >>
         logger "SUCCESS: DB connection opened." >>
         pret true)
        [ ([InterfaceError; DatabaseError; OperationalError; PyodbcError],
           fun e =>
             logger ("ERROR: Connection error for " ++ target ++ ": "
                       ++ exn_text e) >>
             pret false);
          ([Exception],
           fun e =>
             logger ("ERROR: Unexpected error for " ++ target ++ ": "
                       ++ exn_text e) >>
             pret false) ]
        o.

(** [_close_connection] (lines 161-178). *)
Definition _close_connection : Prog unit :=
  fun o =>
    if negb (_connection o) then
      logger "WARNING: No active connection to close." o
    else
      (try_except
         (db_do Commit >> logger "SUCCESS: Connection committed.")
         [ ([PyodbcError],
            fun e => logger ("WARNING: Commit failed: " ++ exn_text e)) ] >>
       try_finally
         (try_except
            (db_do Close >> logger "SUCCESS: Connection closed.")
            [ ([PyodbcError],
               fun e =>
                 logger ("ERROR: Close connection failed: " ++ exn_text e)) ])
         (logger "INFO: Connection reset to None." >> set_connection false))
        o.

(** [_exit_program] (lines 180-187). *)
Definition _exit_program : Prog unit :=
  logger "I-O-I SHUTTING DOWN THE PROGRAM" >>
  _write_logs 3 2 >>
  console "W8ing 10 sec before exit()" >>
  sleep 10 >>
  raise (mkExn SystemExit "Exiting the program...").

(** [_log_error] (lines 309-312). *)
Definition _log_error (message : string) : Prog string :=
  logger ("ERROR: " ++ message) >>
  pret ("ERROR: " ++ message)%string.

(** The text [_log_failed_statements] appends to its file. *)
Definition failed_statements_text (failed_statements : list failure)
           (script_path : Path) : string :=
  (nl ++ "========================" ++ nl
   ++ "Failed SQL Statements - " ++ path_name script_path ++ nl
   ++ String.concat ""
        (map (fun f : failure =>
                let '(index, statement, error) := f in
                (nl ++ "[Stmt " ++ str_nat index ++ "]: " ++ statement ++ nl
                 ++ "Error: " ++ error ++ nl)%string)
             failed_statements)
   ++ nl ++ "========================" ++ nl)%string.

(** [_log_failed_statements] (lines 291-307). *)
Definition _log_failed_statements (failed_statements : list failure)
           (script_path : Path) : Prog unit :=
  match failed_statements with
  | [] => pret tt
  | _ =>
      let log_file := path_join (path_parent script_path) "failed_statements.log" in
      try_except
        (append_text log_file
           (failed_statements_text failed_statements script_path) >>
         logger ("WARNING: " ++ str_nat (List.length failed_statements)
                   ++ " failed statements logged to " ++ log_file))
        [ ([Exception],
           fun e =>
             logger ("ERROR: Failed to write log file " ++ log_file ++ ": "
                       ++ exn_text e)) ]
  end.

(** [with self._connection.cursor() as cursor: body]. *)
Definition with_cursor {A : Type} (body : Prog A) : Prog A :=
  db_do Cursor >>
  (fun o =>
     match body o with
     | (Ok a, o1) =>
         match db_do (ExitCursor false) o1 with
         | (Ok _, o2) => (Ok a, o2)
         | (Err e, o2) => (Err e, o2)
         end
     | (Err e, o1) =>
         match db_do (ExitCursor true) o1 with
         | (Ok _, o2) => (Err e, o2)
         | (Err e', o2) => (Err e', o2)
         end
     end).

(** The [try] statement of the loop of [_execute_sql_statements]
    (lines 268-279), for one statement.  It ends with the statement
    executed, with the statement recorded as failed, or with the
    [return] of the second clause. *)
Definition try_statement (index : nat) (statement : string) : Prog step_end :=
  try_except
    (db_do (Execute statement) >>
     db_do Commit >>
     logger ("SUCCESS: [Stmt " ++ str_nat index ++ "] Executed: "
               ++ substring 0 50 statement ++ "...") >>
     pret StepExecuted)
    [ ([ProgrammingError; IntegrityError],
       fun err =>
         logger ("WARNING: [Stmt " ++ str_nat index ++ "] Error: "
                   ++ exn_text err) >>
         pret (StepFailed (exn_text err)));
      ([OperationalError; DatabaseError],
       fun err =>
         db_do Rollback >>
         result <-- _log_error ("FATAL: DB execution error: "
                                  ++ exn_text err) ;;
         pret (StepReturn result)) ].

(** The loop of [_execute_sql_statements] (lines 266-279) over the
    statements left, with the counters. *)
Fixpoint run_statements (statements : list string) (index executed failed : nat)
         (failed_statements : list failure) : Prog loop_end :=
  match statements with
  | [] => pret (Completed executed failed failed_statements)
  | statement :: rest =>
      logger ("DEBUG: Executing statement " ++ str_nat index ++ ": "
                ++ substring 0 50 statement ++ "...") >>
      step <-- try_statement index statement ;;
      match step with
      | StepExecuted =>
          run_statements rest (S index) (S executed) failed failed_statements
      | StepFailed error =>
          run_statements rest (S index) executed (S failed)
            (failed_statements ++ [(index, statement, error)])
      | StepReturn result => pret (Return result)
      end
  end.

(** [_execute_sql_statements] (lines 260-289).  Without a connection
    [self._connection.cursor()] raises [AttributeError]. *)
Definition _execute_sql_statements (sql_statements : list string)
           (script_path : Path) : Prog string :=
  try_except
    (fun o =>
       if negb (_connection o) then
         (Err (mkExn AttributeError
                 "'NoneType' object has no attribute 'cursor'"), o)
       else
         (ended <-- with_cursor (run_statements sql_statements 1 0 0 []) ;;
          match ended with
          | Return result => pret result
          | Completed executed failed failed_statements =>
              _log_failed_statements failed_statements script_path >>
              if Nat.eqb failed 0 then
                logger ("INFO: Executed " ++ str_nat executed
                          ++ " statements successfully.") >>
                pret ("SUCCESS: Executed " ++ str_nat executed
                        ++ " statements.")%string
              else
                _log_error ("Execution completed with " ++ str_nat failed
                              ++ " failed statements.")
          end) o)
    [ ([InterfaceError],
       fun e => _log_error ("DB connection issue: " ++ exn_text e));
      ([Exception],
       fun e => _log_error ("Unexpected error: " ++ exn_text e)) ].
(** The replacement text [re.sub] inserts for a template: the template
    itself when it holds no backslash. *)
Definition expand (template : string) : res string :=
  if contains "\" template then re_template template else Ok template.

(** [str(customer_number_val)] (lines 241-247): a string of digits goes
    through [int]. *)
Definition customer_number_text (o : Object) : string :=
  let customer_number := _customer_number (session o) in
  if customer_is_int (attributes o) then customer_number
  else if isdigit customer_number then
    match py_int customer_number with
    | Some n => py_str (VInt n)
    | None => customer_number
    end
  else customer_number.

(** [_replace_sql_parameters] (lines 232-258). *)
Definition _replace_sql_parameters (sql_script : string) : Prog string :=
  fun o =>
    match expand ("DATE '" ++ _file_generation_date (attributes o) ++ "'") with
    | Err e => (Err e, o)
    | Ok date_text =>
        let sql_script :=
          sub_date (S (String.length sql_script)) date_text false sql_script in
        match expand (customer_number_text o) with
        | Err e => (Err e, o)
        | Ok customer_text =>
            (Ok (replace_all (String.length sql_script) "__CUST_NUM__"
                   customer_text sql_script), o)
        end
    end.

(** [self._customer_number == text]: an integer equals no string. *)
Definition customer_is (o : Object) (text : string) : bool :=
  negb (customer_is_int (attributes o))
  && String.eqb (_customer_number (session o)) text.

(** [script_map.get(self._db_type)] (lines 194-202). *)
Definition script_map (o : Object) : option string :=
  if String.eqb (_db_type (attributes o)) "TERA" then
    Some (if customer_is o "ALL_CHECK"
          then "_create_volatile_tables_ALL.sql"
          else "_create_volatile_tables_WH.sql")
  else if String.eqb (_db_type (attributes o)) "SQL" then
    Some "_create_rand_tables_SQL.sql"
  else None.

(** [_create_tables] (lines 189-230). *)
Definition _create_tables : Prog string :=
  start_time <-- time_time ;;
  fun o =>
    match script_map o with
    | None => _log_error ("Invalid DB type: " ++ _db_type (attributes o)) o
    | Some script_file =>
        let script_path := mkPath (_scripts_path (attributes o)) script_file in
        let finish (result : string) : Prog string :=
          end_time <-- time_time ;;
          logger ("INFO: Execution time: "
                    ++ elapsed_text start_time end_time ++ " sec.") >>
          pret result in
        match script_file_at (path_str script_path) with
        | NoFile =>
            _log_error ("SQL script not found: " ++ path_str script_path) o
        | Unreadable e =>
            if caught_by e [OSError] then
              _log_error ("Failed to read SQL script " ++ path_str script_path
                            ++ ": " ++ exn_text e) o
            else (Err e, o)
        | FileText text =>
            let sql_script := strip text in
            if String.eqb (_db_type (attributes o)) "TERA" then
              (sql_script <-- _replace_sql_parameters sql_script ;;
               let sql_script_cleaned := strip (sqlparse_format sql_script) in
               let sql_statements :=
                 map strip
                     (filter (fun stmt => negb (String.eqb (strip stmt) ""))
                             (sqlparse_split sql_script_cleaned)) in
               match sql_statements with
               | [] =>
                   _log_error ("SQL script " ++ path_str script_path
                                 ++ " is empty or has only comments.")
               | _ =>
                   result <-- _execute_sql_statements sql_statements
                                script_path ;;
                   logger ("INFO: " ++ result) >>
                   logger "INFO: SQL script loaded and preprocessed." >>
                   finish result
               end) o
            else
              (logger "INFO: SQL branch execution not implemented." >>
               finish "SUCCESS: SQL branch execution not implemented.") o
        end
    end.

(** [_execute_final_sql] (lines 314-337). *)
Definition _execute_final_sql (final_table : string) : Prog DataFrame :=
  if negb (mem_str final_table ["#FINAL"]) then
    raise (mkExn ValueError ("Invalid table name: " ++ final_table))
  else
    let sql :=
      ("SELECT * FROM " ++ final_table
         ++ " ORDER BY DET_WH_CUST_NO, DET_ROW_NUM, ACC_WH_ACC_NO, ACC_REL_WH_ACC_NO;")%string in
    fun o =>
      if negb (_connection o) then
        (logger "ERROR: No active connection." >> pret empty_frame) o
      else
        try_except
          (with_cursor
             (logger ("SQL Execution: " ++ sql) >>
              db_do (Execute sql) >>
              db_do Commit >>
              fetched <-- db_do Fetchall ;;
              match fetched with
              | Records (record :: records) =>
                  described <-- db_do Description ;;
                  let cols :=
                    match described with Names names => names | _ => [] end in
                  logger ("SQL Execution SUCCESS: " ++ sql) >>
                  pret (from_records (record :: records) cols)
              | _ =>
                  logger ("No data in " ++ final_table ++ " table.") >>
                  pret empty_frame
              end))
          [ ([DatabaseError],
             fun e =>
               logger ("SQL Execution ERROR: " ++ exn_text e) >>
               pret empty_frame) ]
          o.

(** [_write_parquet] (lines 506-521). *)
Definition _write_parquet (df : DataFrame) : Prog unit :=
  try_except
    (if df_empty df then
       logger "WARNING: Empty DataFrame; skipping Parquet."
     else
       fun o =>
         (day <-- lift (_get_date_str strftime "%Y%m%d") ;;
          stamp <-- lift (_get_date_str strftime "%Y%m%d%H%M%S") ;;
          let output_name :=
            (_customer_number (session o) ++ "_" ++ "ERR_DATE_" ++ day ++ "_"
               ++ stamp ++ "_AM.parquet")%string in
          let output_path :=
            path_join (_parquets_path (attributes o)) output_name in
          write_frame output_path df >>
          logger ("Parquet stored at " ++ output_path)) o)
    [ ([Exception],
       fun e => logger ("CRITICAL in _write_parquet(): " ++ exn_text e)) ].

(** [_write_xlsx] (lines 523-554) on a frame that is not a [Styler]. *)
Definition _write_xlsx_frame (df : DataFrame) : Prog unit :=
  try_except
    (fun o =>
       (stamp <-- lift (_get_date_str strftime "%Y%m%d%H%M%S") ;;
        let output_name :=
          ("WH_CUST_NO_" ++ _customer_number (session o) ++ "_" ++ stamp
             ++ "_AM.xlsx")%string in
        stamp_diff <-- lift (_get_date_str strftime "%Y%m%d%H%M%S") ;;
        let output_path := path_join (_xlsx_path (session o)) output_name in
        if df_empty df then
          logger "WARNING: Empty DataFrame; skipping XLSX."
        else
          write_frame output_path df >>
          logger ("Excel file stored at " ++ output_path)) o)
    [ ([Exception],
       fun e => logger ("CRITICAL in _write_xlsx(): " ++ exn_text e)) ].

(** [self._comparator_two_sided_merge(df)] as a call: the [KeyError] of
    the model is raised. *)
Definition comparator (df : DataFrame) : Prog result :=
  fun o =>
    let (out, s) :=
      _comparator_two_sided_merge strftime path_join exc_text df (session o) in
    let o' := mkObject (attributes o) s (_connection o) (db_trace o)
                (text_files o) (data_files o) (opens o) (slept o) in
    match out with
    | Returned r => (Ok r, o')
    | Raised exc => (Err (mkExn KeyError exc), o')
    end.

(** [run] (lines 561-599).  [None] is the value of a call that ends
    without a [return]. *)
Definition run : Prog (option bool) :=
  try_finally
    (try_except
       (logger "...INITIALIZATION..." >>
        opened <-- _open_connection ;;
        if negb opened then
          logger "DB connection failed. Exiting." >> pret (Some false)
        else
          create_tables <-- _create_tables ;;
          if negb (contains "SUCCESS" create_tables) then
            logger "ERROR: FAILED to create temp tables." >> pret (Some false)
          else
            result_df <-- _execute_final_sql "#FINAL" ;;
            if negb (df_empty result_df) then
              fun o =>
                if String.eqb (_db_type (attributes o)) "TERA"
                   && customer_is o "ALL_CHECK" then
                  (_write_parquet result_df >>
                   comparator result_df >>
                   pret (Some true)) o
                else if String.eqb (_db_type (attributes o)) "TERA"
                        && ((negb (customer_is_int (attributes o))
                             && isdigit (_customer_number (session o)))
                            || customer_is_int (attributes o)) then
                  (_write_xlsx_frame result_df >>
                   comparator result_df >>
                   pret (Some true)) o
                else (Ok None, o)
            else
              logger "WARNING: Empty DataFrame;" >> pret (Some false))
       [ ([Exception],
          fun e =>
            logger ("ERROR in run(): " ++ exn_text e) >> pret (Some false)) ])
    (logger "Process completed." >>
     fun o =>
       if _connection o then (_close_connection >> _exit_program) o
       else (Ok tt, o)).
End Program.

(* ------------------------------------------------------------------ *)
(** ** Views used by the statements about the methods *)

(** The log buffer holds at most 1001 entries. *)
Definition logs_bounded (s : State) : Prop := List.length (_logs s) <= 1001.

(** A property of the session state and of the connection attribute. *)
Definition session_and_connection (J : State -> Prop) (C : bool -> Prop)
           (o : Object) : Prop :=
  J (session o) /\ C (_connection o).

(** A computation keeps a property of the state it runs in. *)
Definition keeps_state (J : State -> Prop) (A : Type) (m : M A) : Prop :=
  forall s, J s -> J (snd (m s)).

Definition keeps (I : Object -> Prop) (A : Type) (m : Prog A) : Prop :=
  forall o, I o -> I (snd (m o)).

(** The calls a method adds to the trace of the driver. *)
Definition new_calls (before after : Object) (calls : list db_call) : Prop :=
  db_trace after = db_trace before ++ calls.

(** The calls that execute and commit each statement of a list. *)
Definition execute_and_commit (statements : list string) : list db_call :=
  flat_map (fun statement => [Execute statement; Commit]) statements.

(** The object after more calls on the driver, with another session
    state. *)
Definition after_calls (o : Object) (calls : list db_call) (s : State)
  : Object :=
  mkObject (attributes o) s (_connection o) (db_trace o ++ calls)
           (text_files o) (data_files o) (opens o) (slept o).

(** A reply that raises. *)
Definition fails (reply : db_reply) : bool :=
  match reply with
  | Fails _ => true
  | _ => false
  end.

(** The driver accepts each call of a list in turn, after a trace. *)
Fixpoint accepts (driver : list db_call -> db_call -> db_reply)
         (trace calls : list db_call) : bool :=
  match calls with
  | [] => true
  | c :: rest =>
      negb (fails (driver trace c)) && accepts driver (trace ++ [c]) rest
  end.

(** The object with another session state. *)
Definition with_session (o : Object) (s : State) : Object :=
  mkObject (attributes o) s (_connection o) (db_trace o) (text_files o)
           (data_files o) (opens o) (slept o).

(** The state [_logger] leaves. *)
Definition logged (strftime : string -> nat -> string) (message : string)
           (s : State) : State :=
  snd (_logger strftime message "INFO" s).

(** The exception [_exit_program] raises. *)
Definition exiting : exn := mkExn SystemExit "Exiting the program...".

(* ------------------------------------------------------------------ *)
(** ** Sample objects and platforms *)

(** The time as [strftime] prints it: the format and the reading of the
    clock. *)
Definition sample_strftime (fmt : string) (t : nat) : string :=
  (fmt ++ "@" ++ str_nat t)%string.

(** The object of the example at the end of the source: customer
    number 428821167, an integer, on Teradata. *)
Definition sample_attributes : Attributes :=
  mkAttributes true "TERA" "2023-05-08" "KHD_LIVE" "DESKTOP-LSI1TPD"
               "AdventureWorks2022" "sa" "" "SQLs" "PARQUETs" "logs".

Definition sample_object : Object :=
  mkObject sample_attributes
           (mkState "428821167" "XLSXs" [] 0 [] [] false)
           false [] [] [] 0 [].

(** The same object with a connection. *)
Definition connected_object : Object :=
  mkObject sample_attributes
           (mkState "428821167" "XLSXs" [] 0 [] [] false)
           true [] [] [] 0 [].

(** A driver that refuses every connection, and one that accepts every
    call and returns no row. *)
Definition refusing_driver (trace : list db_call) (c : db_call) : db_reply :=
  match c with
  | Connect _ => Fails (mkExn OperationalError "connection refused")
  | _ => Done
  end.

Definition quiet_driver (trace : list db_call) (c : db_call) : db_reply :=
  Done.

(** A driver that has lost the database: commit and close raise. *)
Definition lost_driver (trace : list db_call) (c : db_call) : db_reply :=
  match c with
  | Commit => Fails (mkExn OperationalError "connection lost")
  | Close => Fails (mkExn PyodbcError "connection lost")
  | _ => Done
  end.

(** A driver whose cursor holds one record of two columns. *)
Definition serving_driver (trace : list db_call) (c : db_call) : db_reply :=
  match c with
  | Fetchall => Records [[VInt 428821167; VInt 1]]
  | Description => Names ["DET_WH_CUST_NO"; "DET_ROW_NUM"]
  | _ => Done
  end.

(** The sample object on SQL Server. *)
Definition sql_server_object : Object :=
  mkObject (mkAttributes true "SQL" "2023-05-08" "KHD_LIVE" "DESKTOP-LSI1TPD"
              "AdventureWorks2022" "sa" "" "SQLs" "PARQUETs" "logs")
           (mkState "428821167" "XLSXs" [] 0 [] [] false)
           false [] [] [] 0 [].

(** A disk on which every file opens, and one on which none does. *)
Definition disk_ok (n : nat) (path : string) : option exn := None.

Definition disk_full (n : nat) (path : string) : option exn :=
  Some (mkExn PermissionError "Permission denied").

(** A disk on which the first attempts to open a file are refused. *)
Definition disk_busy (failures : nat) (n : nat) (path : string) : option exn :=
  if Nat.ltb n failures then Some (mkExn PermissionError "Permission denied")
  else None.

(** No script file, and one script for every path. *)
Definition no_script (path : string) : file_read := NoFile.

Definition any_script (text : string) (path : string) : file_read :=
  FileText text.

Definition literal_template (template : string) : res string := Ok template.

Definition sample_elapsed (t0 t1 : nat) : string := str_nat (t1 - t0).

(** The failures recorded for the statements that a test singles out,
    numbered from [index] on, each with the text of its error. *)
Fixpoint failed_of (bad : string -> bool) (why : string -> string)
         (index : nat) (statements : list string) : list failure :=
  match statements with
  | [] => []
  | statement :: rest =>
      (if bad statement then [(index, statement, why statement)] else [])
      ++ failed_of bad why (S index) rest
  end.

(** A driver that raises [ProgrammingError] on the statements a test
    singles out and accepts every other call. *)
Definition picky_driver (bad : string -> bool) (why : string -> string)
           (trace : list db_call) (c : db_call) : db_reply :=
  match c with
  | Execute sql =>
      if bad sql then Fails (mkExn ProgrammingError (why sql)) else Done
  | _ => Done
  end.

(** A driver that loses the database on one statement. *)
Definition failing_driver (fatal : string) (trace : list db_call)
           (c : db_call) : db_reply :=
  match c with
  | Execute sql =>
      if String.eqb sql fatal
      then Fails (mkExn OperationalError "connection lost")
      else Done
  | _ => Done
  end.

(** The path of a sample script. *)
Definition sample_script : Path := mkPath "SQLs" "_create_volatile_tables_WH.sql".

(** The object after one more call on the driver. *)
Definition with_call (o : Object) (c : db_call) : Object :=
  mkObject (attributes o) (session o) (_connection o) (db_trace o ++ [c])
           (text_files o) (data_files o) (opens o) (slept o).

(** The result of a call on the driver. *)
Definition reply_result (reply : db_reply) : res db_reply :=
  match reply with
  | Fails e => Err e
  | _ => Ok reply
  end.

(* ================================================================== *)
(** * Properties *)

(* ------------------------------------------------------------------ *)
(** ** Dictionaries *)

Section DictFacts.
Variable V : Type.
Implicit Types (d : dict V) (k : string) (v : V).

Lemma dict_get_set_same d k v : dict_get (dict_set d k v) k = Some v.
Proof.
  induction d as [|[k' v'] t IH]; simpl.
  - now rewrite String.eqb_refl.
  - destruct (String.eqb k' k) eqn:E; simpl; rewrite E; auto.
Qed.

Lemma dict_get_set_other d k k' v :
  k <> k' -> dict_get (dict_set d k v) k' = dict_get d k'.
Proof.
  intros Hne. induction d as [|[k0 v0] t IH]; simpl.
  - destruct (String.eqb k k') eqn:E; auto.
    apply String.eqb_eq in E. contradiction.
  - destruct (String.eqb k0 k) eqn:E; simpl.
    + apply String.eqb_eq in E. subst k0.
      destruct (String.eqb k k') eqn:E'; auto.
      apply String.eqb_eq in E'. contradiction.
    + now rewrite IH.
Qed.

Lemma dict_mem_set d k k' v :
  dict_mem (dict_set d k v) k' = dict_mem d k' || String.eqb k k'.
Proof.
  unfold dict_mem. destruct (String.eqb k k') eqn:E.
  - apply String.eqb_eq in E. subst k'. rewrite dict_get_set_same.
    now rewrite orb_true_r.
  - apply String.eqb_neq in E. rewrite dict_get_set_other by assumption.
    now rewrite orb_false_r.
Qed.

Lemma dict_mem_keys d k : dict_mem d k = mem_str k (dict_keys d).
Proof.
  unfold dict_mem, mem_str, dict_keys.
  induction d as [|[k' v'] t IH]; simpl; auto.
  rewrite (String.eqb_sym k k').
  destruct (String.eqb k' k); simpl; auto.
Qed.

(** Assigning under a key the dictionary has keeps the keys; a new
    key is appended. *)
Lemma dict_keys_set d k v :
  dict_keys (dict_set d k v)
  = if dict_mem d k then dict_keys d else dict_keys d ++ [k].
Proof.
  unfold dict_mem, dict_keys.
  induction d as [|[k' v'] t IH]; simpl; auto.
  destruct (String.eqb k' k) eqn:E; simpl; auto.
  rewrite IH. destruct (dict_get t k); reflexivity.
Qed.

Lemma dict_keys_set_NoDup d k v :
  NoDup (dict_keys d) -> NoDup (dict_keys (dict_set d k v)).
Proof.
  intros H. rewrite dict_keys_set.
  destruct (dict_mem d k) eqn:E; auto.
  rewrite dict_mem_keys in E.
  apply NoDup_rev in H.
  rewrite <- (rev_involutive (dict_keys d ++ [k])).
  apply NoDup_rev. rewrite rev_app_distr. simpl.
  constructor; auto.
  intros Hin. apply in_rev in Hin.
  unfold mem_str in E.
  assert (existsb (String.eqb k) (dict_keys d) = true) as C.
  { apply existsb_exists. exists k. split; auto. apply String.eqb_refl. }
  congruence.
Qed.
End DictFacts.

Lemma mem_str_In s l : mem_str s l = true <-> In s l.
Proof.
  unfold mem_str. rewrite existsb_exists. split.
  - intros (x & Hin & E). apply String.eqb_eq in E. now subst.
  - intros H. exists s. split; auto. apply String.eqb_refl.
Qed.

Lemma get_set_same (d : dict value) k v : get (dict_set d k v) k = v.
Proof. unfold get. now rewrite dict_get_set_same. Qed.

Lemma get_set_other (d : dict value) k k' v :
  k <> k' -> get (dict_set d k v) k' = get d k'.
Proof. intros H. unfold get. now rewrite dict_get_set_other. Qed.

(* ------------------------------------------------------------------ *)
(** ** The comparison loop, column by column *)

Lemma compare_cell_missing_only_eq new_num group_max val_old val_new :
  (contains "##" (py_str val_old) || contains "##" (py_str val_new)) = true ->
  compare_cell new_num group_max val_old val_new
  = compare_cell_missing_only val_old val_new.
Proof.
  intros H. unfold compare_cell, compare_cell_missing_only.
  destruct (is_missing val_old && negb (is_missing val_new)); auto.
  destruct (is_missing val_new && negb (is_missing val_old)); auto.
  apply orb_true_iff in H. destruct H as [H|H]; rewrite H; simpl.
  - now rewrite andb_false_r.
  - now rewrite andb_false_r.
Qed.

Lemma is_missing_contains v : is_missing v = true -> contains "##" (py_str v) = true.
Proof.
  destruct v; simpl; try discriminate.
  intros H. apply String.eqb_eq in H. subst s. reflexivity.
Qed.

Lemma compare_step_spec new_num group_max (o n : dict value) c :
  let st := compare_step new_num group_max (o, n) c in
  (forall col, col <> c ->
     get (fst st) col = get o col /\ get (snd st) col = get n col)
  /\ (forall col, dict_mem (snd st) col = dict_mem n col)
  /\ (get (fst st) c, get (snd st) c)
     = if String.eqb c "DET_ROW_NUM" || negb (dict_mem n c)
       then (get o c, get n c)
       else compare_cell new_num group_max (get o c) (get n c).
Proof.
  unfold compare_step, compare_cell.
  destruct (String.eqb c "DET_ROW_NUM") eqn:Ed; simpl.
  { repeat split; auto. }
  destruct (dict_mem n c) eqn:Em; simpl.
  2:{ repeat split; auto. }
  assert (Hm : forall v col, dict_mem (dict_set n c v) col = dict_mem n col).
  { intros v col. rewrite dict_mem_set.
    destruct (String.eqb c col) eqn:E; [|now rewrite orb_false_r].
    apply String.eqb_eq in E. subst col. now rewrite Em. }
  destruct (is_missing (get o c) && negb (is_missing (get n c))); simpl.
  { repeat split; auto using get_set_other.
    now rewrite get_set_same. }
  destruct (is_missing (get n c) && negb (is_missing (get o c))); simpl.
  { repeat split; auto using get_set_other.
    now rewrite get_set_same. }
  destruct (py_ne (get o c) (get n c)
            && negb (contains "##" (py_str (get o c)))
            && negb (contains "##" (py_str (get n c)))); simpl.
  2:{ repeat split; auto. }
  destruct (py_ne new_num group_max); simpl.
  - repeat split; auto using get_set_other.
    now rewrite !get_set_same.
  - repeat split; auto using get_set_other.
    now rewrite get_set_same.
Qed.

Lemma compare_fold_spec new_num group_max ks :
  NoDup ks ->
  forall (o n : dict value) col,
    let st := fold_left (compare_step new_num group_max) ks (o, n) in
    (get (fst st) col, get (snd st) col)
    = if mem_str col ks && negb (String.eqb col "DET_ROW_NUM")
         && dict_mem n col
      then compare_cell new_num group_max (get o col) (get n col)
      else (get o col, get n col).
Proof.
  induction 1 as [|c t Hnin Hnd IH]; intros o n col.
  { reflexivity. }
  pose proof (compare_step_spec new_num group_max o n c) as (Hother & Hmem & Hsame).
  cbn [fold_left mem_str existsb].
  destruct (compare_step new_num group_max (o, n) c) as [o1 n1] eqn:Est.
  cbn [fst snd] in *. cbv zeta. rewrite IH. rewrite Hmem.
  fold (mem_str col t). rewrite (String.eqb_sym col c).
  destruct (String.eqb c col) eqn:Ecol.
  - apply String.eqb_eq in Ecol. subst col.
    assert (mem_str c t = false) as Ht.
    { destruct (mem_str c t) eqn:E; auto. apply mem_str_In in E. contradiction. }
    rewrite Ht. simpl. rewrite Hsame.
    destruct (String.eqb c "DET_ROW_NUM"); simpl; auto.
    destruct (dict_mem n c); reflexivity.
  - simpl. apply String.eqb_neq in Ecol.
    destruct (Hother col (not_eq_sym Ecol)) as [-> ->]. reflexivity.
Qed.

(** After the loop, a column holds on each side what the chain of
    tests leaves there. *)
Lemma compare_dicts_get new_num group_max (old_dict new_dict : dict value) col :
  NoDup (dict_keys old_dict) ->
  dict_mem old_dict col = true ->
  dict_mem new_dict col = true ->
  col <> "DET_ROW_NUM" ->
  let st := compare_dicts new_num group_max old_dict new_dict in
  (get (fst st) col, get (snd st) col)
  = compare_cell new_num group_max (get old_dict col) (get new_dict col).
Proof.
  intros Hnd Ho Hn Hne. unfold compare_dicts. simpl.
  rewrite (compare_fold_spec new_num group_max Hnd).
  rewrite <- dict_mem_keys, Ho, Hn.
  apply String.eqb_neq in Hne. rewrite Hne. reflexivity.
Qed.

(* ------------------------------------------------------------------ *)
(** ** Orders, sorting and distinct values *)

Section SortFacts.
Variable A : Type.
Variable leb : A -> A -> bool.
Hypothesis leb_total : forall x y, leb x y = true \/ leb y x = true.
Hypothesis leb_trans :
  forall x y z, leb x y = true -> leb y z = true -> leb x z = true.

Let le (x y : A) : Prop := leb x y = true.

Lemma insert_by_perm x l : Permutation (insert_by leb x l) (x :: l).
Proof.
  induction l as [|y t IH]; simpl; auto.
  destruct (leb x y); auto.
  rewrite IH. apply perm_swap.
Qed.

Lemma sort_by_perm l : Permutation (sort_by leb l) l.
Proof.
  induction l as [|x t IH]; simpl; auto.
  rewrite insert_by_perm. now constructor.
Qed.

Lemma insert_by_sorted x l :
  StronglySorted le l -> StronglySorted le (insert_by leb x l).
Proof.
  induction 1 as [|y t Hs IH Hall]; simpl.
  - repeat constructor.
  - destruct (leb x y) eqn:E.
    + constructor; [now constructor|].
      constructor; auto.
      eapply Forall_impl; [|exact Hall].
      intros z Hz. unfold le in *. eauto.
    + constructor; auto.
      assert (Hyx : le y x).
      { destruct (leb_total x y) as [H|H]; [congruence|exact H]. }
      eapply Permutation_Forall.
      * symmetry. apply insert_by_perm.
      * constructor; auto.
Qed.

Lemma sort_by_sorted l : StronglySorted le (sort_by leb l).
Proof.
  induction l as [|x t IH]; simpl.
  - constructor.
  - now apply insert_by_sorted.
Qed.

(** Two sorted arrangements of the same elements coincide when
    elements that tie in the order are equal. *)
Lemma sorted_perm_unique l1 :
  forall l2,
    StronglySorted le l1 -> StronglySorted le l2 ->
    Permutation l1 l2 ->
    (forall x y, In x l1 -> In y l1 -> le x y -> le y x -> x = y) ->
    l1 = l2.
Proof.
  induction l1 as [|a t1 IH]; intros l2 S1 S2 P Hties.
  - apply Permutation_nil in P. now subst.
  - destruct l2 as [|b t2].
    { apply Permutation_sym, Permutation_nil in P. discriminate. }
    inversion S1 as [|? ? S1' F1]; subst.
    inversion S2 as [|? ? S2' F2]; subst.
    assert (a = b) as ->.
    { assert (In b (a :: t1)) as Hb.
      { eapply Permutation_in; [symmetry; exact P|now left]. }
      assert (In a (b :: t2)) as Ha.
      { eapply Permutation_in; [exact P|now left]. }
      destruct Hb as [Hb|Hb]; auto.
      destruct Ha as [Ha|Ha]; auto.
      apply Hties; simpl; auto.
      - rewrite Forall_forall in F1. auto.
      - rewrite Forall_forall in F2. auto. }
    f_equal. apply IH; auto.
    + eapply Permutation_cons_inv; eauto.
    + intros x y Hx Hy. apply Hties; simpl; auto.
Qed.

Lemma sort_by_perm_eq l1 l2 :
  Permutation l1 l2 ->
  (forall x y, In x l1 -> In y l1 -> le x y -> le y x -> x = y) ->
  sort_by leb l1 = sort_by leb l2.
Proof.
  intros P H. apply sorted_perm_unique.
  - apply sort_by_sorted.
  - apply sort_by_sorted.
  - rewrite !sort_by_perm. exact P.
  - intros x y Hx Hy. apply H; eapply Permutation_in;
      try apply sort_by_perm; assumption.
Qed.

Lemma sort_by_length l : List.length (sort_by leb l) = List.length l.
Proof. apply Permutation_length, sort_by_perm. Qed.
End SortFacts.

Section LexFacts.
Variable A : Type.
Variable leb : A -> A -> bool.
Hypothesis leb_total : forall x y, leb x y = true \/ leb y x = true.
Hypothesis leb_trans :
  forall x y z, leb x y = true -> leb y z = true -> leb x z = true.

Lemma lex_leb_total l1 : forall l2,
  lex_leb leb l1 l2 = true \/ lex_leb leb l2 l1 = true.
Proof.
  induction l1 as [|x t1 IH]; intros [|y t2]; simpl; auto.
  destruct (leb x y) eqn:Exy, (leb y x) eqn:Eyx; auto.
  destruct (leb_total x y); congruence.
Qed.

Lemma lex_leb_trans l1 : forall l2 l3,
  lex_leb leb l1 l2 = true -> lex_leb leb l2 l3 = true ->
  lex_leb leb l1 l3 = true.
Proof.
  induction l1 as [|x t1 IH]; intros [|y t2] [|z t3]; simpl; auto;
    try discriminate.
  destruct (leb x y) eqn:Exy; try discriminate.
  destruct (leb y z) eqn:Eyz; try discriminate.
  rewrite (leb_trans Exy Eyz).
  destruct (leb y x) eqn:Eyx, (leb z y) eqn:Ezy; intros H1 H2.
  - destruct (leb z x); auto. eapply IH; eauto.
  - destruct (leb z x) eqn:Ezx; auto.
    rewrite (leb_trans Ezx Exy) in Ezy. discriminate.
  - destruct (leb z x) eqn:Ezx; auto.
    rewrite (leb_trans Eyz Ezx) in Eyx. discriminate.
  - destruct (leb z x) eqn:Ezx; auto.
    rewrite (leb_trans Eyz Ezx) in Eyx. discriminate.
Qed.

Hypothesis leb_antisym :
  forall x y, leb x y = true -> leb y x = true -> x = y.

Lemma lex_leb_antisym l1 : forall l2,
  lex_leb leb l1 l2 = true -> lex_leb leb l2 l1 = true -> l1 = l2.
Proof.
  induction l1 as [|x t1 IH]; intros [|y t2]; simpl; auto;
    try discriminate.
  destruct (leb x y) eqn:Exy, (leb y x) eqn:Eyx; try discriminate.
  intros H1 H2. f_equal; auto.
Qed.
End LexFacts.

Lemma ascii_leb_total x y : ascii_leb x y = true \/ ascii_leb y x = true.
Proof. unfold ascii_leb. rewrite !N.leb_le. lia. Qed.

Lemma ascii_leb_trans x y z :
  ascii_leb x y = true -> ascii_leb y z = true -> ascii_leb x z = true.
Proof. unfold ascii_leb. rewrite !N.leb_le. lia. Qed.

Lemma ascii_leb_antisym x y :
  ascii_leb x y = true -> ascii_leb y x = true -> x = y.
Proof.
  unfold ascii_leb. rewrite !N.leb_le. intros H1 H2.
  rewrite <- (ascii_N_embedding x), <- (ascii_N_embedding y).
  f_equal. lia.
Qed.

Lemma string_leb_antisym x y :
  string_leb x y = true -> string_leb y x = true -> x = y.
Proof.
  unfold string_leb. intros H1 H2.
  rewrite <- (string_of_list_ascii_of_string x),
          <- (string_of_list_ascii_of_string y).
  f_equal. eapply lex_leb_antisym; eauto using ascii_leb_antisym.
Qed.

Lemma value_leb_total x y : value_leb x y = true \/ value_leb y x = true.
Proof.
  destruct x, y; simpl; auto.
  - rewrite !Z.leb_le. lia.
  - apply lex_leb_total, ascii_leb_total.
Qed.

Lemma value_leb_trans x y z :
  value_leb x y = true -> value_leb y z = true -> value_leb x z = true.
Proof.
  destruct x, y, z; simpl; auto; try discriminate.
  - rewrite !Z.leb_le. lia.
  - unfold string_leb. apply lex_leb_trans. exact ascii_leb_trans.
Qed.

Lemma value_leb_antisym x y :
  value_leb x y = true -> value_leb y x = true -> x = y.
Proof.
  destruct x, y; simpl; auto; try discriminate.
  - rewrite !Z.leb_le. intros. f_equal. lia.
  - intros. f_equal. now apply string_leb_antisym.
Qed.

Lemma tuple_leb_total x y : tuple_leb x y = true \/ tuple_leb y x = true.
Proof. apply lex_leb_total, value_leb_total. Qed.

Lemma tuple_leb_trans x y z :
  tuple_leb x y = true -> tuple_leb y z = true -> tuple_leb x z = true.
Proof.
  unfold tuple_leb. apply lex_leb_trans. exact value_leb_trans.
Qed.

Lemma tuple_leb_antisym x y :
  tuple_leb x y = true -> tuple_leb y x = true -> x = y.
Proof. apply lex_leb_antisym, value_leb_antisym. Qed.

Lemma value_eqb_eq x y : value_eqb x y = true <-> x = y.
Proof.
  destruct x, y; simpl; split; intros H; try discriminate; auto.
  - apply Z.eqb_eq in H. now subst.
  - inversion H. apply Z.eqb_refl.
  - apply String.eqb_eq in H. now subst.
  - inversion H. apply String.eqb_refl.
Qed.

Section UniqueFacts.
Variable A : Type.
Variable eqb : A -> A -> bool.
Hypothesis eqb_eq : forall x y, eqb x y = true <-> x = y.

Lemma list_eqb_eq l1 : forall l2, list_eqb eqb l1 l2 = true <-> l1 = l2.
Proof.
  induction l1 as [|x t1 IH]; intros [|y t2]; simpl; split; intros H;
    try discriminate; auto.
  - apply andb_true_iff in H. destruct H as [H1 H2].
    apply eqb_eq in H1. apply IH in H2. now subst.
  - inversion H; subst. apply andb_true_iff. split.
    + now apply eqb_eq.
    + now apply IH.
Qed.

Lemma unique_In l x : In x (unique eqb l) <-> In x l.
Proof.
  induction l as [|y t IH]; simpl; [tauto|].
  rewrite filter_In, IH. split.
  - intros [H|[H _]]; auto.
  - intros [H|H]; auto.
    destruct (eqb y x) eqn:E.
    + left. now apply eqb_eq.
    + right. split; auto.
Qed.

Lemma unique_NoDup l : NoDup (unique eqb l).
Proof.
  induction l as [|y t IH]; simpl; constructor.
  - rewrite filter_In. intros [_ H].
    assert (eqb y y = true) as E by now apply eqb_eq.
    rewrite E in H. discriminate.
  - now apply NoDup_filter.
Qed.

Lemma unique_perm l1 l2 :
  Permutation l1 l2 -> Permutation (unique eqb l1) (unique eqb l2).
Proof.
  intros P. apply NoDup_Permutation; auto using unique_NoDup.
  intros x. rewrite !unique_In. split; apply Permutation_in; auto.
  now symmetry.
Qed.

(** A column holding one value has one distinct value. *)
Lemma unique_constant x l :
  l <> [] -> (forall y, In y l -> y = x) -> unique eqb l = [x].
Proof.
  induction l as [|y t IH]; intros Hne Hall; [congruence|].
  simpl. rewrite (Hall y (or_introl eq_refl)). f_equal.
  destruct t as [|z t']; [reflexivity|].
  rewrite IH; [|discriminate|intros; apply Hall; now right].
  simpl. assert (eqb x x = true) as -> by now apply eqb_eq.
  reflexivity.
Qed.
End UniqueFacts.

Lemma tuple_eqb_eq x y : tuple_eqb x y = true <-> x = y.
Proof. apply list_eqb_eq, value_eqb_eq. Qed.

(* ------------------------------------------------------------------ *)
(** ** Dictionaries built by a loop over the columns *)

Section FoldSet.
Variable V : Type.
Variable F : string -> V.

Let fold_set (cols : list string) (d0 : dict V) : dict V :=
  fold_left (fun d c => dict_set d c (F c)) cols d0.

Lemma fold_set_get cols : forall d0 k,
  dict_get (fold_set cols d0) k
  = if mem_str k cols then Some (F k) else dict_get d0 k.
Proof.
  induction cols as [|c t IH]; intros d0 k; simpl; auto.
  unfold fold_set in *. simpl. rewrite IH.
  fold (mem_str k t).
  destruct (mem_str k t) eqn:Et; simpl.
  - now rewrite orb_true_r.
  - rewrite orb_false_r. destruct (String.eqb k c) eqn:E.
    + apply String.eqb_eq in E. subst. apply dict_get_set_same.
    + apply String.eqb_neq in E. apply dict_get_set_other. congruence.
Qed.

Lemma fold_set_NoDup cols : forall d0,
  NoDup (dict_keys d0) -> NoDup (dict_keys (fold_set cols d0)).
Proof.
  induction cols as [|c t IH]; intros d0 H; simpl; auto.
  apply IH. now apply dict_keys_set_NoDup.
Qed.

Lemma fold_set_keys cols : forall d0,
  NoDup cols ->
  dict_keys (fold_set cols d0)
  = dict_keys d0 ++ filter (fun c => negb (mem_str c (dict_keys d0))) cols.
Proof.
  induction cols as [|c t IH]; intros d0 Hnd; simpl.
  { now rewrite app_nil_r. }
  inversion Hnd as [|? ? Hnin Hnd']; subst.
  unfold fold_set in *. simpl. rewrite IH by assumption.
  rewrite dict_keys_set, dict_mem_keys.
  destruct (mem_str c (dict_keys d0)) eqn:E; simpl.
  - reflexivity.
  - rewrite <- app_assoc. simpl. f_equal. f_equal.
    apply filter_ext_in. intros a Ha. f_equal.
    unfold mem_str. rewrite existsb_app. simpl.
    rewrite orb_false_r.
    destruct (String.eqb a c) eqn:Eac; [|now rewrite orb_false_r].
    apply String.eqb_eq in Eac. subst. contradiction.
Qed.
End FoldSet.

Lemma build_side_dict_unfold row sub_df suffix ref_num :
  build_side_dict row sub_df suffix ref_num
  = dict_set
      (fold_left (fun d c => dict_set d c (side_value row suffix c))
                 (columns sub_df) [])
      "DET_ROW_NUM" ref_num.
Proof.
  unfold build_side_dict. f_equal.
  generalize (@nil (string * value)).
  induction (columns sub_df) as [|c t IH]; intros d0; cbn [fold_left]; auto.
  rewrite IH. f_equal. unfold side_value. cbv zeta.
  destruct (mem_str c merge_key_cols); auto.
  destruct (dict_mem row (c ++ suffix) && notna (get row (c ++ suffix)));
    reflexivity.
Qed.

Lemma build_side_dict_NoDup row sub_df suffix ref_num :
  NoDup (dict_keys (build_side_dict row sub_df suffix ref_num)).
Proof.
  rewrite build_side_dict_unfold.
  apply dict_keys_set_NoDup, fold_set_NoDup. constructor.
Qed.

Lemma build_side_dict_get row sub_df suffix ref_num col :
  get (build_side_dict row sub_df suffix ref_num) col
  = if String.eqb col "DET_ROW_NUM" then ref_num
    else if mem_str col (columns sub_df) then side_value row suffix col
    else VNaN.
Proof.
  rewrite build_side_dict_unfold.
  destruct (String.eqb col "DET_ROW_NUM") eqn:E.
  - apply String.eqb_eq in E. subst. apply get_set_same.
  - apply String.eqb_neq in E. rewrite get_set_other by congruence.
    unfold get. rewrite fold_set_get.
    destruct (mem_str col (columns sub_df)); reflexivity.
Qed.

Lemma build_side_dict_mem row sub_df suffix ref_num col :
  dict_mem (build_side_dict row sub_df suffix ref_num) col
  = mem_str col (columns sub_df) || String.eqb col "DET_ROW_NUM".
Proof.
  rewrite build_side_dict_unfold, dict_mem_set.
  rewrite (String.eqb_sym "DET_ROW_NUM" col). f_equal.
  unfold dict_mem. rewrite fold_set_get.
  destruct (mem_str col (columns sub_df)); reflexivity.
Qed.

Lemma missing_dict_get sub_df ref_num col :
  get (missing_dict sub_df ref_num) col
  = if String.eqb col "DET_ROW_NUM" then ref_num
    else if mem_str col (columns sub_df) then VStr MISSING
    else VNaN.
Proof.
  unfold missing_dict.
  destruct (String.eqb col "DET_ROW_NUM") eqn:E.
  - apply String.eqb_eq in E. subst. apply get_set_same.
  - apply String.eqb_neq in E. rewrite get_set_other by congruence.
    unfold get. rewrite (fold_set_get (fun _ => VStr MISSING)).
    destruct (mem_str col (columns sub_df)); reflexivity.
Qed.

(** A ['both'] row goes through the comparison loop. *)
Lemma side_dicts_both sub_old sub_new old_num new_num group_max row :
  get row "_merge" = VStr "both" ->
  side_dicts sub_old sub_new old_num new_num group_max row
  = compare_dicts new_num group_max
      (build_side_dict row sub_old "_old" old_num)
      (build_side_dict row sub_new "_new" new_num).
Proof. intros H. unfold side_dicts. rewrite H. reflexivity. Qed.

Lemma side_dicts_both_cell sub_old sub_new old_num new_num group_max row col :
  get row "_merge" = VStr "both" ->
  let old_dict := build_side_dict row sub_old "_old" old_num in
  let new_dict := build_side_dict row sub_new "_new" new_num in
  let st := side_dicts sub_old sub_new old_num new_num group_max row in
  dict_mem old_dict col = true ->
  dict_mem new_dict col = true ->
  col <> "DET_ROW_NUM" ->
  (get (fst st) col, get (snd st) col)
  = compare_cell new_num group_max (get old_dict col) (get new_dict col).
Proof.
  intros Hb old_dict new_dict st Ho Hn Hne. subst st.
  rewrite side_dicts_both by assumption.
  apply compare_dicts_get; auto. apply build_side_dict_NoDup.
Qed.

(* ------------------------------------------------------------------ *)
(** ** The greatest version of a group *)

Lemma py_max_fold t : forall x,
  let m := fold_left (fun m y => if value_leb y m then m else y) t x in
  value_leb x m = true /\ (forall y, In y t -> value_leb y m = true).
Proof.
  induction t as [|a t IH]; intros x; simpl.
  - split; [|tauto]. destruct (value_leb_total x x); auto.
  - destruct (value_leb a x) eqn:E.
    + destruct (IH x) as [H1 H2]. split; auto.
      intros y [<-|Hy]; auto. eapply value_leb_trans; eauto.
    + destruct (IH a) as [H1 H2].
      assert (value_leb x a = true) as Hxa.
      { destruct (value_leb_total x a); congruence. }
      split; [eapply value_leb_trans; eauto|].
      intros y [<-|Hy]; auto.
Qed.

Lemma py_max_ge l x : In x l -> value_leb x (py_max l) = true.
Proof.
  destruct l as [|a t]; [contradiction|]. simpl.
  destruct (py_max_fold t a) as [H1 H2].
  intros [<-|H]; auto.
Qed.

Lemma unique_nums_In group_sorted v :
  In v (unique_nums group_sorted)
  <-> exists r, In r (rows group_sorted) /\ get r "DET_ROW_NUM" = v.
Proof.
  unfold unique_nums. split.
  - intros H. apply (Permutation_in _ (sort_by_perm value_leb _)) in H.
    apply (proj1 (@unique_In _ _ value_eqb_eq _ _)) in H.
    apply in_map_iff in H.
    destruct H as (r & E & Hr). eauto.
  - intros (r & Hr & E).
    apply (Permutation_in _ (Permutation_sym (sort_by_perm value_leb _))).
    apply (proj2 (@unique_In _ _ value_eqb_eq _ _)).
    apply in_map_iff. eauto.
Qed.

(** Closing a side condition on concrete data by evaluation. *)
Ltac by_eval := vm_compute; first [reflexivity | discriminate | tauto].

(* ------------------------------------------------------------------ *)
(** ** Field-level classification *)



(** The same scenario through the whole method. *)
Example scenario_D_result :
  column_of (reconcile scenario_D) "AMOUNT"
  = [CVal (VStr "**100**"); CVal (VInt 200)].
Proof. vm_compute. reflexivity. Qed.

(** C5. In a ['both'] row, for every column the two sides share:
    an old cell equal to the missing marker against a new cell that is
    not gets the new cell wrapped as changed; symmetrically the old
    cell is wrapped when only the new one is the missing marker; and
    when neither of these two cases applies, cells that are equal, or
    one of which bears the ["##"] of a missing marker, are both left
    as they are. *)
Theorem missing_marker_rules :
  forall (sub_old sub_new : DataFrame) (old_num new_num group_max : value)
         (row : Series) (col : string),
    let old_dict := build_side_dict row sub_old "_old" old_num in
    let new_dict := build_side_dict row sub_new "_new" new_num in
    let st := side_dicts sub_old sub_new old_num new_num group_max row in
    let val_old := get old_dict col in
    let val_new := get new_dict col in
    get row "_merge" = VStr "both" ->
    dict_mem old_dict col = true ->
    dict_mem new_dict col = true ->
    col <> "DET_ROW_NUM" ->
    (is_missing val_old = true -> is_missing val_new = false ->
       get (fst st) col = val_old /\ get (snd st) col = mark val_new)
    /\ (is_missing val_new = true -> is_missing val_old = false ->
          get (fst st) col = mark val_old /\ get (snd st) col = val_new)
    /\ (is_missing val_old = is_missing val_new ->
        py_ne val_old val_new = false
        \/ contains "##" (py_str val_old) = true
        \/ contains "##" (py_str val_new) = true ->
        get (fst st) col = val_old /\ get (snd st) col = val_new).
Proof.
  intros sub_old sub_new old_num new_num group_max row col old_dict new_dict
         st val_old val_new Hb Ho Hn Hne.
  pose proof (side_dicts_both_cell sub_old sub_new old_num new_num group_max
                row Hb Ho Hn Hne) as H.
  fold old_dict new_dict st val_old val_new in H.
  unfold compare_cell in H.
  repeat split.
  - rewrite H0, H1 in H. simpl in H. now inversion H.
  - rewrite H0, H1 in H. simpl in H. now inversion H.
  - rewrite H0, H1 in H. simpl in H. now inversion H.
  - rewrite H0, H1 in H. simpl in H. now inversion H.
  - rewrite H0 in H. destruct (is_missing val_new); simpl in H;
      destruct H1 as [E|[E|E]]; rewrite E in H; simpl in H;
      rewrite ?andb_false_r in H; now inversion H.
  - rewrite H0 in H. destruct (is_missing val_new); simpl in H;
      destruct H1 as [E|[E|E]]; rewrite E in H; simpl in H;
      rewrite ?andb_false_r in H; now inversion H.
Qed.

(** C9. In a ['both'] row, when the string form of either cell of a
    column contains ["##"], the both-present-and-unequal marking is
    skipped: only the two missing-marker tests act, and two cells that
    are not the missing marker itself stay unwrapped even though they
    differ. *)
Theorem double_hash_skips_changed_marking :
  forall (sub_old sub_new : DataFrame) (old_num new_num group_max : value)
         (row : Series) (col : string),
    let old_dict := build_side_dict row sub_old "_old" old_num in
    let new_dict := build_side_dict row sub_new "_new" new_num in
    let st := side_dicts sub_old sub_new old_num new_num group_max row in
    let val_old := get old_dict col in
    let val_new := get new_dict col in
    get row "_merge" = VStr "both" ->
    dict_mem old_dict col = true ->
    dict_mem new_dict col = true ->
    col <> "DET_ROW_NUM" ->
    contains "##" (py_str val_old) = true
    \/ contains "##" (py_str val_new) = true ->
    (get (fst st) col, get (snd st) col)
    = compare_cell_missing_only val_old val_new
    /\ (is_missing val_old = false -> is_missing val_new = false ->
        get (fst st) col = val_old /\ get (snd st) col = val_new).
Proof.
  intros sub_old sub_new old_num new_num group_max row col old_dict new_dict
         st val_old val_new Hb Ho Hn Hne Hc.
  pose proof (side_dicts_both_cell sub_old sub_new old_num new_num group_max
                row Hb Ho Hn Hne) as H.
  fold old_dict new_dict st val_old val_new in H.
  rewrite compare_cell_missing_only_eq in H.
  2:{ apply orb_true_iff. exact Hc. }
  split; [exact H|].
  intros Mo Mn. unfold compare_cell_missing_only in H.
  rewrite Mo, Mn in H. simpl in H. now inversion H.
Qed.

(* ------------------------------------------------------------------ *)
(** ** Suffixed labels

    The labels of a merged row are the key columns, the other columns
    with ["_old"] or ["_new"] appended, and ["_merge"]; they are told
    apart by their last character. *)

Lemma list_ascii_app a b :
  list_ascii_of_string (a ++ b)
  = list_ascii_of_string a ++ list_ascii_of_string b.
Proof. induction a as [|c a IH]; simpl; congruence. Qed.

Lemma list_ascii_inj a b :
  list_ascii_of_string a = list_ascii_of_string b -> a = b.
Proof.
  intros H. rewrite <- (string_of_list_ascii_of_string a),
                    <- (string_of_list_ascii_of_string b).
  now f_equal.
Qed.

Lemma append_suffix_inj a b s : (a ++ s)%string = (b ++ s)%string -> a = b.
Proof.
  intros H. apply list_ascii_inj.
  apply (f_equal list_ascii_of_string) in H.
  rewrite !list_ascii_app in H. eapply app_inv_tail; eauto.
Qed.

Lemma ending_differs c s k s' k' x y :
  list_ascii_of_string s = s' ++ [x] ->
  list_ascii_of_string k = k' ++ [y] ->
  x <> y ->
  (c ++ s)%string <> k.
Proof.
  intros Hs Hk Hxy E. apply (f_equal list_ascii_of_string) in E.
  rewrite list_ascii_app, Hs, Hk, app_assoc in E.
  apply app_inj_tail in E. destruct E. contradiction.
Qed.

Lemma suffix_not_key c s :
  is_suffix s -> mem_str (c ++ s)%string merge_key_cols = false.
Proof.
  intros Hs. destruct (mem_str (c ++ s) merge_key_cols) eqn:E; auto.
  apply mem_str_In in E. exfalso.
  destruct Hs as [-> | ->]; simpl in E;
    destruct E as [E|[E|[E|[]]]]; symmetry in E; revert E;
    match goal with
    | |- (_ ++ ?s)%string = ?k -> False =>
        apply (@ending_differs c s k
                 (removelast (list_ascii_of_string s))
                 (removelast (list_ascii_of_string k))
                 (last (list_ascii_of_string s) " "%char)
                 (last (list_ascii_of_string k) " "%char));
        [reflexivity | reflexivity | discriminate]
    end.
Qed.

Lemma suffix_not_merge c s : is_suffix s -> (c ++ s)%string <> "_merge".
Proof.
  intros [-> | ->].
  - apply (@ending_differs c "_old" "_merge" ["_"; "o"; "l"]%char
             ["_"; "m"; "e"; "r"; "g"]%char "d"%char "e"%char);
      try reflexivity; discriminate.
  - apply (@ending_differs c "_new" "_merge" ["_"; "n"; "e"]%char
             ["_"; "m"; "e"; "r"; "g"]%char "w"%char "e"%char);
      try reflexivity; discriminate.
Qed.

Lemma old_new_differ a b : (a ++ "_old")%string <> (b ++ "_new")%string.
Proof.
  intros E. apply (f_equal list_ascii_of_string) in E.
  rewrite !list_ascii_app in E.
  change (list_ascii_of_string "_old") with (["_"; "o"; "l"] ++ ["d"])%char in E.
  change (list_ascii_of_string "_new") with (["_"; "n"; "e"] ++ ["w"])%char in E.
  rewrite !app_assoc in E. apply app_inj_tail in E.
  destruct E as [_ E]. discriminate.
Qed.

Arguments mem_str : simpl never.

Lemma mem_str_cons c c0 t :
  mem_str c (c0 :: t) = String.eqb c c0 || mem_str c t.
Proof. reflexivity. Qed.

Lemma dict_get_app (V : Type) (a b : dict V) k :
  dict_get (a ++ b) k
  = match dict_get a k with Some v => Some v | None => dict_get b k end.
Proof.
  induction a as [|[k' v'] t IH]; simpl; auto.
  destruct (String.eqb k' k); auto.
Qed.

Lemma mem_str_false_neq c k :
  mem_str c merge_key_cols = false -> mem_str k merge_key_cols = true ->
  String.eqb c k = false.
Proof.
  intros Hc Hk. apply String.eqb_neq. intros ->. congruence.
Qed.

Section Suffixed.
Variable s : string.
Hypothesis Hs : is_suffix s.

Lemma suffixed_get_key (l : Series) k :
  mem_str k merge_key_cols = true ->
  dict_get (suffixed s l) k = dict_get l k.
Proof.
  intros Hk. induction l as [|[c v] t IH]; simpl; auto.
  destruct (mem_str c merge_key_cols) eqn:Ec; simpl.
  - destruct (String.eqb c k); auto.
  - rewrite (mem_str_false_neq _ _ Ec Hk).
    destruct (String.eqb (c ++ s) k) eqn:E; auto.
    apply String.eqb_eq in E. subst k.
    rewrite (suffix_not_key c Hs) in Hk. discriminate.
Qed.

Lemma suffixed_get_col (l : Series) c :
  mem_str c merge_key_cols = false ->
  dict_get (suffixed s l) (c ++ s) = dict_get l c.
Proof.
  intros Hc. induction l as [|[c0 v] t IH]; simpl; auto.
  destruct (mem_str c0 merge_key_cols) eqn:Ec0; simpl.
  - rewrite (String.eqb_sym c0 c), (mem_str_false_neq _ _ Hc Ec0).
    destruct (String.eqb c0 (c ++ s)) eqn:E; auto.
    apply String.eqb_eq in E. subst c0.
    rewrite (suffix_not_key c Hs) in Ec0. discriminate.
  - destruct (String.eqb c0 c) eqn:E.
    + apply String.eqb_eq in E. subst. now rewrite String.eqb_refl.
    + destruct (String.eqb (c0 ++ s) (c ++ s)) eqn:E'; auto.
      apply String.eqb_eq, append_suffix_inj in E'. subst.
      rewrite String.eqb_refl in E. discriminate.
Qed.

Lemma suffixed_get_merge (l : Series) :
  dict_get (suffixed s l) "_merge" = None.
Proof.
  induction l as [|[c v] t IH]; simpl; auto.
  destruct (mem_str c merge_key_cols) eqn:Ec; simpl.
  - destruct (String.eqb c "_merge") eqn:E; auto.
    apply String.eqb_eq in E. subst. discriminate.
  - destruct (String.eqb (c ++ s) "_merge") eqn:E; auto.
    apply String.eqb_eq in E. now apply suffix_not_merge in E.
Qed.

Lemma null_side_get cols c :
  mem_str c merge_key_cols = false ->
  dict_get (null_side s cols) (c ++ s)
  = if mem_str c cols then Some VNaN else None.
Proof.
  intros Hc. unfold null_side.
  induction cols as [|c0 t IH]; auto.
  rewrite mem_str_cons. cbn [filter].
  destruct (mem_str c0 merge_key_cols) eqn:Ec0; cbn [negb map dict_get].
  - rewrite IH. destruct (String.eqb c c0) eqn:E; auto.
    apply String.eqb_eq in E. subst. congruence.
  - destruct (String.eqb c c0) eqn:E.
    + apply String.eqb_eq in E. subst. now rewrite String.eqb_refl.
    + destruct (String.eqb (c0 ++ s) (c ++ s)) eqn:E'; auto.
      apply String.eqb_eq, append_suffix_inj in E'. subst.
      rewrite String.eqb_refl in E. discriminate.
Qed.

Lemma null_side_get_other cols k :
  (forall c, k <> (c ++ s)%string) -> dict_get (null_side s cols) k = None.
Proof.
  intros Hk. unfold null_side.
  induction cols as [|c0 t IH]; auto. cbn [filter].
  destruct (mem_str c0 merge_key_cols); cbn [negb map dict_get]; auto.
  destruct (String.eqb (c0 ++ s) k) eqn:E; auto.
  apply String.eqb_eq in E. symmetry in E. now apply Hk in E.
Qed.
End Suffixed.

Lemma non_key_get (r : Series) c :
  mem_str c merge_key_cols = false -> dict_get (non_key r) c = dict_get r c.
Proof.
  intros Hc. unfold non_key. induction r as [|[c0 v] t IH]; simpl; auto.
  destruct (mem_str c0 merge_key_cols) eqn:E; simpl.
  - destruct (String.eqb c0 c) eqn:E'; auto.
    apply String.eqb_eq in E'. subst. congruence.
  - now rewrite IH.
Qed.

Lemma suffixed_old_get_new (l : Series) c :
  dict_get (suffixed "_old" l) (c ++ "_new") = None.
Proof.
  induction l as [|[c0 v] t IH]; simpl; auto.
  destruct (mem_str c0 merge_key_cols) eqn:Ec; simpl.
  - destruct (String.eqb c0 (c ++ "_new")) eqn:E; auto.
    apply String.eqb_eq in E. subst.
    rewrite suffix_not_key in Ec by (now right). discriminate.
  - destruct (String.eqb (c0 ++ "_old") (c ++ "_new")) eqn:E; auto.
    apply String.eqb_eq in E. now apply old_new_differ in E.
Qed.

(* ------------------------------------------------------------------ *)
(** ** Reading a merged row *)

Lemma merge_not_key : mem_str "_merge" merge_key_cols = false.
Proof. reflexivity. Qed.

Lemma left_only_row_status new_cols l :
  get (left_only_row new_cols l) "_merge" = VStr "left_only".
Proof.
  unfold get, left_only_row. rewrite !dict_get_app.
  rewrite suffixed_get_merge by (now left).
  rewrite null_side_get_other.
  - reflexivity.
  - intros c E. symmetry in E. revert E. apply suffix_not_merge. now right.
Qed.

Lemma left_only_row_key new_cols l k :
  mem_str k merge_key_cols = true ->
  get (left_only_row new_cols l) k = get l k.
Proof.
  intros Hk. unfold get, left_only_row. rewrite !dict_get_app.
  rewrite suffixed_get_key by (auto; now left).
  destruct (dict_get l k); auto.
  rewrite null_side_get_other.
  - cbn [dict_get]. destruct (String.eqb "_merge" k) eqn:E; auto.
    apply String.eqb_eq in E. subst. discriminate.
  - intros c ->. rewrite suffix_not_key in Hk by (now right). discriminate.
Qed.

Lemma left_only_row_old new_cols l c :
  mem_str c merge_key_cols = false ->
  dict_get (left_only_row new_cols l) (c ++ "_old") = dict_get l c.
Proof.
  intros Hc. unfold left_only_row. rewrite !dict_get_app.
  rewrite suffixed_get_col by (auto; now left).
  destruct (dict_get l c); auto.
  rewrite null_side_get_other.
  - cbn [dict_get]. destruct (String.eqb "_merge" (c ++ "_old")) eqn:E; auto.
    apply String.eqb_eq in E. symmetry in E.
    apply suffix_not_merge in E; [contradiction | now left].
  - intros c'. apply old_new_differ.
Qed.

Lemma right_only_head_get old_cols (r : Series) k :
  mem_str k merge_key_cols = true ->
  dict_get (map (fun c => if mem_str c merge_key_cols then (c, get r c)
                          else ((c ++ "_old")%string, VNaN)) old_cols) k
  = if mem_str k old_cols then Some (get r k) else None.
Proof.
  intros Hk. induction old_cols as [|c t IH]; auto.
  rewrite mem_str_cons. cbn [map].
  destruct (mem_str c merge_key_cols) eqn:Ec; cbn [dict_get].
  - rewrite (String.eqb_sym k c). destruct (String.eqb c k) eqn:E; auto.
    apply String.eqb_eq in E. now subst.
  - rewrite (String.eqb_sym k c), (mem_str_false_neq _ _ Ec Hk).
    destruct (String.eqb (c ++ "_old") k) eqn:E; auto.
    apply String.eqb_eq in E. subst.
    rewrite suffix_not_key in Hk by (now left). discriminate.
Qed.

Lemma right_only_head_get_other old_cols (r : Series) k :
  mem_str k merge_key_cols = false ->
  (forall c, k <> (c ++ "_old")%string) ->
  dict_get (map (fun c => if mem_str c merge_key_cols then (c, get r c)
                          else ((c ++ "_old")%string, VNaN)) old_cols) k
  = None.
Proof.
  intros Hk Hne. induction old_cols as [|c t IH]; auto.
  cbn [map]. destruct (mem_str c merge_key_cols) eqn:Ec; cbn [dict_get].
  - destruct (String.eqb c k) eqn:E; auto.
    apply String.eqb_eq in E. subst. congruence.
  - destruct (String.eqb (c ++ "_old") k) eqn:E; auto.
    apply String.eqb_eq in E. symmetry in E. now apply Hne in E.
Qed.

Lemma right_only_row_status old_cols r :
  get (right_only_row old_cols r) "_merge" = VStr "right_only".
Proof.
  unfold get, right_only_row. rewrite !dict_get_app.
  rewrite right_only_head_get_other.
  - rewrite suffixed_get_merge by (now right). reflexivity.
  - reflexivity.
  - intros c E. symmetry in E. revert E. apply suffix_not_merge. now left.
Qed.

Lemma non_key_get_key (r : Series) k :
  mem_str k merge_key_cols = true -> dict_get (non_key r) k = None.
Proof.
  intros Hk. unfold non_key. induction r as [|[c v] t IH]; auto.
  cbn [filter fst]. destruct (mem_str c merge_key_cols) eqn:Ec; cbn [negb]; auto.
  cbn [dict_get]. now rewrite (mem_str_false_neq _ _ Ec Hk).
Qed.

Lemma right_only_row_key old_cols r k :
  mem_str k merge_key_cols = true ->
  mem_str k old_cols = true ->
  get (right_only_row old_cols r) k = get r k.
Proof.
  intros Hk Hin. unfold get at 1, right_only_row. rewrite !dict_get_app.
  rewrite right_only_head_get by assumption. now rewrite Hin.
Qed.

Lemma right_only_row_new old_cols r c :
  mem_str c merge_key_cols = false ->
  dict_get (right_only_row old_cols r) (c ++ "_new") = dict_get r c.
Proof.
  intros Hc. unfold right_only_row. rewrite !dict_get_app.
  rewrite right_only_head_get_other.
  - rewrite suffixed_get_col by (auto; now right).
    rewrite non_key_get by assumption.
    destruct (dict_get r c); auto.
    cbn [dict_get]. destruct (String.eqb "_merge" (c ++ "_new")) eqn:E; auto.
    apply String.eqb_eq in E. symmetry in E.
    apply suffix_not_merge in E; [contradiction | now right].
  - apply suffix_not_key. now right.
  - intros c' E. symmetry in E. revert E. apply old_new_differ.
Qed.

(** What [build_side_dict] stores for a column of a one-sided row: the
    cell of the source row, or the missing marker for a null outside
    the join key. *)
Lemma side_value_source (row src : Series) suffix c :
  (mem_str c merge_key_cols = true -> get row c = get src c) ->
  (mem_str c merge_key_cols = false ->
   dict_get row (c ++ suffix) = dict_get src c) ->
  side_value row suffix c
  = if mem_str c merge_key_cols || notna (get src c) then get src c
    else VStr MISSING.
Proof.
  intros Hkey Hcol. unfold side_value.
  destruct (mem_str c merge_key_cols) eqn:Ec; cbn [orb].
  - now apply Hkey.
  - cbv zeta. unfold dict_mem, get. rewrite Hcol by reflexivity.
    destruct (dict_get src c) as [v|]; reflexivity.
Qed.

Lemma rows_with_key_In k df r :
  In r (rows_with_key k df) <-> In r (rows df) /\ merge_key r = k.
Proof.
  unfold rows_with_key. rewrite filter_In, tuple_eqb_eq. tauto.
Qed.

Lemma product_length (A B C : Type) (f : A -> B -> C) ls rs :
  List.length (flat_map (fun l => map (f l) rs) ls)
  = List.length ls * List.length rs.
Proof.
  induction ls as [|l t IH]; simpl; auto.
  now rewrite length_app, length_map, IH.
Qed.

(** The number of merged rows of one key. *)
Lemma merge_rows_of_key_length sub_old sub_new k :
  let m := List.length (rows_with_key k sub_old) in
  let n := List.length (rows_with_key k sub_new) in
  List.length (merge_rows_of_key sub_old sub_new k)
  = if Nat.eqb n 0 then m else if Nat.eqb m 0 then n else m * n.
Proof.
  unfold merge_rows_of_key.
  destruct (rows_with_key k sub_old) as [|l ls],
           (rows_with_key k sub_new) as [|r rs]; cbv zeta.
  - reflexivity.
  - now rewrite length_map.
  - now rewrite length_map.
  - rewrite (product_length both_row (l :: ls) (r :: rs)). reflexivity.
Qed.

Lemma merge_keys_spec sub_old sub_new :
  let keys :=
    sort_by tuple_leb
      (unique tuple_eqb (map merge_key (rows sub_old ++ rows sub_new))) in
  NoDup keys
  /\ forall k, In k keys <->
       exists r, (In r (rows sub_old) \/ In r (rows sub_new))
                 /\ merge_key r = k.
Proof.
  cbv zeta. split.
  - eapply Permutation_NoDup.
    + symmetry. apply sort_by_perm.
    + apply unique_NoDup, tuple_eqb_eq.
  - intros k. split.
    + intros H. apply (Permutation_in _ (sort_by_perm tuple_leb _)) in H.
      apply (proj1 (@unique_In _ _ tuple_eqb_eq _ _)) in H.
      apply in_map_iff in H. destruct H as (r & E & Hr).
      apply in_app_or in Hr. eauto.
    + intros (r & Hr & E).
      apply (Permutation_in _ (Permutation_sym (sort_by_perm tuple_leb _))).
      apply (proj2 (@unique_In _ _ tuple_eqb_eq _ _)).
      apply in_map_iff. exists r. split; auto. apply in_or_app. exact Hr.
Qed.

(* ------------------------------------------------------------------ *)
(** ** Row correspondence *)

Lemma merge_outer_In sub_old sub_new k row :
  (exists r, (In r (rows sub_old) \/ In r (rows sub_new)) /\ merge_key r = k) ->
  In row (merge_rows_of_key sub_old sub_new k) ->
  In row (merge_outer sub_old sub_new).
Proof.
  intros Hk Hrow. unfold merge_outer. apply in_flat_map.
  exists k. split; auto. now apply merge_keys_spec.
Qed.

Lemma side_dicts_left sub_old sub_new old_num new_num group_max row :
  get row "_merge" = VStr "left_only" ->
  side_dicts sub_old sub_new old_num new_num group_max row
  = (build_side_dict row sub_old "_old" old_num, missing_dict sub_new new_num).
Proof. intros H. unfold side_dicts. rewrite H. reflexivity. Qed.

Lemma side_dicts_right sub_old sub_new old_num new_num group_max row :
  get row "_merge" = VStr "right_only" ->
  side_dicts sub_old sub_new old_num new_num group_max row
  = (missing_dict sub_old old_num, build_side_dict row sub_new "_new" new_num).
Proof. intros H. unfold side_dicts. rewrite H. reflexivity. Qed.

Lemma left_only_dicts sub_old sub_new old_num new_num group_max l col :
  let row := left_only_row (columns sub_new) l in
  let st := side_dicts sub_old sub_new old_num new_num group_max row in
  mem_str col (columns sub_old) = true ->
  col <> "DET_ROW_NUM" ->
  get (fst st) col
  = if mem_str col merge_key_cols || notna (get l col) then get l col
    else VStr MISSING.
Proof.
  intros row st Hin Hne. subst st.
  rewrite side_dicts_left by apply left_only_row_status. cbn [fst].
  rewrite build_side_dict_get, Hin.
  apply String.eqb_neq in Hne. rewrite Hne.
  apply side_value_source.
  - intros Hk. now apply left_only_row_key.
  - intros Hc. now apply left_only_row_old.
Qed.

Lemma right_only_dicts sub_old sub_new old_num new_num group_max r col :
  let row := right_only_row (columns sub_old) r in
  let st := side_dicts sub_old sub_new old_num new_num group_max row in
  columns sub_old = columns sub_new ->
  mem_str col (columns sub_new) = true ->
  col <> "DET_ROW_NUM" ->
  get (snd st) col
  = if mem_str col merge_key_cols || notna (get r col) then get r col
    else VStr MISSING.
Proof.
  intros row st Hcols Hin Hne. subst st.
  rewrite side_dicts_right by apply right_only_row_status. cbn [snd].
  rewrite build_side_dict_get, Hin.
  apply String.eqb_neq in Hne. rewrite Hne.
  apply side_value_source.
  - intros Hk. apply right_only_row_key; auto. now rewrite Hcols.
  - intros Hc. now apply right_only_row_new.
Qed.


(* ------------------------------------------------------------------ *)
(** ** Groups and their versions *)

Lemma groupby_In by_cols df k g :
  In (k, g) (groupby by_cols df) ->
  columns g = columns df
  /\ rows g = filter (fun r => tuple_eqb (key_of by_cols r) k) (rows df)
  /\ forallb notna k = true
  /\ exists r, In r (rows g).
Proof.
  unfold groupby. intros H. apply in_map_iff in H.
  destruct H as (k' & E & Hk). inversion E; subst k' g. clear E.
  apply (Permutation_in _ (sort_by_perm tuple_leb _)) in Hk.
  apply (proj1 (@unique_In _ _ tuple_eqb_eq _ _)) in Hk.
  apply filter_In in Hk. destruct Hk as [Hk Hna].
  apply in_map_iff in Hk. destruct Hk as (r & E & Hr).
  repeat split; auto. exists r. simpl. apply filter_In. split; auto.
  now apply tuple_eqb_eq.
Qed.

(** The merge key is made of the second, third and fourth identity
    columns, so the rows of a group share it. *)
Lemma merge_key_of_identity r :
  merge_key r = firstn 3 (tl (key_of id_columns r)).
Proof. reflexivity. Qed.

Lemma group_rows_share_merge_key df k g r :
  In (k, g) (groupby id_columns df) ->
  In r (rows g) -> merge_key r = firstn 3 (tl k).
Proof.
  intros Hg Hr. apply groupby_In in Hg. destruct Hg as (_ & Hrows & _).
  rewrite Hrows in Hr. apply filter_In in Hr. destruct Hr as [_ E].
  apply tuple_eqb_eq in E. rewrite merge_key_of_identity. now rewrite E.
Qed.

Lemma filter_all (A : Type) (f : A -> bool) l :
  (forall x, In x l -> f x = true) -> filter f l = l.
Proof.
  induction l as [|a t IH]; intros H; simpl; auto.
  rewrite (H a (or_introl eq_refl)). f_equal. apply IH.
  intros x Hx. apply H. now right.
Qed.

(** When all rows of both subsets carry one merge key, the merge has
    that single block, made of all the rows of each side. *)
Lemma merge_outer_single_key sub_old sub_new mk :
  (forall r, In r (rows sub_old ++ rows sub_new) -> merge_key r = mk) ->
  rows sub_old ++ rows sub_new <> [] ->
  merge_outer sub_old sub_new = merge_rows_of_key sub_old sub_new mk
  /\ rows_with_key mk sub_old = rows sub_old
  /\ rows_with_key mk sub_new = rows sub_new.
Proof.
  intros Hall Hne. split; [|split].
  - unfold merge_outer.
    rewrite (@unique_constant _ _ tuple_eqb_eq mk).
    + simpl. apply app_nil_r.
    + intros E. apply map_eq_nil in E. contradiction.
    + intros y Hy. apply in_map_iff in Hy. destruct Hy as (r & <- & Hr).
      now apply Hall.
  - unfold rows_with_key. apply filter_all. intros r Hr.
    apply tuple_eqb_eq, Hall, in_or_app. now left.
  - unfold rows_with_key. apply filter_all. intros r Hr.
    apply tuple_eqb_eq, Hall, in_or_app. now right.
Qed.

Lemma process_pair_length group_keys group_sorted group_max old_num new_num :
  List.length (process_pair group_keys group_sorted group_max old_num new_num)
  = List.length
      (merge_outer (select_eq "DET_ROW_NUM" old_num group_sorted)
                   (select_eq "DET_ROW_NUM" new_num group_sorted)).
Proof. unfold process_pair. apply length_map. Qed.

Lemma process_pair_two_rows group_keys group_sorted group_max old_num new_num frame :
  In frame (process_pair group_keys group_sorted group_max old_num new_num) ->
  exists old_row new_row,
    frame = [old_row; new_row]
    /\ cell_get old_row "GROUP_KEYS" = CKeys group_keys
    /\ cell_get new_row "GROUP_KEYS" = CKeys group_keys.
Proof.
  unfold process_pair. intros H. apply in_map_iff in H.
  destruct H as (row & E & _).
  destruct (side_dicts _ _ _ _ _ row) as [o n]. subst frame.
  unfold df_diff. do 2 eexists. split; [reflexivity|].
  unfold cell_get. now rewrite !dict_get_set_same.
Qed.

Lemma py_ne_notna a v : notna v = true -> (py_ne a v = false <-> a = v).
Proof.
  intros Hv. destruct a, v; simpl in *; try discriminate;
    rewrite ?negb_false_iff; split; intros H; try discriminate;
    try (apply Z.eqb_eq in H; now subst);
    try (apply String.eqb_eq in H; now subst);
    try (inversion H; subst; first [apply Z.eqb_refl | apply String.eqb_refl]).
Qed.

Lemma select_eq_In col v df r :
  notna v = true ->
  (In r (rows (select_eq col v df)) <-> In r (rows df) /\ get r col = v).
Proof.
  intros Hv. unfold select_eq. simpl. rewrite filter_In, negb_true_iff.
  now rewrite py_ne_notna.
Qed.

Lemma version_pairs_combine nums : version_pairs nums = combine nums (tl nums).
Proof.
  induction nums as [|a [|b t] IH]; simpl; auto.
  f_equal. exact IH.
Qed.

Lemma version_pairs_length nums :
  List.length (version_pairs nums) = List.length nums - 1.
Proof.
  induction nums as [|a [|b t] IH]; simpl; auto.
  simpl in IH. rewrite IH. lia.
Qed.

Lemma version_pairs_In nums a b :
  In (a, b) (version_pairs nums) -> In a nums /\ In b nums.
Proof.
  rewrite version_pairs_combine. intros H. split.
  - apply in_combine_l in H. exact H.
  - apply in_combine_r in H. destruct nums; [contradiction|now right].
Qed.

Lemma sorted_NoDup_strict l :
  StronglySorted (fun x y => value_leb x y = true) l -> NoDup l ->
  StronglySorted value_lt l.
Proof.
  induction 1 as [|a t Hs IH Hall]; intros Hnd; constructor.
  - apply IH. now inversion Hnd.
  - inversion Hnd as [|? ? Hnin _]; subst.
    rewrite Forall_forall in *. intros x Hx. split; auto.
    intros ->. contradiction.
Qed.

Lemma unique_nums_strict group_sorted :
  StronglySorted value_lt (unique_nums group_sorted).
Proof.
  apply sorted_NoDup_strict.
  - apply sort_by_sorted; [exact value_leb_total | exact value_leb_trans].
  - eapply Permutation_NoDup.
    + symmetry. apply sort_by_perm.
    + apply unique_NoDup, value_eqb_eq.
Qed.

Lemma flat_map_length_sum (A B : Type) (f : A -> list B) l :
  List.length (flat_map f l) = list_sum (map (fun x => List.length (f x)) l).
Proof.
  induction l as [|a t IH]; simpl; auto.
  now rewrite length_app, IH.
Qed.

Lemma list_sum_ones (A : Type) (f : A -> nat) l :
  (forall x, In x l -> f x = 1) -> list_sum (map f l) = List.length l.
Proof.
  induction l as [|a t IH]; intros H; simpl; auto.
  rewrite (H a (or_introl eq_refl)), IH; auto.
  intros x Hx. apply H. now right.
Qed.

Lemma concat_length_two (A : Type) (l : list (list A)) :
  (forall x, In x l -> List.length x = 2) ->
  List.length (List.concat l) = 2 * List.length l.
Proof.
  induction l as [|a t IH]; intros H; simpl; auto.
  rewrite length_app, (H a (or_introl eq_refl)), IH.
  - lia.
  - intros x Hx. apply H. now right.
Qed.

Lemma sort_values_rows_In by_cols df r :
  In r (rows (sort_values by_cols df)) <-> In r (rows df).
Proof.
  unfold sort_values. simpl. split; apply Permutation_in.
  - apply sort_by_perm.
  - symmetry. apply sort_by_perm.
Qed.

(** The DiffPairs of one consecutive version pair of a group: every
    old row against every new row. *)
Lemma group_pair_length df k gd old_num new_num group_max :
  In (k, gd) (groupby id_columns df) ->
  (forall r, In r (rows gd) -> notna (get r "DET_ROW_NUM") = true) ->
  let group_sorted := sort_values ["DET_ROW_NUM"] gd in
  let count v :=
    List.length (rows (select_eq "DET_ROW_NUM" v group_sorted)) in
  In old_num (unique_nums group_sorted) ->
  In new_num (unique_nums group_sorted) ->
  List.length (process_pair k group_sorted group_max old_num new_num)
  = count old_num * count new_num.
Proof.
  intros Hg Hna gs count Ho Hn.
  rewrite process_pair_length.
  set (sub_old := select_eq "DET_ROW_NUM" old_num gs).
  set (sub_new := select_eq "DET_ROW_NUM" new_num gs).
  apply unique_nums_In in Ho. destruct Ho as (ro & Hro & Eo).
  apply unique_nums_In in Hn. destruct Hn as (rn & Hrn & En).
  assert (notna old_num = true) as Nao.
  { rewrite <- Eo. apply Hna. now apply sort_values_rows_In in Hro. }
  assert (notna new_num = true) as Nan.
  { rewrite <- En. apply Hna. now apply sort_values_rows_In in Hrn. }
  assert (In ro (rows sub_old)) as Hino by (apply select_eq_In; auto).
  assert (In rn (rows sub_new)) as Hinn by (apply select_eq_In; auto).
  destruct (@merge_outer_single_key sub_old sub_new (firstn 3 (tl k)))
    as (Hm & Hold & Hnew).
  - intros r Hr. eapply group_rows_share_merge_key; eauto.
    apply in_app_or in Hr.
    destruct Hr as [Hr|Hr]; apply select_eq_In in Hr; auto;
      destruct Hr as [Hr _]; now apply sort_values_rows_In in Hr.
  - intros E. apply app_eq_nil in E. destruct E as [E _].
    rewrite E in Hino. contradiction.
  - rewrite Hm, merge_rows_of_key_length. cbv zeta. rewrite Hold, Hnew.
    unfold count. fold sub_old sub_new.
    destruct (rows sub_old) as [|? ?]; [contradiction|].
    destruct (rows sub_new) as [|? ?]; [contradiction|].
    reflexivity.
Qed.

(** In a group the merge key never singles out a side: every merged
    row of a consecutive pair is a ['both'] row. *)
Lemma group_pair_all_both df k gd old_num new_num :
  In (k, gd) (groupby id_columns df) ->
  (forall r, In r (rows gd) -> notna (get r "DET_ROW_NUM") = true) ->
  let group_sorted := sort_values ["DET_ROW_NUM"] gd in
  let sub_old := select_eq "DET_ROW_NUM" old_num group_sorted in
  let sub_new := select_eq "DET_ROW_NUM" new_num group_sorted in
  In old_num (unique_nums group_sorted) ->
  In new_num (unique_nums group_sorted) ->
  merge_outer sub_old sub_new
  = flat_map (fun l => map (both_row l) (rows sub_new)) (rows sub_old).
Proof.
  intros Hg Hna gs sub_old sub_new Ho Hn.
  apply unique_nums_In in Ho. destruct Ho as (ro & Hro & Eo).
  apply unique_nums_In in Hn. destruct Hn as (rn & Hrn & En).
  assert (notna old_num = true) as Nao.
  { rewrite <- Eo. apply Hna. now apply sort_values_rows_In in Hro. }
  assert (notna new_num = true) as Nan.
  { rewrite <- En. apply Hna. now apply sort_values_rows_In in Hrn. }
  assert (In ro (rows sub_old)) as Hino by (apply select_eq_In; auto).
  assert (In rn (rows sub_new)) as Hinn by (apply select_eq_In; auto).
  destruct (@merge_outer_single_key sub_old sub_new (firstn 3 (tl k)))
    as (Hm & Hold & Hnew).
  - intros r Hr. eapply group_rows_share_merge_key; eauto.
    apply in_app_or in Hr.
    destruct Hr as [Hr|Hr]; apply select_eq_In in Hr; auto;
      destruct Hr as [Hr _]; now apply sort_values_rows_In in Hr.
  - intros E. apply app_eq_nil in E. destruct E as [E _].
    rewrite E in Hino. contradiction.
  - rewrite Hm. unfold merge_rows_of_key. rewrite Hold, Hnew.
    destruct (rows sub_old) as [|? ?]; [contradiction|].
    destruct (rows sub_new) as [|? ?]; [contradiction|].
    reflexivity.
Qed.

Lemma process_group_two_rows k gd frame :
  In frame (process_group (k, gd)) ->
  exists old_row new_row,
    frame = [old_row; new_row]
    /\ cell_get old_row "GROUP_KEYS" = CKeys k
    /\ cell_get new_row "GROUP_KEYS" = CKeys k.
Proof.
  unfold process_group. intros H. apply in_flat_map in H.
  destruct H as (p & _ & H). eapply process_pair_two_rows; eauto.
Qed.

(** C3. The versions of a group are taken in strictly increasing order
    and paired each with its successor: [k] distinct versions give the
    [k-1] pairs of neighbours, none when [k] is 0 or 1, in which case
    the group contributes nothing.  Each pair contributes one DiffPair
    per combination of an old row with a new row, all rows of a group
    sharing their merge key; so a group whose versions hold one row
    each contributes exactly [k-1] DiffPairs, that is [2(k-1)] rows. *)
Theorem consecutive_version_pairs :
  forall (df : DataFrame) (g : list value * DataFrame),
    In g (groupby id_columns df) ->
    (forall r, In r (rows (snd g)) -> notna (get r "DET_ROW_NUM") = true) ->
    let group_sorted := sort_values ["DET_ROW_NUM"] (snd g) in
    let nums := unique_nums group_sorted in
    let count v :=
      List.length (rows (select_eq "DET_ROW_NUM" v group_sorted)) in
    StronglySorted value_lt nums
    /\ version_pairs nums = combine nums (tl nums)
    /\ List.length (version_pairs nums) = List.length nums - 1
    /\ (List.length nums <= 1 -> process_group g = [])
    /\ List.length (process_group g)
       = list_sum (map (fun p => count (fst p) * count (snd p))
                       (version_pairs nums))
    /\ (forall frame, In frame (process_group g) -> List.length frame = 2)
    /\ ((forall v, In v nums -> count v = 1) ->
        List.length (process_group g) = List.length nums - 1
        /\ List.length (List.concat (process_group g))
           = 2 * (List.length nums - 1)).
Proof.
  intros df [k gd] Hg Hna gs nums count. cbn [snd] in *.
  assert (Hlen : List.length (process_group (k, gd))
                 = list_sum (map (fun p => count (fst p) * count (snd p))
                                 (version_pairs nums))).
  { unfold process_group. fold gs. fold nums.
    rewrite flat_map_length_sum. f_equal. apply map_ext_in.
    intros [a b] Hp. apply version_pairs_In in Hp. destruct Hp as [Ha Hb].
    cbn [fst snd]. eapply group_pair_length; eauto. }
  assert (Htwo : forall frame, In frame (process_group (k, gd)) ->
                               List.length frame = 2).
  { intros frame Hf. apply process_group_two_rows in Hf.
    destruct Hf as (o & n & -> & _). reflexivity. }
  repeat split.
  - apply unique_nums_strict.
  - apply version_pairs_combine.
  - apply version_pairs_length.
  - intros Hle. unfold process_group. fold gs. fold nums.
    destruct nums as [|a [|b t]]; simpl in *; auto. lia.
  - exact Hlen.
  - exact Htwo.
  - rewrite Hlen, list_sum_ones, version_pairs_length; auto.
    intros [a b] Hp. apply version_pairs_In in Hp. destruct Hp as [Ha Hb].
    cbn [fst snd]. rewrite (H a Ha), (H b Hb). reflexivity.
  - rewrite concat_length_two by exact Htwo.
    rewrite Hlen, list_sum_ones, version_pairs_length; auto.
    intros [a b] Hp. apply version_pairs_In in Hp. destruct Hp as [Ha Hb].
    cbn [fst snd]. rewrite (H a Ha), (H b Hb). reflexivity.
Qed.

(* ------------------------------------------------------------------ *)
(** ** The assembled table *)

Lemma align_get cols (row : out_row) c :
  dict_get (align cols row) c
  = if mem_str c cols then Some (cell_get row c) else None.
Proof.
  unfold align. induction cols as [|c0 t IH]; auto.
  rewrite mem_str_cons. cbn [map dict_get].
  rewrite (String.eqb_sym c c0). destruct (String.eqb c0 c) eqn:E; auto.
  apply String.eqb_eq in E. now subst.
Qed.

Lemma align_cell_get cols (row : out_row) c :
  mem_str c cols = true -> cell_get (align cols row) c = cell_get row c.
Proof. intros H. unfold cell_get at 1. now rewrite align_get, H. Qed.

Lemma align_keys cols (row : out_row) : dict_keys (align cols row) = cols.
Proof.
  unfold align, dict_keys. rewrite map_map. simpl. apply map_id.
Qed.

Lemma all_diffs_df_rows frames :
  let cols := out_columns (concat_frames frames) in
  let kept := out_columns (sort_clean (concat_frames frames)) in
  let new_order := out_columns (all_diffs_df frames) in
  out_rows (all_diffs_df frames)
  = map (fun r => align new_order (align kept r))
        (sort_by (fun r1 r2 =>
                    lex_leb num_leb (clean_key cols r1) (clean_key cols r2))
                 (map (align cols) (List.concat frames))).
Proof. cbv zeta. unfold all_diffs_df, reorder, sort_clean. simpl. apply map_map. Qed.

Lemma all_diffs_df_length frames :
  List.length (out_rows (all_diffs_df frames))
  = List.length (List.concat frames).
Proof.
  rewrite all_diffs_df_rows. cbv zeta.
  now rewrite length_map, sort_by_length, length_map.
Qed.

Lemma clean_label_differs c : "GROUP_KEYS" <> (c ++ "_clean")%string.
Proof.
  intros E. symmetry in E. revert E.
  apply (@ending_differs c "_clean" "GROUP_KEYS"
           (removelast (list_ascii_of_string "_clean"))
           (removelast (list_ascii_of_string "GROUP_KEYS"))
           "n"%char "S"%char); try reflexivity. discriminate.
Qed.

Lemma group_keys_not_clean cols :
  mem_str "GROUP_KEYS" (sort_cols_clean cols) = false.
Proof.
  destruct (mem_str "GROUP_KEYS" (sort_cols_clean cols)) eqn:E; auto.
  apply mem_str_In in E. unfold sort_cols_clean in E.
  apply in_map_iff in E. destruct E as (c & E & _).
  symmetry in E. now apply clean_label_differs in E.
Qed.

Lemma mem_str_filter c f l :
  mem_str c (filter f l) = mem_str c l && f c.
Proof.
  induction l as [|a t IH]; auto.
  cbn [filter]. destruct (f a) eqn:Ef.
  - rewrite !mem_str_cons, IH.
    destruct (String.eqb c a) eqn:E; auto.
    apply String.eqb_eq in E. subst. now rewrite Ef.
  - rewrite mem_str_cons, IH.
    destruct (String.eqb c a) eqn:E; auto.
    apply String.eqb_eq in E. subst. rewrite Ef.
    now rewrite andb_false_r.
Qed.

Lemma mem_str_app c l1 l2 : mem_str c (l1 ++ l2) = mem_str c l1 || mem_str c l2.
Proof. unfold mem_str. apply existsb_app. Qed.

(** A column outside the cleaned and the five leading columns keeps
    its cell from concatenation to the final table. *)
Lemma all_diffs_df_cell frames row :
  In row (out_rows (all_diffs_df frames)) ->
  exists row0,
    In row0 (List.concat frames)
    /\ (mem_str "GROUP_KEYS" (dict_keys row0) = true ->
        cell_get row "GROUP_KEYS" = cell_get row0 "GROUP_KEYS").
Proof.
  rewrite all_diffs_df_rows. cbv zeta. intros H.
  apply in_map_iff in H. destruct H as (r1 & <- & H).
  apply (Permutation_in _ (sort_by_perm _ _)) in H.
  apply in_map_iff in H. destruct H as (row0 & <- & H).
  exists row0. split; auto. intros Hk.
  assert (Hcols : mem_str "GROUP_KEYS" (out_columns (concat_frames frames))
                  = true).
  { apply mem_str_In. unfold concat_frames. cbn [out_columns].
    apply (proj2 (@unique_In _ _ String.eqb_eq _ _)).
    apply in_flat_map. exists row0. split; auto. now apply mem_str_In. }
  assert (Hkept : mem_str "GROUP_KEYS"
                    (out_columns (sort_clean (concat_frames frames))) = true).
  { unfold sort_clean. cbn [out_columns].
    rewrite mem_str_filter, Hcols, group_keys_not_clean. reflexivity. }
  rewrite !align_cell_get; auto.
  unfold all_diffs_df, reorder. cbn [out_columns].
  rewrite mem_str_app, mem_str_filter, Hkept. reflexivity.
Qed.

Lemma differences_list_In df frame :
  In frame (differences_list df) ->
  exists g old_row new_row,
    In g (groupby id_columns (sort_values sort_columns df))
    /\ frame = [old_row; new_row]
    /\ cell_get old_row "GROUP_KEYS" = CKeys (fst g)
    /\ cell_get new_row "GROUP_KEYS" = CKeys (fst g).
Proof.
  unfold differences_list. intros H. apply in_flat_map in H.
  destruct H as ([k gd] & Hg & H). apply process_group_two_rows in H.
  destruct H as (o & n & E & Ho & Hn). exists (k, gd), o, n. auto.
Qed.

Lemma cell_get_keys (row : out_row) c k :
  cell_get row c = CKeys k -> mem_str c (dict_keys row) = true.
Proof.
  unfold cell_get. rewrite <- dict_mem_keys. unfold dict_mem.
  destruct (dict_get row c); [reflexivity|discriminate].
Qed.

Lemma reconcile_styler df t :
  reconcile df = Returned (Styler t) ->
  differences_list df <> [] /\ t = all_diffs_df (differences_list df).
Proof.
  unfold reconcile.
  destruct (negb (has_columns sort_columns df)); [discriminate|].
  destruct (negb (has_columns id_columns df)); [discriminate|].
  destruct (differences_list df) eqn:E; [discriminate|].
  intros H. inversion H. split; [discriminate|reflexivity].
Qed.


(* ------------------------------------------------------------------ *)
(** ** The method and the state around it *)

Section MethodFacts.
Variable strftime : string -> nat -> string.
Variable path_join : string -> string -> string.
Variable exc_text : string.

Let method := _comparator_two_sided_merge strftime path_join exc_text.

Lemma bind_fst (A B : Type) (m : M A) (f : A -> M B) s :
  fst (bind m f s) = fst (f (fst (m s)) (snd (m s))).
Proof. unfold bind. destruct (m s). reflexivity. Qed.

(** The value returned does not depend on the state: it is
    [reconcile df]. *)
Lemma method_value df s : fst (method df s) = reconcile df.
Proof.
  unfold method, _comparator_two_sided_merge, reconcile, differences_list.
  rewrite !bind_fst.
  destruct (negb (has_columns sort_columns df)); [reflexivity|].
  destruct (negb (has_columns id_columns df)); [reflexivity|].
  rewrite bind_fst.
  destruct (flat_map process_group
              (groupby id_columns (sort_values sort_columns df))).
  - now rewrite bind_fst.
  - now rewrite !bind_fst.
Qed.

(** C8. Two invocations on the same table return the same result,
    rows in the same order, whatever the log buffer, the clock, the
    output and the files are when each one starts; in particular an
    invocation that follows another one, in the state the first one
    left, returns what the first one returned. *)
Theorem same_table_same_result :
  forall (df : DataFrame),
    (forall s1 s2 : State, fst (method df s1) = fst (method df s2))
    /\ (forall s : State,
          fst (method df (snd (method df s))) = fst (method df s)).
Proof.
  intros df. split; intros; now rewrite !method_value.
Qed.

Lemma differences_list_no_rows df : rows df = [] -> differences_list df = [].
Proof.
  intros H. unfold differences_list, groupby, sort_values. cbn [rows].
  rewrite H. reflexivity.
Qed.

Lemma has_columns_empty_frame cols :
  cols <> [] -> has_columns cols empty_frame = false.
Proof. destruct cols; [congruence|reflexivity]. Qed.

End MethodFacts.

(* ------------------------------------------------------------------ *)
(** ** Permuting the input rows *)

Lemma filter_perm (A : Type) (f : A -> bool) l l' :
  Permutation l l' -> Permutation (filter f l) (filter f l').
Proof.
  induction 1 as [|x l l' P IH|x y l|l l' l'' P1 IH1 P2 IH2]; simpl.
  - constructor.
  - destruct (f x); auto.
  - destruct (f x), (f y); auto. apply perm_swap.
  - etransitivity; eauto.
Qed.

Lemma filter_sorted (A : Type) (R : A -> A -> Prop) (f : A -> bool) l :
  StronglySorted R l -> StronglySorted R (filter f l).
Proof.
  induction 1 as [|a t Hs IH Hall]; simpl; [constructor|].
  destruct (f a); auto. constructor; auto.
  rewrite Forall_forall in *. intros x Hx.
  apply filter_In in Hx. destruct Hx. auto.
Qed.

Lemma rows_leb_total by_cols r1 r2 :
  rows_leb by_cols r1 r2 = true \/ rows_leb by_cols r2 r1 = true.
Proof. apply tuple_leb_total. Qed.

Lemma rows_leb_trans by_cols r1 r2 r3 :
  rows_leb by_cols r1 r2 = true -> rows_leb by_cols r2 r3 = true ->
  rows_leb by_cols r1 r3 = true.
Proof. apply tuple_leb_trans. Qed.

(** Rows that tie in the global sort have the same version. *)
Lemma sort_tie_same_version r1 r2 :
  rows_leb sort_columns r1 r2 = true -> rows_leb sort_columns r2 r1 = true ->
  get r1 "DET_ROW_NUM" = get r2 "DET_ROW_NUM".
Proof.
  intros H1 H2. pose proof (tuple_leb_antisym _ _ H1 H2) as E.
  unfold key_of, sort_columns in E. simpl in E. now inversion E.
Qed.

(** The rows of a group, taken from the sorted table, do not depend on
    the order of the input rows when a group has one row per version. *)
Lemma group_rows_perm_eq df df' k :
  Permutation (rows df) (rows df') ->
  one_row_per_version df ->
  filter (fun r => tuple_eqb (key_of id_columns r) k)
         (rows (sort_values sort_columns df))
  = filter (fun r => tuple_eqb (key_of id_columns r) k)
           (rows (sort_values sort_columns df')).
Proof.
  intros P Huniq. unfold sort_values. cbn [rows].
  fold (rows_leb sort_columns).
  apply (@sorted_perm_unique _ (rows_leb sort_columns)).
  - apply filter_sorted, sort_by_sorted;
      [apply rows_leb_total | apply rows_leb_trans].
  - apply filter_sorted, sort_by_sorted;
      [apply rows_leb_total | apply rows_leb_trans].
  - apply filter_perm. rewrite !sort_by_perm. exact P.
  - intros x y Hx Hy Hxy Hyx.
    apply filter_In in Hx. destruct Hx as [Hx Kx].
    apply filter_In in Hy. destruct Hy as [Hy Ky].
    apply (Permutation_in _ (sort_by_perm _ _)) in Hx.
    apply (Permutation_in _ (sort_by_perm _ _)) in Hy.
    apply tuple_eqb_eq in Kx, Ky.
    apply Huniq; auto; [congruence|].
    now apply sort_tie_same_version.
Qed.

Lemma group_keys_perm_eq (l l' : list (list value)) :
  Permutation l l' ->
  sort_by tuple_leb (unique tuple_eqb l) = sort_by tuple_leb (unique tuple_eqb l').
Proof.
  intros P. apply sort_by_perm_eq.
  - apply tuple_leb_total.
  - apply tuple_leb_trans.
  - now apply unique_perm; [apply tuple_eqb_eq|].
  - intros x y _ _. apply tuple_leb_antisym.
Qed.

Lemma groupby_perm_eq df df' :
  columns df' = columns df ->
  Permutation (rows df) (rows df') ->
  one_row_per_version df ->
  groupby id_columns (sort_values sort_columns df')
  = groupby id_columns (sort_values sort_columns df).
Proof.
  intros Hc P Huniq. unfold groupby.
  assert (Hk : sort_by tuple_leb
                 (unique tuple_eqb
                    (filter (forallb notna)
                       (map (key_of id_columns)
                            (rows (sort_values sort_columns df')))))
               = sort_by tuple_leb
                   (unique tuple_eqb
                      (filter (forallb notna)
                         (map (key_of id_columns)
                              (rows (sort_values sort_columns df)))))).
  { apply group_keys_perm_eq, filter_perm, Permutation_map.
    unfold sort_values. cbn [rows]. rewrite !sort_by_perm. now symmetry. }
  rewrite Hk. apply map_ext. intros k. f_equal.
  cbn [sort_values columns]. rewrite Hc. f_equal.
  symmetry. now apply group_rows_perm_eq.
Qed.


(* ------------------------------------------------------------------ *)
(** ** The labels of the output rows *)

Lemma filter_none (A : Type) (f : A -> bool) l :
  (forall x, In x l -> f x = false) -> filter f l = [].
Proof.
  induction l as [|a t IH]; intros H; simpl; auto.
  rewrite (H a (or_introl eq_refl)). apply IH.
  intros x Hx. apply H. now right.
Qed.

Lemma fold_set_keys_from_nil (V : Type) (F : string -> V) cols :
  NoDup cols ->
  dict_keys (fold_left (fun d c => dict_set d c (F c)) cols []) = cols.
Proof.
  intros H. rewrite fold_set_keys by assumption. simpl.
  apply filter_all. reflexivity.
Qed.

Lemma build_side_dict_keys row sub_df suffix ref_num :
  NoDup (columns sub_df) ->
  mem_str "DET_ROW_NUM" (columns sub_df) = true ->
  dict_keys (build_side_dict row sub_df suffix ref_num) = columns sub_df.
Proof.
  intros Hnd Hdet. rewrite build_side_dict_unfold, dict_keys_set.
  rewrite dict_mem_keys, fold_set_keys_from_nil by assumption.
  now rewrite Hdet.
Qed.

Lemma missing_dict_keys sub_df ref_num :
  NoDup (columns sub_df) ->
  mem_str "DET_ROW_NUM" (columns sub_df) = true ->
  dict_keys (missing_dict sub_df ref_num) = columns sub_df.
Proof.
  intros Hnd Hdet. unfold missing_dict. rewrite dict_keys_set.
  rewrite dict_mem_keys.
  rewrite (fold_set_keys_from_nil (fun _ => VStr MISSING)) by assumption.
  now rewrite Hdet.
Qed.

Lemma dict_keys_set_mem (V : Type) (d : dict V) k v :
  dict_mem d k = true -> dict_keys (dict_set d k v) = dict_keys d.
Proof. intros H. now rewrite dict_keys_set, H. Qed.

Lemma compare_step_keys new_num group_max (o n : dict value) c :
  dict_mem o c = true ->
  dict_keys (fst (compare_step new_num group_max (o, n) c)) = dict_keys o
  /\ dict_keys (snd (compare_step new_num group_max (o, n) c)) = dict_keys n.
Proof.
  intros Ho. unfold compare_step.
  destruct (String.eqb c "DET_ROW_NUM"); auto.
  destruct (dict_mem n c) eqn:Hn; auto.
  destruct (is_missing (get o c) && negb (is_missing (get n c))).
  { cbn [fst snd]. now rewrite dict_keys_set_mem. }
  destruct (is_missing (get n c) && negb (is_missing (get o c))).
  { cbn [fst snd]. now rewrite dict_keys_set_mem. }
  destruct (py_ne (get o c) (get n c)
            && negb (contains "##" (py_str (get o c)))
            && negb (contains "##" (py_str (get n c)))); auto.
  destruct (py_ne new_num group_max); cbn [fst snd];
    rewrite ?dict_keys_set_mem; auto.
Qed.

Lemma compare_fold_keys new_num group_max ks : forall (o n : dict value),
  (forall c, In c ks -> dict_mem o c = true) ->
  let st := fold_left (compare_step new_num group_max) ks (o, n) in
  dict_keys (fst st) = dict_keys o /\ dict_keys (snd st) = dict_keys n.
Proof.
  induction ks as [|c t IH]; intros o n Hall; cbn [fold_left]; auto.
  destruct (@compare_step_keys new_num group_max o n c) as [Ho Hn].
  { apply Hall. now left. }
  destruct (compare_step new_num group_max (o, n) c) as [o1 n1].
  cbn [fst snd] in *.
  destruct (IH o1 n1) as [Ho1 Hn1].
  { intros c' Hc'. rewrite dict_mem_keys, Ho, <- dict_mem_keys.
    apply Hall. now right. }
  cbv zeta in *. split; congruence.
Qed.

Lemma compare_dicts_keys new_num group_max (o n : dict value) :
  let st := compare_dicts new_num group_max o n in
  dict_keys (fst st) = dict_keys o /\ dict_keys (snd st) = dict_keys n.
Proof.
  unfold compare_dicts. apply compare_fold_keys.
  intros c Hc. rewrite dict_mem_keys. now apply mem_str_In.
Qed.

Lemma side_dicts_keys sub_old sub_new old_num new_num group_max row :
  NoDup (columns sub_old) ->
  columns sub_new = columns sub_old ->
  mem_str "DET_ROW_NUM" (columns sub_old) = true ->
  let st := side_dicts sub_old sub_new old_num new_num group_max row in
  dict_keys (fst st) = columns sub_old /\ dict_keys (snd st) = columns sub_old.
Proof.
  intros Hnd Hc Hdet. unfold side_dicts.
  assert (Hnd' : NoDup (columns sub_new)) by now rewrite Hc.
  assert (Hdet' : mem_str "DET_ROW_NUM" (columns sub_new) = true)
    by now rewrite Hc.
  destruct (value_eqb (get row "_merge") (VStr "left_only")).
  { cbn [fst snd]. rewrite build_side_dict_keys, missing_dict_keys; auto. }
  destruct (value_eqb (get row "_merge") (VStr "right_only")).
  { cbn [fst snd]. rewrite build_side_dict_keys, missing_dict_keys; auto. }
  destruct (compare_dicts_keys new_num group_max
              (build_side_dict row sub_old "_old" old_num)
              (build_side_dict row sub_new "_new" new_num)) as [H1 H2].
  cbv zeta. rewrite H1, H2, !build_side_dict_keys; auto.
Qed.

Lemma df_diff_keys group_keys (old_dict new_dict : dict value) row :
  mem_str "GROUP_KEYS" (dict_keys old_dict) = false ->
  dict_keys new_dict = dict_keys old_dict ->
  In row (df_diff group_keys old_dict new_dict) ->
  dict_keys row = dict_keys old_dict ++ ["GROUP_KEYS"].
Proof.
  intros Hgk Hk. unfold df_diff.
  assert (Hmap : forall d : dict value,
             dict_keys (map (fun cv => (fst cv, CVal (snd cv))) d)
             = dict_keys d).
  { intros d. unfold dict_keys. rewrite map_map. reflexivity. }
  intros [<-|[<-|[]]]; rewrite dict_keys_set, dict_mem_keys, Hmap.
  - now rewrite Hgk.
  - now rewrite Hk, Hgk.
Qed.

(** Every row of every difference frame carries the columns of the
    input, in their order, followed by [GROUP_KEYS]. *)
Lemma differences_list_keys df frame row :
  NoDup (columns df) ->
  mem_str "DET_ROW_NUM" (columns df) = true ->
  mem_str "GROUP_KEYS" (columns df) = false ->
  In frame (differences_list df) -> In row frame ->
  dict_keys row = columns df ++ ["GROUP_KEYS"].
Proof.
  intros Hnd Hdet Hgk Hf Hrow.
  unfold differences_list in Hf. apply in_flat_map in Hf.
  destruct Hf as ([k gd] & Hg & Hf).
  apply groupby_In in Hg. destruct Hg as (Hcols & _).
  cbn [sort_values columns] in Hcols.
  unfold process_group in Hf. apply in_flat_map in Hf.
  destruct Hf as (p & _ & Hf). unfold process_pair in Hf.
  apply in_map_iff in Hf. destruct Hf as (mrow & E & _).
  match type of E with
  | context [side_dicts ?so ?sn ?a ?b ?m mrow] =>
      destruct (@side_dicts_keys so sn a b m mrow) as [H1 H2];
        [ cbn [select_eq sort_values columns]; now rewrite Hcols
        | reflexivity
        | cbn [select_eq sort_values columns]; now rewrite Hcols
        | destruct (side_dicts so sn a b m mrow) as [o n] ]
  end.
  cbn [fst snd select_eq sort_values columns] in H1, H2.
  rewrite Hcols in H1, H2. subst frame.
  rewrite <- H1. apply (@df_diff_keys k o n row).
  - now rewrite H1.
  - now rewrite H1, H2.
  - exact Hrow.
Qed.

Section UniqueMore.
Variable A : Type.
Variable eqb : A -> A -> bool.
Hypothesis eqb_eq : forall x y, eqb x y = true <-> x = y.

Let mem (x : A) (l : list A) : bool := existsb (eqb x) l.

Lemma unique_id l : NoDup l -> unique eqb l = l.
Proof.
  induction 1 as [|a t Hnin Hnd IH]; simpl; auto.
  rewrite IH. f_equal. apply filter_all. intros x Hx.
  destruct (eqb a x) eqn:E; auto.
  apply eqb_eq in E. subst. contradiction.
Qed.

Lemma unique_app k : forall l,
  unique eqb (k ++ l)
  = unique eqb k ++ filter (fun x => negb (mem x k)) (unique eqb l).
Proof.
  induction k as [|a t IH]; intros l; simpl.
  - symmetry. apply filter_all. reflexivity.
  - f_equal. rewrite IH, filter_app. f_equal.
    generalize (unique eqb l). intros u.
    induction u as [|x u IHu]; simpl; auto.
    assert (eqb x a = eqb a x) as Es.
    { destruct (eqb x a) eqn:E1, (eqb a x) eqn:E2; auto.
      - apply eqb_eq in E1. subst.
        assert (eqb a a = true) by now apply eqb_eq. congruence.
      - apply eqb_eq in E2. subst.
        assert (eqb x x = true) by now apply eqb_eq. congruence. }
    rewrite Es. destruct (mem x t); simpl.
    + rewrite orb_true_r. simpl. exact IHu.
    + rewrite orb_false_r. destruct (eqb a x); simpl; now rewrite IHu.
Qed.

Lemma unique_app_absorb k l :
  NoDup k -> (forall x, In x l -> In x k) -> unique eqb (k ++ l) = k.
Proof.
  intros Hnd Hin. rewrite unique_app, unique_id by assumption.
  rewrite filter_none; [apply app_nil_r|].
  intros x Hx. apply (proj1 (@unique_In _ _ eqb_eq _ _)) in Hx.
  apply Hin in Hx. apply negb_false_iff. apply existsb_exists.
  exists x. split; auto. now apply eqb_eq.
Qed.
End UniqueMore.

Lemma concat_frames_columns (frames : list (list out_row)) K :
  NoDup K ->
  List.concat frames <> [] ->
  (forall row : out_row, In row (List.concat frames) -> dict_keys row = K) ->
  out_columns (concat_frames frames) = K.
Proof.
  intros Hnd Hne Hall. unfold concat_frames. cbn [out_columns].
  destruct (List.concat frames) as [|r rs]; [congruence|].
  change (flat_map (@dict_keys cell) (r :: rs))
    with (dict_keys r ++ flat_map (@dict_keys cell) rs).
  rewrite (Hall r (or_introl eq_refl)).
  apply (@unique_app_absorb _ _ String.eqb_eq); auto.
  intros x Hx. apply in_flat_map in Hx. destruct Hx as (r' & Hr' & Hx).
  rewrite (Hall r' (or_intror Hr')) in Hx. exact Hx.
Qed.

Lemma align_self (row : out_row) :
  NoDup (dict_keys row) -> align (dict_keys row) row = row.
Proof.
  unfold align. induction row as [|[k v] t IH]; intros Hnd; auto.
  inversion Hnd as [|? ? Hnin Hnd']; subst.
  cbn [dict_keys map fst]. f_equal.
  - unfold cell_get. cbn [dict_get]. now rewrite String.eqb_refl.
  - rewrite <- (IH Hnd') at 2. apply map_ext_in. intros c Hc. f_equal.
    unfold cell_get. cbn [dict_get].
    destruct (String.eqb k c) eqn:E; auto.
    apply String.eqb_eq in E. subst. contradiction.
Qed.

Lemma cleaned_columns_all cols :
  (forall c, In c desired_order -> mem_str c cols = true) ->
  cleaned_columns cols = desired_order.
Proof.
  intros H. unfold cleaned_columns, desired_order. f_equal.
  apply filter_all. intros c Hc. apply H. now right.
Qed.

Lemma sort_cols_clean_labels cols c :
  mem_str c (sort_cols_clean cols) = true -> mem_str c clean_labels = true.
Proof.
  rewrite !mem_str_In. unfold sort_cols_clean, clean_labels.
  rewrite !in_map_iff. intros (x & E & Hx). exists x. split; auto.
  unfold cleaned_columns in Hx. destruct Hx as [<-|Hx]; [now left|].
  apply filter_In in Hx. destruct Hx as [Hx _]. now right.
Qed.

Lemma sorted_map (A B : Type) (R : B -> B -> Prop) (f : A -> B) l :
  StronglySorted (fun x y => R (f x) (f y)) l -> StronglySorted R (map f l).
Proof.
  induction 1 as [|a t Hs IH Hall]; simpl; constructor; auto.
  rewrite Forall_forall in *. intros y Hy.
  apply in_map_iff in Hy. destruct Hy as (x & <- & Hx). auto.
Qed.

Lemma sort_by_ext_in (A : Type) (f g : A -> A -> bool) l :
  (forall x y, f x y = g x y) -> sort_by f l = sort_by g l.
Proof.
  intros H. induction l as [|a t IH]; simpl; auto.
  rewrite IH. generalize (sort_by g t). intros s.
  induction s as [|b s IHs]; simpl; auto.
  rewrite H. destruct (g a b); auto. now rewrite IHs.
Qed.

Lemma num_leb_total x y : num_leb x y = true \/ num_leb y x = true.
Proof. destruct x, y; simpl; auto. rewrite !Z.leb_le. lia. Qed.

Lemma num_leb_trans x y z :
  num_leb x y = true -> num_leb y z = true -> num_leb x z = true.
Proof.
  destruct x, y, z; simpl; auto; try discriminate.
  rewrite !Z.leb_le. lia.
Qed.

Lemma sort_key_leb_total r1 r2 :
  sort_key_leb r1 r2 = true \/ sort_key_leb r2 r1 = true.
Proof. apply lex_leb_total, num_leb_total. Qed.

Lemma sort_key_leb_trans r1 r2 r3 :
  sort_key_leb r1 r2 = true -> sort_key_leb r2 r3 = true ->
  sort_key_leb r1 r3 = true.
Proof. unfold sort_key_leb. apply lex_leb_trans. exact num_leb_trans. Qed.

Lemma sort_key_align cols row :
  (forall c, In c desired_order -> mem_str c cols = true) ->
  sort_key (align cols row) = sort_key row.
Proof.
  intros H. unfold sort_key. apply map_ext_in. intros c Hc.
  now rewrite align_cell_get by auto.
Qed.

(** Rows that tie in the sort keep their order. *)
Lemma insert_by_stable (A : Type) (leb : A -> A -> bool) (x a : A) l :
  (forall u v w, leb u v = true -> leb v w = true -> leb u w = true) ->
  let tie y := leb x y && leb y x in
  filter tie (insert_by leb a l) = filter tie (a :: l).
Proof.
  intros Htrans tie. induction l as [|y t IH]; auto.
  cbn [insert_by]. destruct (leb a y) eqn:Eay; auto.
  cbn [filter] in *. rewrite IH.
  destruct (tie a) eqn:Ta, (tie y) eqn:Ty; auto.
  unfold tie in Ta, Ty. apply andb_true_iff in Ta, Ty.
  destruct Ta as [_ Ta], Ty as [Ty _].
  rewrite (Htrans _ _ _ Ta Ty) in Eay. discriminate.
Qed.

Lemma sort_by_stable (A : Type) (leb : A -> A -> bool) (x : A) l :
  (forall u v w, leb u v = true -> leb v w = true -> leb u w = true) ->
  let tie y := leb x y && leb y x in
  filter tie (sort_by leb l) = filter tie l.
Proof.
  intros Htrans tie. induction l as [|a t IH]; auto.
  cbn [sort_by fold_right]. fold (sort_by leb t).
  unfold tie. rewrite insert_by_stable by assumption.
  cbn [filter]. fold tie. now rewrite IH.
Qed.

(* ------------------------------------------------------------------ *)
(** ** Reading numbers back from cells *)

Lemma string_forall_impl (p q : ascii -> bool) s :
  (forall c, p c = true -> q c = true) ->
  string_forall p s = true -> string_forall q s = true.
Proof.
  intros H. induction s as [|c r IH]; simpl; auto.
  rewrite !andb_true_iff. intros [Hc Hr]. auto.
Qed.

Lemma string_forall_app p a b :
  string_forall p (a ++ b) = string_forall p a && string_forall p b.
Proof.
  induction a as [|c r IH]; simpl; auto. now rewrite IH, andb_assoc.
Qed.

Lemma uint_string_digits d :
  string_forall is_digit (NilEmpty.string_of_uint d) = true.
Proof. induction d; simpl; auto. Qed.

Lemma int_string_chars z : string_forall is_int_char (py_str (VInt z)) = true.
Proof.
  assert (H : forall d, string_forall is_int_char (NilZero.string_of_uint d)
                        = true).
  { intros d. apply string_forall_impl with (p := is_digit).
    - intros c Hc. unfold is_int_char. now rewrite Hc.
    - destruct d; try apply uint_string_digits. reflexivity. }
  unfold py_str, NilZero.string_of_int.
  destruct (Z.to_int z); [apply H|]. simpl. apply H.
Qed.

Lemma int_char_facts c :
  is_int_char c = true ->
  is_space c = false /\ Ascii.eqb "*" c = false /\ Ascii.eqb "#" c = false.
Proof.
  destruct c as [[] [] [] [] [] [] [] []]; vm_compute; intros H;
    first [discriminate H | repeat split].
Qed.

Lemma remove_marker_S fuel m c r :
  remove_marker (S fuel) m (String c r)
  = match drop_prefix m (String c r) with
    | Some rest => remove_marker fuel m rest
    | None => String c (remove_marker fuel m r)
    end.
Proof. reflexivity. Qed.

Lemma drop_prefix_head c m a r :
  Ascii.eqb c a = false -> drop_prefix (String c m) (String a r) = None.
Proof. intros H. cbn [drop_prefix]. now rewrite H. Qed.

Lemma drop_prefix_length m : forall s rest,
  drop_prefix m s = Some rest ->
  String.length s = String.length m + String.length rest.
Proof.
  induction m as [|a m IH]; intros s rest H.
  - simpl in H. now inversion H.
  - destruct s as [|b s]; [discriminate H|]. cbn [drop_prefix] in H.
    destruct (Ascii.eqb a b); [|discriminate H].
    simpl. f_equal. now apply IH.
Qed.

(** The length of the string is fuel enough: more fuel gives the same
    result. *)
Lemma remove_marker_fuel a m : forall n s f1 f2,
  String.length s <= n -> n <= f1 -> n <= f2 ->
  remove_marker f1 (String a m) s = remove_marker f2 (String a m) s.
Proof.
  induction n as [|n IH]; intros s f1 f2 Hs H1 H2.
  - destruct s; [|simpl in Hs; lia]. destruct f1, f2; reflexivity.
  - destruct s as [|c r]; [destruct f1, f2; reflexivity|].
    destruct f1 as [|f1]; [lia|]. destruct f2 as [|f2]; [lia|].
    rewrite !remove_marker_S.
    destruct (drop_prefix (String a m) (String c r)) as [rest|] eqn:E.
    + apply drop_prefix_length in E. simpl in E, Hs.
      apply IH; lia.
    + f_equal. simpl in Hs. apply IH; lia.
Qed.

Lemma remove_marker_absent c m : forall fuel s,
  string_forall (fun a => negb (Ascii.eqb c a)) s = true ->
  remove_marker fuel (String c m) s = s.
Proof.
  induction fuel as [|fuel IH]; intros s H; auto.
  destruct s as [|a r]; auto. cbn [string_forall] in H.
  apply andb_true_iff in H. destruct H as [Ha Hr].
  apply negb_true_iff in Ha.
  rewrite remove_marker_S, drop_prefix_head by assumption.
  now rewrite IH.
Qed.

Lemma str_replace_empty_absent c m s :
  string_forall (fun a => negb (Ascii.eqb c a)) s = true ->
  str_replace_empty (String c m) s = s.
Proof. apply remove_marker_absent. Qed.

Lemma remove_stars_tail : forall s fuel,
  string_forall (fun a => negb (Ascii.eqb "*" a)) s = true ->
  String.length s < fuel ->
  remove_marker fuel "**" (s ++ "**") = s.
Proof.
  induction s as [|a r IH]; intros fuel H Hlen.
  - destruct fuel as [|fuel]; [simpl in Hlen; lia|].
    destruct fuel; reflexivity.
  - destruct fuel as [|fuel]; [simpl in Hlen; lia|].
    cbn [string_forall] in H. apply andb_true_iff in H.
    destruct H as [Ha Hr]. apply negb_true_iff in Ha.
    change (String a r ++ "**")%string with (String a (r ++ "**")).
    rewrite remove_marker_S, drop_prefix_head by assumption.
    rewrite IH; auto. simpl in Hlen. lia.
Qed.

Lemma append_length a b :
  String.length (a ++ b) = String.length a + String.length b.
Proof. induction a as [|c r IH]; simpl; auto. Qed.

Lemma remove_stars_wrapped s :
  string_forall (fun a => negb (Ascii.eqb "*" a)) s = true ->
  str_replace_empty "**" ("**" ++ s ++ "**") = s.
Proof.
  intros H. unfold str_replace_empty.
  change ("**" ++ s ++ "**")%string with (String "*" (String "*" (s ++ "**"))).
  cbn [String.length]. rewrite remove_marker_S.
  change (drop_prefix "**" (String "*" (String "*" (s ++ "**"))))
    with (Some (s ++ "**")%string).
  apply remove_stars_tail; auto.
  rewrite append_length. simpl. lia.
Qed.

Lemma lstrip_nospace s :
  string_forall (fun c => negb (is_space c)) s = true -> lstrip s = s.
Proof.
  destruct s as [|c r]; auto. simpl. intros H.
  apply andb_true_iff in H. destruct H as [Hc _].
  apply negb_true_iff in Hc. now rewrite Hc.
Qed.

Lemma rstrip_nospace s :
  string_forall (fun c => negb (is_space c)) s = true -> rstrip s = s.
Proof.
  induction s as [|c r IH]; auto. simpl. intros H.
  apply andb_true_iff in H. destruct H as [Hc Hr].
  apply negb_true_iff in Hc. rewrite IH by assumption.
  destruct r; [now rewrite Hc|reflexivity].
Qed.

Lemma literal_digits_uint d :
  literal_digits true (NilEmpty.string_of_uint d)
  = Some (NilEmpty.string_of_uint d).
Proof.
  induction d; cbn [NilEmpty.string_of_uint literal_digits]; auto;
    match goal with
    | |- context [is_digit ?c] => change (is_digit c) with true
    end; cbv iota; rewrite IHd; reflexivity.
Qed.

Lemma digits_int_uint d :
  d <> Nil -> digits_int (NilZero.string_of_uint d) = Some (Z.of_uint d).
Proof.
  intros Hd. unfold digits_int.
  assert (E : NilZero.string_of_uint d = NilEmpty.string_of_uint d)
    by (destruct d; [congruence|reflexivity..]).
  assert (L : literal_digits false (NilZero.string_of_uint d)
              = Some (NilZero.string_of_uint d)).
  { rewrite E. destruct d; [congruence|..];
      cbn [NilEmpty.string_of_uint literal_digits];
      match goal with
      | |- context [is_digit ?c] => change (is_digit c) with true
      end; cbv iota; rewrite literal_digits_uint; reflexivity. }
  rewrite L, NilZero.usu by assumption. reflexivity.
Qed.

Lemma py_int_uint d :
  d <> Nil -> py_int (NilZero.string_of_uint d) = Some (Z.of_uint d).
Proof.
  intros Hd. unfold py_int.
  assert (Hs : string_forall (fun c => negb (is_space c))
                 (NilZero.string_of_uint d) = true).
  { apply string_forall_impl with (p := is_digit).
    - intros c Hc. apply negb_true_iff.
      apply (int_char_facts c). unfold is_int_char. now rewrite Hc.
    - destruct d; try apply uint_string_digits. reflexivity. }
  rewrite lstrip_nospace, rstrip_nospace by assumption.
  rewrite <- (digits_int_uint Hd).
  destruct d; [congruence|reflexivity..].
Qed.

Lemma py_int_str z : py_int (py_str (VInt z)) = Some z.
Proof.
  unfold py_str. destruct z as [|p|p]; cbn [Z.to_int NilZero.string_of_int].
  - reflexivity.
  - rewrite py_int_uint by apply Unsigned.to_uint_nonnil.
    unfold Z.of_uint. now rewrite DecimalPos.Unsigned.of_to.
  - pose proof (int_string_chars (Z.neg p)) as Hc.
    unfold py_str in Hc. cbn [Z.to_int NilZero.string_of_int] in Hc.
    assert (Hs : string_forall (fun c => negb (is_space c))
                   (String "-" (NilZero.string_of_uint (Pos.to_uint p)))
                 = true).
    { eapply string_forall_impl; [|exact Hc].
      intros c H. apply negb_true_iff. now apply int_char_facts. }
    unfold py_int. rewrite lstrip_nospace, rstrip_nospace by exact Hs.
    rewrite digits_int_uint by apply Unsigned.to_uint_nonnil.
    unfold Z.of_uint. now rewrite DecimalPos.Unsigned.of_to.
Qed.

Lemma int_string_no c z :
  (forall a, is_int_char a = true -> Ascii.eqb c a = false) ->
  string_forall (fun a => negb (Ascii.eqb c a)) (py_str (VInt z)) = true.
Proof.
  intros H. eapply string_forall_impl; [|apply int_string_chars].
  intros a Ha. apply negb_true_iff. auto.
Qed.

(** An integer cell is read back as the integer, wrapped in the
    changed marker or not; the missing marker is read as infinity. *)
Lemma extract_num_int z : extract_num (CVal (VInt z)) = Fin z.
Proof.
  unfold extract_num. cbn [cell_str fold_left].
  rewrite (@str_replace_empty_absent "*" "*")
    by (apply int_string_no; intros a Ha; now apply int_char_facts).
  rewrite (@str_replace_empty_absent "#" "#")
    by (apply int_string_no; intros a Ha; now apply int_char_facts).
  now rewrite py_int_str.
Qed.

Lemma extract_num_marked_int z : extract_num (CVal (mark (VInt z))) = Fin z.
Proof.
  unfold extract_num, mark. cbn [cell_str py_str fold_left].
  fold (py_str (VInt z)).
  rewrite remove_stars_wrapped
    by (apply int_string_no; intros a Ha; now apply int_char_facts).
  rewrite (@str_replace_empty_absent "#" "#")
    by (apply int_string_no; intros a Ha; now apply int_char_facts).
  now rewrite py_int_str.
Qed.

Lemma extract_num_missing : extract_num (CVal (VStr MISSING)) = Inf.
Proof. reflexivity. Qed.

Lemma num_leb_inf n : num_leb n Inf = true.
Proof. destruct n; reflexivity. Qed.

(* ------------------------------------------------------------------ *)
(** ** Sorting and ordering of the output *)

Lemma sorted_impl (A : Type) (R R' : A -> A -> Prop) l :
  (forall x y, R x y -> R' x y) -> StronglySorted R l -> StronglySorted R' l.
Proof.
  intros H. induction 1 as [|a t Hs IH Hall]; constructor; auto.
  rewrite Forall_forall in *. intros y Hy. apply H. now apply Hall.
Qed.

Lemma dict_get_absent (V : Type) (d : dict V) c :
  mem_str c (dict_keys d) = false -> dict_get d c = None.
Proof.
  rewrite <- dict_mem_keys. unfold dict_mem.
  destruct (dict_get d c); [discriminate|reflexivity].
Qed.

(** The table assembled from rows that all carry the labels [K]. *)
Lemma all_diffs_df_shape (frames : list (list out_row)) K :
  NoDup K ->
  List.concat frames <> [] ->
  (forall row : out_row, In row (List.concat frames) -> dict_keys row = K) ->
  (forall c, In c desired_order -> mem_str c K = true) ->
  (forall c, In c K -> mem_str c clean_labels = false) ->
  let new_order :=
    desired_order ++ filter (fun c => negb (mem_str c desired_order)) K in
  out_columns (all_diffs_df frames) = new_order
  /\ out_rows (all_diffs_df frames)
     = map (align new_order) (sort_by sort_key_leb (List.concat frames)).
Proof.
  intros Hnd Hne Hkeys Hfive Hclean new_order.
  pose proof (@concat_frames_columns frames K Hnd Hne Hkeys) as Hcols.
  assert (Hkept : out_columns (sort_clean (concat_frames frames)) = K).
  { unfold sort_clean. cbn [out_columns]. rewrite Hcols.
    apply filter_all. intros c Hc. apply negb_true_iff.
    destruct (mem_str c (sort_cols_clean K)) eqn:E; auto.
    apply sort_cols_clean_labels in E. rewrite Hclean in E; auto. }
  assert (Hno : out_columns (all_diffs_df frames) = new_order).
  { unfold all_diffs_df, reorder. cbn [out_columns]. now rewrite Hkept. }
  split; [exact Hno|].
  rewrite all_diffs_df_rows. cbv zeta. rewrite Hcols, Hkept, Hno.
  assert (Hself : forall row : out_row,
             In row (List.concat frames) -> align K row = row).
  { intros row Hrow. rewrite <- (Hkeys row Hrow) at 1.
    apply align_self. now rewrite (Hkeys row Hrow). }
  assert (Hmap : map (align K) (List.concat frames) = List.concat frames).
  { rewrite <- (map_id (List.concat frames)) at 2.
    apply map_ext_in. exact Hself. }
  rewrite Hmap.
  assert (Hsort : sort_by (fun r1 r2 =>
                             lex_leb num_leb (clean_key K r1) (clean_key K r2))
                          (List.concat frames)
                  = sort_by sort_key_leb (List.concat frames)).
  { apply sort_by_ext_in. intros x y. unfold sort_key_leb, sort_key, clean_key.
    now rewrite cleaned_columns_all. }
  rewrite Hsort. apply map_ext_in. intros row Hrow. f_equal.
  apply Hself. eapply Permutation_in; [apply sort_by_perm|exact Hrow].
Qed.

Lemma reconcile_returned df r :
  reconcile df = Returned r ->
  has_columns sort_columns df = true /\ has_columns id_columns df = true.
Proof.
  unfold reconcile.
  destruct (has_columns sort_columns df); [|discriminate].
  destruct (has_columns id_columns df); [|discriminate]. auto.
Qed.

Lemma has_columns_In cols df c :
  has_columns cols df = true -> In c cols -> mem_str c (columns df) = true.
Proof.
  unfold has_columns. rewrite forallb_forall. auto.
Qed.

(** C4. The concatenated rows are sorted on the numbers read in
    [DET_ROW_NUM], [DET_WH_CUST_NO], [ACC_WH_ACC_NO],
    [REL_WH_SECNDRY_CUST_NO] and [REL_CUST_KIR_TYP_CDE], in this order
    of precedence, rows that tie keeping their order; the markers are
    removed to read the number only, the cells of the table are those
    of the concatenated rows; a cell that is not a number is read as
    infinity and sorts last.  The columns of the table are these five,
    then every other column of the input in its original order (the
    other identity columns and the payload alike), then [GROUP_KEYS]. *)
Theorem output_sorted_and_ordered :
  forall (df : DataFrame) (t : OutFrame),
    reconcile df = Returned (Styler t) ->
    NoDup (columns df) ->
    mem_str "GROUP_KEYS" (columns df) = false ->
    (forall c, In c (columns df) -> mem_str c clean_labels = false) ->
    let all_rows := List.concat (differences_list df) in
    let tie (row r : out_row) := sort_key_leb row r && sort_key_leb r row in
    out_columns t
    = desired_order
      ++ filter (fun c => negb (mem_str c desired_order)) (columns df)
      ++ ["GROUP_KEYS"]
    /\ out_rows t = map (align (out_columns t)) (sort_by sort_key_leb all_rows)
    /\ StronglySorted (fun r1 r2 => sort_key_leb r1 r2 = true) (out_rows t)
    /\ Permutation (out_rows t) (map (align (out_columns t)) all_rows)
    /\ (forall row c, In row all_rows ->
          cell_get (align (out_columns t) row) c = cell_get row c)
    /\ (forall row,
          filter (tie row) (sort_by sort_key_leb all_rows)
          = filter (tie row) all_rows)
    /\ (forall z, extract_num (CVal (VInt z)) = Fin z
                  /\ extract_num (CVal (mark (VInt z))) = Fin z)
    /\ extract_num (CVal (VStr MISSING)) = Inf
    /\ (forall n, num_leb n Inf = true).
Proof.
  intros df t Hret Hnd Hgk Hclean all_rows tie.
  destruct (@reconcile_returned _ _ Hret) as [Hsort _].
  apply reconcile_styler in Hret. destruct Hret as [Hne ->].
  set (K := columns df ++ ["GROUP_KEYS"]).
  assert (HndK : NoDup K).
  { unfold K. rewrite <- (rev_involutive (columns df ++ ["GROUP_KEYS"])).
    apply NoDup_rev. rewrite rev_app_distr. simpl. constructor.
    - intros Hin. apply in_rev, mem_str_In in Hin. congruence.
    - now apply NoDup_rev. }
  assert (Hkeys : forall row : out_row, In row all_rows -> dict_keys row = K).
  { intros row Hrow. apply in_concat in Hrow.
    destruct Hrow as (frame & Hf & Hrow).
    eapply differences_list_keys; eauto.
    eapply has_columns_In; eauto. now left. }
  assert (Hrows : all_rows <> []).
  { unfold all_rows. destruct (differences_list df) as [|f fs] eqn:E;
      [congruence|].
    assert (In f (differences_list df)) as Hf by (rewrite E; now left).
    apply differences_list_In in Hf.
    destruct Hf as (g & o & n & _ & -> & _). discriminate. }
  assert (Hfive : forall c, In c desired_order -> mem_str c K = true).
  { intros c Hc. unfold K. rewrite mem_str_app.
    rewrite (@has_columns_In _ _ _ Hsort Hc). reflexivity. }
  assert (HcleanK : forall c, In c K -> mem_str c clean_labels = false).
  { intros c Hc. unfold K in Hc. apply in_app_or in Hc.
    destruct Hc as [Hc|[<-|[]]]; auto. }
  destruct (@all_diffs_df_shape _ K HndK Hrows Hkeys Hfive HcleanK) as [Hcols Hout].
  cbv zeta in Hcols, Hout. fold all_rows in Hout.
  set (new_order := desired_order
                    ++ filter (fun c => negb (mem_str c desired_order)) K)
    in *.
  assert (Hin_no : forall c, mem_str c new_order = mem_str c K).
  { intros c. unfold new_order. rewrite mem_str_app, mem_str_filter.
    destruct (mem_str c desired_order) eqn:E; simpl.
    - symmetry. apply Hfive. now apply mem_str_In.
    - now rewrite andb_true_r. }
  rewrite Hcols.
  split; [|split; [|split; [|split; [|split; [|split; [|split]]]]]].
  - unfold new_order, K. rewrite filter_app. reflexivity.
  - exact Hout.
  - rewrite Hout. apply sorted_map.
    eapply sorted_impl;
      [|apply sort_by_sorted;
        [exact sort_key_leb_total | exact sort_key_leb_trans]].
    intros x y Hxy. unfold sort_key_leb.
    rewrite !sort_key_align; auto.
    + intros c Hc. rewrite Hin_no. auto.
    + intros c Hc. rewrite Hin_no. auto.
  - rewrite Hout. apply Permutation_map, sort_by_perm.
  - intros row c Hrow. destruct (mem_str c new_order) eqn:E.
    + now apply align_cell_get.
    + unfold cell_get. rewrite align_get, E.
      rewrite dict_get_absent; auto.
      rewrite (Hkeys row Hrow), <- Hin_no. exact E.
  - intros row. apply sort_by_stable. exact sort_key_leb_trans.
  - intros z. split;
      [apply extract_num_int | apply extract_num_marked_int].
  - split; [reflexivity | apply num_leb_inf].
Qed.

(* ------------------------------------------------------------------ *)
(** ** Sample runs *)



(** C3, the reading refuted: two rows at version 1 and one at version
    2 give two DiffPairs for the single pair of versions. *)
Lemma one_diffpair_per_version_pair_fails : ~ one_diffpair_per_version_pair.
Proof.
  intros H.
  specialize (H duplicated_version
                ([VInt 1; VInt 1; VInt 1; VInt 1; VInt 1; VInt 1; VInt 1;
                  VInt 1; VInt 1; VInt 1; VInt 1; VInt 1; VInt 1; VInt 1;
                  VInt 1; VInt 1; VInt 1],
                 duplicated_version)
                ltac:(vm_compute; left; reflexivity)).
  cbv zeta in H. specialize (H ltac:(vm_compute; lia)).
  vm_compute in H. discriminate H.
Qed.

Lemma consecutive_version_pairs_witness :
  let g := ([VInt 1; VInt 1; VInt 1; VInt 1; VInt 1; VInt 1; VInt 1;
             VInt 1; VInt 1; VInt 1; VInt 1; VInt 1; VInt 1; VInt 1;
             VInt 1; VInt 1; VInt 1], scenario_D) in
  version_pairs (unique_nums (sort_values ["DET_ROW_NUM"] (snd g)))
  = [(VInt 1, VInt 2)]
  /\ List.length (process_group g) = 1
  /\ List.length (List.concat (process_group g)) = 2.
Proof.
  intros g.
  pose proof (@consecutive_version_pairs scenario_D g
                ltac:(vm_compute; left; reflexivity)) as H.
  assert (Hna : forall r, In r (rows (snd g)) ->
                          notna (get r "DET_ROW_NUM") = true).
  { intros r [<-|[<-|[]]]; reflexivity. }
  specialize (H Hna). cbv zeta in H.
  destruct H as (_ & Hpairs & _ & _ & _ & _ & Hone).
  split; [by_eval|].
  apply Hone. intros v Hv. vm_compute in Hv.
  destruct Hv as [<-|[<-|[]]]; reflexivity.
Defined.

(** C4, the reading refuted: with [AMOUNT] ahead of the identity
    columns in the input, it comes right after the five leading
    columns, before the thirteen other identity columns. *)
Lemma identity_columns_then_payload_fails : ~ identity_columns_then_payload.
Proof.
  intros H.
  specialize (H payload_first (table_of (reconcile payload_first))
                ltac:(by_eval)).
  vm_compute in H. discriminate H.
Qed.

Example payload_first_columns :
  firstn 7 (out_columns (table_of (reconcile payload_first)))
  = desired_order ++ ["AMOUNT"; "ACTE_PERIOD_DTE"].
Proof. vm_compute. reflexivity. Qed.



Example duplicated_version_outputs :
  column_of (reconcile duplicated_version) "AMOUNT"
  = [CVal (VStr "**100**"); CVal (VStr "**150**");
     CVal (VInt 200); CVal (VInt 200)]
  /\ column_of (reconcile duplicated_version_swapped) "AMOUNT"
     = [CVal (VStr "**150**"); CVal (VStr "**100**");
        CVal (VInt 200); CVal (VInt 200)].
Proof. split; vm_compute; reflexivity. Qed.

Lemma missing_marker_rules_witness :
  let row := both_row (sample_row 1 VNaN) (sample_row 2 (VInt 5)) in
  let st :=
    side_dicts (select_eq "DET_ROW_NUM" (VInt 1) null_then_value)
               (select_eq "DET_ROW_NUM" (VInt 2) null_then_value)
               (VInt 1) (VInt 2) (VInt 2) row in
  get (fst st) "AMOUNT" = VStr MISSING /\ get (snd st) "AMOUNT" = VStr "**5**".
Proof.
  intros row st.
  pose proof (@missing_marker_rules
                (select_eq "DET_ROW_NUM" (VInt 1) null_then_value)
                (select_eq "DET_ROW_NUM" (VInt 2) null_then_value)
                (VInt 1) (VInt 2) (VInt 2) row "AMOUNT") as H.
  cbv zeta in H.
  specialize (H ltac:(by_eval) ltac:(by_eval) ltac:(by_eval)
                ltac:(discriminate)).
  destruct H as (H & _ & _).
  specialize (H ltac:(by_eval) ltac:(by_eval)).
  destruct H as [H1 H2]. split; [exact H1 | exact H2].
Defined.

Lemma double_hash_skips_changed_marking_witness :
  let row := both_row (sample_row 1 (VStr "a##b")) (sample_row 2 (VStr "c")) in
  let st :=
    side_dicts (select_eq "DET_ROW_NUM" (VInt 1) hash_values)
               (select_eq "DET_ROW_NUM" (VInt 2) hash_values)
               (VInt 1) (VInt 2) (VInt 2) row in
  get (fst st) "AMOUNT" = VStr "a##b" /\ get (snd st) "AMOUNT" = VStr "c".
Proof.
  intros row st.
  pose proof (@double_hash_skips_changed_marking
                (select_eq "DET_ROW_NUM" (VInt 1) hash_values)
                (select_eq "DET_ROW_NUM" (VInt 2) hash_values)
                (VInt 1) (VInt 2) (VInt 2) row "AMOUNT") as H.
  cbv zeta in H.
  specialize (H ltac:(by_eval) ltac:(by_eval) ltac:(by_eval)
                ltac:(discriminate) ltac:(left; by_eval)).
  destruct H as (_ & H).
  specialize (H ltac:(by_eval) ltac:(by_eval)).
  destruct H as [H1 H2]. split; [exact H1 | exact H2].
Defined.

Lemma sample_columns_NoDup : NoDup sample_columns.
Proof.
  change sample_columns with (unique String.eqb sample_columns).
  apply unique_NoDup, String.eqb_eq.
Qed.

Lemma output_sorted_and_ordered_witness :
  let t := table_of (reconcile scenario_D) in
  out_columns t
  = desired_order
    ++ filter (fun c => negb (mem_str c desired_order)) sample_columns
    ++ ["GROUP_KEYS"]
  /\ StronglySorted (fun r1 r2 => sort_key_leb r1 r2 = true) (out_rows t).
Proof.
  intros t.
  pose proof (@output_sorted_and_ordered scenario_D t ltac:(by_eval)
                sample_columns_NoDup ltac:(by_eval)) as H.
  assert (Hclean : forall c, In c (columns scenario_D) ->
                             mem_str c clean_labels = false).
  { assert (F : forallb (fun c => negb (mem_str c clean_labels))
                        (columns scenario_D) = true) by by_eval.
    intros c Hc. rewrite forallb_forall in F.
    apply negb_true_iff. now apply F. }
  specialize (H Hclean). cbv zeta in H.
  destruct H as (Hcols & _ & Hsorted & _).
  split; [exact Hcols | exact Hsorted].
Defined.


Lemma scenario_D_one_row_per_version : one_row_per_version scenario_D.
Proof.
  intros r1 r2 H1 H2 _ Hv.
  destruct H1 as [<-|[<-|[]]], H2 as [<-|[<-|[]]]; try reflexivity;
    vm_compute in Hv; discriminate Hv.
Qed.



(** Scenarios A, B and C of the specification, run through the method:
    one version gives the empty result; three identical versions give
    two DiffPairs without a marker. *)
Example scenario_A_result :
  reconcile (mkDataFrame sample_columns [sample_row 1 (VInt 100)])
  = Returned EmptyDataFrame.
Proof. vm_compute. reflexivity. Qed.

Example scenario_B_result :
  column_of
    (reconcile (mkDataFrame sample_columns
                  [sample_row 1 (VInt 7); sample_row 2 (VInt 7);
                   sample_row 3 (VInt 7)]))
    "AMOUNT"
  = [CVal (VInt 7); CVal (VInt 7); CVal (VInt 7); CVal (VInt 7)].
Proof. vm_compute. reflexivity. Qed.

(* ------------------------------------------------------------------ *)
(** ** The cells of a DiffPair, from the input rows *)

Lemma suffixed_new_get_old (r : Series) c :
  dict_get (suffixed "_new" r) (c ++ "_old") = None.
Proof.
  induction r as [|[c0 v] t IH]; simpl; auto.
  destruct (mem_str c0 merge_key_cols) eqn:Ec; simpl.
  - destruct (String.eqb c0 (c ++ "_old")) eqn:E; auto.
    apply String.eqb_eq in E. subst.
    rewrite suffix_not_key in Ec by (now left). discriminate.
  - destruct (String.eqb (c0 ++ "_new") (c ++ "_old")) eqn:E; auto.
    apply String.eqb_eq in E. symmetry in E. now apply old_new_differ in E.
Qed.

Lemma both_row_status l r : get (both_row l r) "_merge" = VStr "both".
Proof.
  unfold get, both_row. rewrite !dict_get_app.
  rewrite suffixed_get_merge by (now left).
  rewrite suffixed_get_merge by (now right). reflexivity.
Qed.

Lemma both_row_key l r k :
  mem_str k merge_key_cols = true ->
  dict_get (both_row l r) k = dict_get l k.
Proof.
  intros Hk. unfold both_row. rewrite !dict_get_app.
  rewrite suffixed_get_key by (auto; now left).
  destruct (dict_get l k); auto.
  rewrite suffixed_get_key by (auto; now right).
  rewrite non_key_get_key by exact Hk.
  cbn [dict_get]. destruct (String.eqb "_merge" k) eqn:E; auto.
  apply String.eqb_eq in E. subst. discriminate.
Qed.

Lemma both_row_old l r c :
  mem_str c merge_key_cols = false ->
  dict_get (both_row l r) (c ++ "_old") = dict_get l c.
Proof.
  intros Hc. unfold both_row. rewrite !dict_get_app.
  rewrite suffixed_get_col by (auto; now left).
  destruct (dict_get l c); auto.
  rewrite suffixed_new_get_old. cbn [dict_get].
  destruct (String.eqb "_merge" (c ++ "_old")) eqn:E; auto.
  apply String.eqb_eq in E. symmetry in E.
  apply suffix_not_merge in E; [contradiction | now left].
Qed.

Lemma both_row_new l r c :
  mem_str c merge_key_cols = false ->
  dict_get (both_row l r) (c ++ "_new") = dict_get r c.
Proof.
  intros Hc. unfold both_row. rewrite !dict_get_app.
  rewrite suffixed_old_get_new.
  rewrite suffixed_get_col by (auto; now right).
  rewrite non_key_get by exact Hc.
  destruct (dict_get r c); auto. cbn [dict_get].
  destruct (String.eqb "_merge" (c ++ "_new")) eqn:E; auto.
  apply String.eqb_eq in E. symmetry in E.
  apply suffix_not_merge in E; [contradiction | now right].
Qed.

Lemma shown_notna v : notna v = true -> shown v = v.
Proof. unfold shown. now intros ->. Qed.

(** The two sides of a merged ['both'] row show the cells of the two
    input rows it was made of. *)
Lemma both_row_sides l r c :
  (mem_str c merge_key_cols = true ->
   notna (get l c) = true /\ get r c = get l c) ->
  side_value (both_row l r) "_old" c = shown (get l c)
  /\ side_value (both_row l r) "_new" c = shown (get r c).
Proof.
  intros Hkey. unfold side_value.
  destruct (mem_str c merge_key_cols) eqn:Ec.
  - destruct (Hkey eq_refl) as [Hna E]. rewrite E, shown_notna by exact Hna.
    unfold get. now rewrite both_row_key.
  - cbv zeta. unfold dict_mem, get.
    rewrite both_row_old, both_row_new by exact Ec.
    unfold shown.
    split.
    + destruct (dict_get l c) as [v|]; reflexivity.
    + destruct (dict_get r c) as [v|]; reflexivity.
Qed.

Lemma dict_get_cells (d : dict value) c :
  dict_get (map (fun cv => (fst cv, CVal (snd cv))) d) c
  = option_map CVal (dict_get d c).
Proof.
  induction d as [|[c0 v] t IH]; simpl; auto.
  destruct (String.eqb c0 c); auto.
Qed.

Lemma df_diff_cell (d : dict value) k c :
  c <> "GROUP_KEYS" ->
  cell_get (dict_set (map (fun cv => (fst cv, CVal (snd cv))) d)
                     "GROUP_KEYS" (CKeys k)) c
  = CVal (get d c).
Proof.
  intros Hc. unfold cell_get, get.
  rewrite dict_get_set_other by congruence.
  rewrite dict_get_cells. destruct (dict_get d c); reflexivity.
Qed.

Lemma compare_dicts_version new_num group_max (o n : dict value) :
  NoDup (dict_keys o) ->
  let st := compare_dicts new_num group_max o n in
  get (fst st) "DET_ROW_NUM" = get o "DET_ROW_NUM"
  /\ get (snd st) "DET_ROW_NUM" = get n "DET_ROW_NUM".
Proof.
  intros Hnd. cbv zeta. unfold compare_dicts.
  pose proof (@compare_fold_spec new_num group_max _ Hnd o n "DET_ROW_NUM") as H.
  cbv zeta in H. rewrite String.eqb_refl, andb_false_r in H.
  cbn [negb andb] in H. inversion H. split; reflexivity.
Qed.

(** The DiffPair of a merged ['both'] row, cell by cell. *)
Lemma both_row_frame sub_old sub_new old_num new_num group_max k l r cols :
  columns sub_old = cols -> columns sub_new = cols ->
  (forall c, mem_str c merge_key_cols = true ->
             notna (get l c) = true /\ get r c = get l c) ->
  exists old_row new_row : out_row,
    (let (old_dict, new_dict) :=
       side_dicts sub_old sub_new old_num new_num group_max (both_row l r) in
     df_diff k old_dict new_dict) = [old_row; new_row]
    /\ cell_get old_row "DET_ROW_NUM" = CVal old_num
    /\ cell_get new_row "DET_ROW_NUM" = CVal new_num
    /\ cell_get old_row "GROUP_KEYS" = CKeys k
    /\ cell_get new_row "GROUP_KEYS" = CKeys k
    /\ forall c,
        mem_str c cols = true -> c <> "DET_ROW_NUM" -> c <> "GROUP_KEYS" ->
        (cell_get old_row c, cell_get new_row c)
        = (CVal (fst (compare_cell new_num group_max
                        (shown (get l c)) (shown (get r c)))),
           CVal (snd (compare_cell new_num group_max
                        (shown (get l c)) (shown (get r c))))).
Proof.
  intros Ho Hn Hkey.
  pose proof (both_row_status l r) as Hst.
  pose proof (@side_dicts_both sub_old sub_new old_num new_num group_max _ Hst)
    as Hsd.
  pose proof (@compare_dicts_version new_num group_max
                (build_side_dict (both_row l r) sub_old "_old" old_num)
                (build_side_dict (both_row l r) sub_new "_new" new_num)
                (build_side_dict_NoDup _ _ _ _)) as Hver.
  cbv zeta in Hver. rewrite <- Hsd in Hver.
  assert (Hcell : forall c,
             mem_str c cols = true -> c <> "DET_ROW_NUM" ->
             let st := side_dicts sub_old sub_new old_num new_num group_max
                         (both_row l r) in
             (get (fst st) c, get (snd st) c)
             = compare_cell new_num group_max
                 (shown (get l c)) (shown (get r c))).
  { intros c Hc Hne. cbv zeta.
    pose proof (@side_dicts_both_cell sub_old sub_new old_num new_num group_max
                  (both_row l r) c Hst) as H.
    cbv zeta in H. rewrite H; auto.
    - rewrite !build_side_dict_get.
      apply String.eqb_neq in Hne. rewrite Hne, Ho, Hn, Hc.
      destruct (both_row_sides l r c (Hkey c)) as [-> ->]. reflexivity.
    - rewrite build_side_dict_mem, Ho, Hc. reflexivity.
    - rewrite build_side_dict_mem, Hn, Hc. reflexivity. }
  destruct (side_dicts sub_old sub_new old_num new_num group_max (both_row l r))
    as [od nd] eqn:Est.
  cbn [fst snd] in *. unfold df_diff. do 2 eexists.
  split; [reflexivity|].
  destruct Hver as [Hvo Hvn].
  rewrite !build_side_dict_get, String.eqb_refl in Hvo, Hvn.
  repeat split.
  - rewrite df_diff_cell by discriminate. now rewrite Hvo.
  - rewrite df_diff_cell by discriminate. now rewrite Hvn.
  - unfold cell_get. now rewrite dict_get_set_same.
  - unfold cell_get. now rewrite dict_get_set_same.
  - intros c Hc Hne Hgk. rewrite !df_diff_cell by exact Hgk.
    specialize (Hcell c Hc Hne). cbv zeta in Hcell.
    rewrite <- Hcell. reflexivity.
Qed.

Lemma key_of_get cols a b c :
  key_of cols a = key_of cols b -> In c cols -> get a c = get b c.
Proof.
  unfold key_of. induction cols as [|c0 t IH]; simpl; intros E H;
    [contradiction|].
  inversion E. destruct H as [->|H]; auto.
Qed.

Lemma key_of_notna cols a c :
  forallb notna (key_of cols a) = true -> In c cols -> notna (get a c) = true.
Proof.
  unfold key_of. rewrite forallb_forall. intros H Hc. apply H.
  apply in_map_iff. eauto.
Qed.

Lemma merge_key_in_identity c :
  mem_str c merge_key_cols = true -> In c id_columns.
Proof.
  intros H. apply mem_str_In in H. simpl in H. simpl.
  intuition (subst; auto 20).
Qed.

Lemma py_max_In l : l <> [] -> In (py_max l) l.
Proof.
  destruct l as [|a t]; [congruence|]. intros _. simpl.
  revert a. induction t as [|b t IH]; intros a; simpl; auto.
  destruct (value_leb b a).
  - destruct (IH a) as [H|H]; auto.
  - destruct (IH b) as [H|H]; auto.
Qed.

(** The rows of a group of the sorted table are rows of the table that
    carry the key of the group. *)
Lemma group_row_source df k gd r :
  In (k, gd) (groupby id_columns (sort_values sort_columns df)) ->
  In r (rows gd) ->
  In r (rows df) /\ key_of id_columns r = k.
Proof.
  intros Hg Hr. apply groupby_In in Hg. destruct Hg as (_ & Hrows & _).
  rewrite Hrows in Hr. apply filter_In in Hr. destruct Hr as [Hr E].
  apply tuple_eqb_eq in E. split; auto.
  now apply sort_values_rows_In in Hr.
Qed.

Lemma group_row_member df k gd r :
  In (k, gd) (groupby id_columns (sort_values sort_columns df)) ->
  In r (rows df) -> key_of id_columns r = k ->
  In r (rows gd).
Proof.
  intros Hg Hr E. apply groupby_In in Hg. destruct Hg as (_ & Hrows & _).
  rewrite Hrows. apply filter_In. split.
  - now apply sort_values_rows_In.
  - now apply tuple_eqb_eq.
Qed.

(** A DiffPair of a group: the two input rows behind it and its
    cells. *)
Lemma group_frame_cells df k gd frame :
  (forall r, In r (rows df) -> notna (get r "DET_ROW_NUM") = true) ->
  In (k, gd) (groupby id_columns (sort_values sort_columns df)) ->
  In frame (process_group (k, gd)) ->
  let nums := unique_nums (sort_values ["DET_ROW_NUM"] gd) in
  exists (l r : Series) (old_row new_row : out_row),
    In l (rows gd) /\ In r (rows gd)
    /\ In (get l "DET_ROW_NUM", get r "DET_ROW_NUM") (version_pairs nums)
    /\ frame = [old_row; new_row]
    /\ cell_get old_row "DET_ROW_NUM" = CVal (get l "DET_ROW_NUM")
    /\ cell_get new_row "DET_ROW_NUM" = CVal (get r "DET_ROW_NUM")
    /\ cell_get old_row "GROUP_KEYS" = CKeys k
    /\ cell_get new_row "GROUP_KEYS" = CKeys k
    /\ forall c,
        mem_str c (columns df) = true ->
        c <> "DET_ROW_NUM" -> c <> "GROUP_KEYS" ->
        (cell_get old_row c, cell_get new_row c)
        = (CVal (fst (compare_cell (get r "DET_ROW_NUM") (py_max nums)
                        (shown (get l c)) (shown (get r c)))),
           CVal (snd (compare_cell (get r "DET_ROW_NUM") (py_max nums)
                        (shown (get l c)) (shown (get r c))))).
Proof.
  intros Hna Hg Hf nums.
  assert (Hgna : forall r, In r (rows gd) ->
                           notna (get r "DET_ROW_NUM") = true).
  { intros r Hr. apply Hna. eapply group_row_source; eauto. }
  unfold process_group in Hf. fold nums in Hf.
  apply in_flat_map in Hf. destruct Hf as ([old_num new_num] & Hp & Hf).
  cbn [fst snd] in Hf.
  pose proof (version_pairs_In _ _ _ Hp) as [Ho Hn].
  pose proof (@group_pair_all_both _ k gd old_num new_num Hg Hgna Ho Hn) as Hm.
  cbv zeta in Hm. unfold process_pair in Hf. rewrite Hm in Hf.
  apply in_map_iff in Hf. destruct Hf as (row & Ef & Hrow).
  apply in_flat_map in Hrow. destruct Hrow as (l & Hl & Hrow).
  apply in_map_iff in Hrow. destruct Hrow as (r & <- & Hr).
  assert (Nao : notna old_num = true).
  { apply unique_nums_In in Ho. destruct Ho as (x & Hx & <-).
    apply Hgna. now apply sort_values_rows_In in Hx. }
  assert (Nan : notna new_num = true).
  { apply unique_nums_In in Hn. destruct Hn as (x & Hx & <-).
    apply Hgna. now apply sort_values_rows_In in Hx. }
  apply select_eq_In in Hl; auto. destruct Hl as [Hl El].
  apply select_eq_In in Hr; auto. destruct Hr as [Hr Er].
  apply sort_values_rows_In in Hl, Hr.
  destruct (group_row_source _ _ _ _ Hg Hl) as [_ Kl].
  destruct (group_row_source _ _ _ _ Hg Hr) as [_ Kr].
  assert (Hk : forallb notna k = true).
  { apply groupby_In in Hg. tauto. }
  assert (Hcols : columns gd = columns df).
  { apply groupby_In in Hg. destruct Hg as (E & _). exact E. }
  destruct (@both_row_frame
              (select_eq "DET_ROW_NUM" old_num (sort_values ["DET_ROW_NUM"] gd))
              (select_eq "DET_ROW_NUM" new_num (sort_values ["DET_ROW_NUM"] gd))
              old_num new_num (py_max nums) k l r (columns df))
    as (old_row & new_row & Efr & H1 & H2 & H3 & H4 & H5); auto.
  { intros c Hc. apply merge_key_in_identity in Hc. split.
    - apply key_of_notna with (cols := id_columns); auto. now rewrite Kl.
    - apply key_of_get with (cols := id_columns); auto. congruence. }
  exists l, r, old_row, new_row. rewrite El, Er.
  repeat split; auto. now rewrite <- Ef, <- Efr.
Qed.

Lemma version_pairs_lt nums a b :
  StronglySorted value_lt nums -> In (a, b) (version_pairs nums) ->
  value_lt a b.
Proof.
  induction 1 as [|a0 t Hs IH Hall]; [contradiction|].
  destruct t as [|b0 t]; [contradiction|].
  cbn [version_pairs]. intros [E|H].
  - inversion E; subst. rewrite Forall_forall in Hall.
    apply Hall. now left.
  - now apply IH.
Qed.

(** The two input rows behind a DiffPair. *)
Lemma diffpair_rows df frame :
  (forall r, In r (rows df) -> notna (get r "DET_ROW_NUM") = true) ->
  In frame (differences_list df) ->
  exists (l r : Series) (old_row new_row : out_row) (group_max : value),
    In l (rows df) /\ In r (rows df)
    /\ key_of id_columns r = key_of id_columns l
    /\ forallb notna (key_of id_columns l) = true
    /\ frame = [old_row; new_row]
    /\ cell_get old_row "GROUP_KEYS" = CKeys (key_of id_columns l)
    /\ cell_get new_row "GROUP_KEYS" = CKeys (key_of id_columns l)
    /\ (forall c,
          mem_str c (columns df) = true ->
          c <> "DET_ROW_NUM" -> c <> "GROUP_KEYS" ->
          (cell_get old_row c, cell_get new_row c)
          = (CVal (fst (compare_cell (get r "DET_ROW_NUM") group_max
                          (shown (get l c)) (shown (get r c)))),
             CVal (snd (compare_cell (get r "DET_ROW_NUM") group_max
                          (shown (get l c)) (shown (get r c))))))
    /\ value_lt (get l "DET_ROW_NUM") (get r "DET_ROW_NUM").
Proof.
  intros Hna Hf. unfold differences_list in Hf.
  apply in_flat_map in Hf. destruct Hf as ([k gd] & Hg & Hf).
  destruct (@group_frame_cells df k gd frame Hna Hg Hf)
    as (l & r & old_row & new_row & Hl & Hr & Hp & E & H1 & H2 & H3 & H4 & H5).
  destruct (group_row_source _ _ _ _ Hg Hl) as [Il Kl].
  destruct (group_row_source _ _ _ _ Hg Hr) as [Ir Kr].
  assert (Hk : forallb notna k = true).
  { apply groupby_In in Hg. tauto. }
  exists l, r, old_row, new_row,
    (py_max (unique_nums (sort_values ["DET_ROW_NUM"] gd))).
  rewrite Kl. repeat split; auto.
  - eapply version_pairs_lt; eauto. apply unique_nums_strict.
  - eapply version_pairs_lt; eauto. apply unique_nums_strict.
Qed.



(* ------------------------------------------------------------------ *)
(** ** Identity columns of the returned table *)

Lemma cell_get_present (row : out_row) c :
  cell_get row c <> CVal VNaN -> mem_str c (dict_keys row) = true.
Proof.
  unfold cell_get. rewrite <- dict_mem_keys. unfold dict_mem.
  destruct (dict_get row c); [reflexivity|congruence].
Qed.

(** A cell of the returned table is the cell of a concatenated row,
    under every label of that row that is not a temporary sort label. *)
Lemma all_diffs_df_row frames row :
  In row (out_rows (all_diffs_df frames)) ->
  exists row0,
    In row0 (List.concat frames)
    /\ forall c,
        mem_str c (dict_keys row0) = true ->
        mem_str c clean_labels = false ->
        cell_get row c = cell_get row0 c.
Proof.
  rewrite all_diffs_df_rows. cbv zeta. intros H.
  apply in_map_iff in H. destruct H as (r1 & <- & H).
  apply (Permutation_in _ (sort_by_perm _ _)) in H.
  apply in_map_iff in H. destruct H as (row0 & <- & H).
  exists row0. split; auto. intros c Hk Hclean.
  assert (Hcols : mem_str c (out_columns (concat_frames frames)) = true).
  { apply mem_str_In. unfold concat_frames. cbn [out_columns].
    apply (proj2 (@unique_In _ _ String.eqb_eq _ _)).
    apply in_flat_map. exists row0. split; auto. now apply mem_str_In. }
  assert (Hsc : mem_str c (sort_cols_clean (out_columns (concat_frames frames)))
                = false).
  { destruct (mem_str c (sort_cols_clean
                           (out_columns (concat_frames frames)))) eqn:E; auto.
    apply sort_cols_clean_labels in E. congruence. }
  assert (Hkept : mem_str c (out_columns (sort_clean (concat_frames frames)))
                  = true).
  { unfold sort_clean. cbn [out_columns].
    rewrite mem_str_filter, Hcols, Hsc. reflexivity. }
  rewrite !align_cell_get; auto.
  unfold all_diffs_df, reorder. cbn [out_columns].
  rewrite mem_str_app, mem_str_filter, Hkept.
  destruct (mem_str c desired_order); reflexivity.
Qed.

Lemma compare_cell_same new_num group_max v :
  notna v = true -> compare_cell new_num group_max v v = (v, v).
Proof.
  intros Hv. unfold compare_cell. rewrite andb_negb_r.
  assert (py_ne v v = false) as -> by now apply py_ne_notna.
  reflexivity.
Qed.

Lemma identity_labels c :
  In c id_columns ->
  c <> "DET_ROW_NUM" /\ c <> "GROUP_KEYS" /\ mem_str c clean_labels = false.
Proof.
  intros H.
  assert (F : forallb (fun c => negb (String.eqb c "DET_ROW_NUM")
                                && negb (String.eqb c "GROUP_KEYS")
                                && negb (mem_str c clean_labels))
                      id_columns = true) by (vm_compute; reflexivity).
  rewrite forallb_forall in F. specialize (F c H).
  apply andb_true_iff in F. destruct F as [F F3].
  apply andb_true_iff in F. destruct F as [F1 F2].
  rewrite negb_true_iff in F1, F2, F3.
  apply String.eqb_neq in F1, F2. auto.
Qed.



(* ------------------------------------------------------------------ *)
(** ** When the method reports differences *)

Lemma groupby_member df k r :
  In r (rows df) -> key_of id_columns r = k -> forallb notna k = true ->
  exists gd, In (k, gd) (groupby id_columns df) /\ In r (rows gd).
Proof.
  intros Hr E Hk. unfold groupby.
  eexists. split.
  - apply in_map_iff. exists k. split; [reflexivity|].
    apply (Permutation_in _ (Permutation_sym (sort_by_perm tuple_leb _))).
    apply (proj2 (@unique_In _ _ tuple_eqb_eq _ _)).
    apply filter_In. split; auto. apply in_map_iff. eauto.
  - cbn [rows]. apply filter_In. split; auto. now apply tuple_eqb_eq.
Qed.

Lemma two_versions_pair nums a b :
  NoDup nums -> In a nums -> In b nums -> a <> b ->
  exists p, In p (version_pairs nums).
Proof.
  intros Hnd Ha Hb Hab. destruct nums as [|x [|y t]].
  - contradiction.
  - destruct Ha as [<-|[]], Hb as [<-|[]]. congruence.
  - exists (x, y). now left.
Qed.

Lemma strict_NoDup l : StronglySorted value_lt l -> NoDup l.
Proof.
  induction 1 as [|a t Hs IH Hall]; constructor; auto.
  rewrite Forall_forall in Hall. intros Hin.
  destruct (Hall a Hin) as [_ Hne]. congruence.
Qed.

(** Two rows of one identity with different versions give rise to a
    DiffPair. *)
Lemma two_versions_differences df l r :
  (forall x, In x (rows df) -> notna (get x "DET_ROW_NUM") = true) ->
  In l (rows df) -> In r (rows df) ->
  key_of id_columns r = key_of id_columns l ->
  forallb notna (key_of id_columns l) = true ->
  get l "DET_ROW_NUM" <> get r "DET_ROW_NUM" ->
  differences_list df <> [].
Proof.
  intros Hna Hl Hr Kr Hk Hne.
  destruct (@groupby_member (sort_values sort_columns df)
              (key_of id_columns l) l) as (gd & Hg & Hlg); auto.
  { now apply sort_values_rows_In. }
  assert (Hrg : In r (rows gd)) by (eapply group_row_member; eauto).
  assert (Hgna : forall x, In x (rows gd) ->
                           notna (get x "DET_ROW_NUM") = true).
  { intros x Hx. apply Hna. eapply group_row_source; eauto. }
  set (gs := sort_values ["DET_ROW_NUM"] gd).
  assert (Hvl : In (get l "DET_ROW_NUM") (unique_nums gs)).
  { apply unique_nums_In. exists l. split; auto.
    now apply sort_values_rows_In. }
  assert (Hvr : In (get r "DET_ROW_NUM") (unique_nums gs)).
  { apply unique_nums_In. exists r. split; auto.
    now apply sort_values_rows_In. }
  destruct (@two_versions_pair (unique_nums gs) _ _
              (strict_NoDup (unique_nums_strict gs)) Hvl Hvr Hne)
    as ([a b] & Hp).
  pose proof (version_pairs_In _ _ _ Hp) as [Ha Hb].
  pose proof (@group_pair_length _ _ gd a b (py_max (unique_nums gs))
                Hg Hgna Ha Hb) as Hlen.
  cbv zeta in Hlen. fold gs in Hlen.
  assert (Hcount : forall v, In v (unique_nums gs) ->
            List.length (rows (select_eq "DET_ROW_NUM" v gs)) <> 0).
  { intros v Hv. apply unique_nums_In in Hv. destruct Hv as (x & Hx & Ex).
    assert (In x (rows (select_eq "DET_ROW_NUM" v gs))) as Hin.
    { apply select_eq_In; auto. rewrite <- Ex. apply Hgna.
      now apply sort_values_rows_In in Hx. }
    destruct (rows (select_eq "DET_ROW_NUM" v gs)); [contradiction|].
    discriminate. }
  assert (Hpair : process_pair (key_of id_columns l) gs
                    (py_max (unique_nums gs)) a b <> []).
  { intros E. rewrite E in Hlen. cbn [List.length] in Hlen.
    pose proof (Hcount a Ha). pose proof (Hcount b Hb). nia. }
  intros E. unfold differences_list in E.
  assert (Hgroup : process_group (key_of id_columns l, gd) = []).
  { destruct (process_group (key_of id_columns l, gd)) as [|f fs] eqn:Eg; auto.
    assert (In f (flat_map process_group
                    (groupby id_columns (sort_values sort_columns df)))) as Hin.
    { apply in_flat_map. exists (key_of id_columns l, gd). split; auto.
      rewrite Eg. now left. }
    rewrite E in Hin. contradiction. }
  unfold process_group in Hgroup. fold gs in Hgroup.
  destruct (process_pair (key_of id_columns l) gs (py_max (unique_nums gs)) a b)
    as [|f fs] eqn:Ep; [congruence|].
  assert (In f (flat_map
                  (fun p => process_pair (key_of id_columns l) gs
                              (py_max (unique_nums gs)) (fst p) (snd p))
                  (version_pairs (unique_nums gs)))) as Hin.
  { apply in_flat_map. exists (a, b). split; auto. cbn [fst snd].
    rewrite Ep. now left. }
  rewrite Hgroup in Hin. contradiction.
Qed.



(* ------------------------------------------------------------------ *)
(** ** Rows with a null in an identity column *)

Section FilterSort.
Variable A : Type.
Variable leb : A -> A -> bool.
Hypothesis leb_total : forall x y, leb x y = true \/ leb y x = true.
Hypothesis leb_trans :
  forall x y z, leb x y = true -> leb y z = true -> leb x z = true.
Variable f : A -> bool.

Lemma insert_by_head x l :
  (forall y, In y l -> leb x y = true) -> insert_by leb x l = x :: l.
Proof.
  destruct l as [|y t]; auto. intros H. simpl.
  now rewrite (H y (or_introl eq_refl)).
Qed.

Lemma filter_insert_by x l :
  StronglySorted (fun a b => leb a b = true) l ->
  filter f (insert_by leb x l)
  = if f x then insert_by leb x (filter f l) else filter f l.
Proof.
  induction 1 as [|y t Hs IH Hall]; simpl.
  - destruct (f x); reflexivity.
  - destruct (leb x y) eqn:E.
    + cbn [filter]. destruct (f x) eqn:Ex; auto.
      symmetry. apply insert_by_head. intros z Hz.
      assert (In z (y :: t)) as Hin.
      { destruct (f y); [|now right; apply filter_In in Hz].
        destruct Hz as [<-|Hz]; [now left|].
        right. now apply filter_In in Hz. }
      destruct Hin as [<-|Hin]; auto.
      rewrite Forall_forall in Hall. eapply leb_trans; eauto.
    + cbn [filter]. rewrite IH.
      destruct (f y) eqn:Ey, (f x) eqn:Ex; auto.
      simpl. now rewrite E.
Qed.

Lemma filter_sort_by l :
  filter f (sort_by leb l) = sort_by leb (filter f l).
Proof.
  induction l as [|x t IH]; auto.
  cbn [sort_by fold_right]. fold (sort_by leb t).
  rewrite filter_insert_by by (apply sort_by_sorted; auto).
  cbn [filter]. destruct (f x); rewrite IH; reflexivity.
Qed.
End FilterSort.

Lemma filter_map_filter (A B : Type) (p : B -> bool) (g : A -> B) l :
  filter p (map g (filter (fun x => p (g x)) l)) = filter p (map g l).
Proof.
  induction l as [|x t IH]; auto. simpl.
  destruct (p (g x)) eqn:E; simpl; rewrite ?E, IH; reflexivity.
Qed.

Lemma tuple_eqb_notna a k :
  tuple_eqb a k = true -> forallb notna k = true -> forallb notna a = true.
Proof. intros E Hk. apply tuple_eqb_eq in E. now subst. Qed.

Lemma groupby_dropna rows0 cols :
  groupby id_columns
    (mkDataFrame cols
       (filter (fun r => forallb notna (key_of id_columns r)) rows0))
  = groupby id_columns (mkDataFrame cols rows0).
Proof.
  unfold groupby. cbn [rows columns].
  rewrite (filter_map_filter (forallb notna) (key_of id_columns)).
  apply map_ext_in. intros k Hk. f_equal. f_equal.
  apply (Permutation_in _ (sort_by_perm tuple_leb _)) in Hk.
  apply (proj1 (@unique_In _ _ tuple_eqb_eq _ _)) in Hk.
  apply filter_In in Hk. destruct Hk as [_ Hk].
  induction rows0 as [|r t IH]; auto. cbn [filter].
  destruct (forallb notna (key_of id_columns r)) eqn:E; cbn [filter].
  - rewrite IH. reflexivity.
  - destruct (tuple_eqb (key_of id_columns r) k) eqn:E'; auto.
    rewrite (tuple_eqb_notna _ _ E' Hk) in E. discriminate.
Qed.

Lemma differences_list_dropna df :
  differences_list (dropna_identity df) = differences_list df.
Proof.
  unfold differences_list, dropna_identity, sort_values. cbn [rows columns].
  rewrite <- (@filter_sort_by _ _ (rows_leb_total sort_columns)
                (rows_leb_trans sort_columns)).
  now rewrite groupby_dropna.
Qed.


(* ------------------------------------------------------------------ *)
(** ** The log buffer *)

Lemma keeps_state_ret J (A : Type) (a : A) : keeps_state J (ret a).
Proof. intros s Hs. exact Hs. Qed.

Lemma keeps_state_bind J (A B : Type) (m : M A) (f : A -> M B) :
  keeps_state J m -> (forall a, keeps_state J (f a)) ->
  keeps_state J (bind m f).
Proof.
  intros Hm Hf s Hs. unfold bind. specialize (Hm s Hs).
  destruct (m s) as [a s']. apply Hf. exact Hm.
Qed.

Lemma keeps_state_for_each J (A : Type) (l : list A) (body : A -> M unit) :
  (forall x, keeps_state J (body x)) -> keeps_state J (for_each l body).
Proof.
  intros H. induction l as [|x t IH]; simpl.
  - apply keeps_state_ret.
  - apply keeps_state_bind; auto.
Qed.

Lemma logger_length strftime message level s :
  List.length (_logs (snd (_logger strftime message level s)))
  = if Nat.ltb 1000 (List.length (_logs s)) then List.length (_logs s)
    else S (List.length (_logs s)).
Proof.
  unfold _logger, bind, now, print. cbn [fst snd _logs].
  rewrite length_app. cbn [List.length].
  destruct (Nat.ltb 1000 (List.length (_logs s))) eqn:E.
  - apply Nat.ltb_lt in E. destruct (_logs s); simpl in *; lia.
  - lia.
Qed.

Lemma logger_bounded strftime message level :
  keeps_state logs_bounded (_logger strftime message level).
Proof.
  intros s Hs. unfold logs_bounded in *. rewrite logger_length.
  destruct (Nat.ltb 1000 (List.length (_logs s))) eqn:E; auto.
  apply Nat.ltb_ge in E. lia.
Qed.

Lemma print_bounded e : keeps_state logs_bounded (print e).
Proof. intros s Hs. exact Hs. Qed.

Lemma date_bounded strftime fmt :
  keeps_state logs_bounded (_get_date_str strftime fmt).
Proof. intros s Hs. exact Hs. Qed.

Lemma to_excel_bounded path t : keeps_state logs_bounded (to_excel path t).
Proof.
  intros s Hs. unfold to_excel. destruct (disk_fails s); exact Hs.
Qed.

Lemma write_xlsx_bounded strftime path_join exc_text df :
  keeps_state logs_bounded (_write_xlsx strftime path_join exc_text df).
Proof.
  intros s Hs. unfold _write_xlsx. cbv beta.
  match goal with
  | |- logs_bounded (snd (?m s)) =>
      refine ((_ : keeps_state logs_bounded m) s Hs)
  end.
  repeat (apply keeps_state_bind; [|intro]);
    try apply date_bounded.
  destruct df.
  - apply keeps_state_bind; [apply to_excel_bounded|].
    intros [|]; apply logger_bounded.
  - apply logger_bounded.
Qed.

Lemma comparator_bounded strftime path_join exc_text df :
  keeps_state logs_bounded
    (_comparator_two_sided_merge strftime path_join exc_text df).
Proof.
  unfold _comparator_two_sided_merge.
  repeat (apply keeps_state_bind; [apply print_bounded | intro]).
  destruct (negb (has_columns sort_columns df)); [apply keeps_state_ret|].
  destruct (negb (has_columns id_columns df)); [apply keeps_state_ret|].
  apply keeps_state_bind.
  { apply keeps_state_for_each. intros g. apply print_bounded. }
  intros _.
  destruct (flat_map process_group _).
  - apply keeps_state_bind; [apply print_bounded | intro].
    apply keeps_state_ret.
  - apply keeps_state_bind; [apply write_xlsx_bounded | intro].
    apply keeps_state_bind; [|intro; apply keeps_state_ret].
    intros s Hs. exact Hs.
Qed.

(* ------------------------------------------------------------------ *)
(** ** What the methods keep of the object *)

Create HintDb keeps_db.

Section ProgramInvariant.
Variable strftime : string -> nat -> string.
Variable path_join : string -> string -> string.
Variable exc_text : string.
Variable driver : list db_call -> db_call -> db_reply.
Variable open_fails : nat -> string -> option exn.
Variable script_file_at : string -> file_read.
Variable sqlparse_format : string -> string.
Variable sqlparse_split : string -> list string.
Variable elapsed_text : nat -> nat -> string.
Variable re_template : string -> res string.

Variable J : State -> Prop.
Variable C : bool -> Prop.
Hypothesis J_logger :
  forall message level, keeps_state J (_logger strftime message level).
Hypothesis J_print : forall e, keeps_state J (print e).
Hypothesis J_date : forall fmt, keeps_state J (_get_date_str strftime fmt).
Hypothesis J_clock :
  forall s, J s ->
            J (mkState (_customer_number s) (_xlsx_path s) (_logs s)
                 (S (clock s)) (stdout s) (files s) (disk_fails s)).
Hypothesis J_comparator :
  forall df,
    keeps_state J (_comparator_two_sided_merge strftime path_join exc_text df).

Local Notation "'Inv'" := (session_and_connection J C).

Lemma keeps_pret (A : Type) (a : A) : keeps Inv (pret a).
Proof. intros o Ho. exact Ho. Qed.

Lemma keeps_raise (A : Type) (e : exn) : keeps Inv (@raise A e).
Proof. intros o Ho. exact Ho. Qed.

Lemma keeps_pbind (A B : Type) (m : Prog A) (f : A -> Prog B) :
  keeps Inv m -> (forall a, keeps Inv (f a)) -> keeps Inv (pbind m f).
Proof.
  intros Hm Hf o Ho. unfold pbind. specialize (Hm o Ho).
  destruct (m o) as [[a|e] o']; auto. apply Hf. exact Hm.
Qed.

Lemma keeps_handle_nil (A : Type) (e : exn) :
  keeps Inv (@handle A [] e).
Proof. apply keeps_raise. Qed.

Lemma keeps_handle_cons (A : Type) classes (handler : exn -> Prog A) rest e :
  keeps Inv (handler e) -> keeps Inv (handle rest e) ->
  keeps Inv (handle ((classes, handler) :: rest) e).
Proof. intros H1 H2. cbn [handle]. destruct (caught_by e classes); auto. Qed.

Lemma keeps_try_except (A : Type) (body : Prog A) handlers :
  keeps Inv body -> (forall e, keeps Inv (handle handlers e)) ->
  keeps Inv (try_except body handlers).
Proof.
  intros Hb Hh o Ho. unfold try_except. specialize (Hb o Ho).
  destruct (body o) as [[a|e] o']; auto. apply Hh. exact Hb.
Qed.

Lemma keeps_try_finally (A : Type) (body : Prog A) final :
  keeps Inv body -> keeps Inv final -> keeps Inv (try_finally body final).
Proof.
  intros Hb Hf o Ho. unfold try_finally. specialize (Hb o Ho).
  destruct (body o) as [r o1]. specialize (Hf o1 Hb).
  destruct (final o1) as [[u|e] o2]; exact Hf.
Qed.

Lemma keeps_lift (A : Type) (m : M A) : keeps_state J m -> keeps Inv (lift m).
Proof.
  intros Hm o [Hj Hc]. unfold lift. specialize (Hm _ Hj).
  destruct (m (session o)) as [a s]. split; assumption.
Qed.

Lemma keeps_set_connection c : C c -> keeps Inv (set_connection c).
Proof. intros Hc o [Hj _]. split; assumption. Qed.

Lemma keeps_sleep seconds : keeps Inv (sleep seconds).
Proof. intros o Ho. exact Ho. Qed.

Lemma keeps_db_do c : keeps Inv (db_do driver c).
Proof.
  intros o Ho. unfold db_do. destruct (driver (db_trace o) c); exact Ho.
Qed.

Lemma keeps_append_text path text :
  keeps Inv (append_text open_fails path text).
Proof.
  intros o Ho. unfold append_text.
  destruct (open_fails (opens o) path); exact Ho.
Qed.

Lemma keeps_write_frame path df : keeps Inv (write_frame exc_text path df).
Proof.
  intros o Ho. unfold write_frame. destruct (disk_fails (session o)); exact Ho.
Qed.

Lemma keeps_logger message : keeps Inv (logger strftime message).
Proof. apply keeps_lift, J_logger. Qed.

Lemma keeps_console line : keeps Inv (console line).
Proof. apply keeps_lift, J_print. Qed.

Lemma keeps_date fmt : keeps Inv (lift (_get_date_str strftime fmt)).
Proof. apply keeps_lift, J_date. Qed.

Lemma keeps_time_time : keeps Inv time_time.
Proof. apply keeps_lift. intros s Hs. apply J_clock. exact Hs. Qed.

Lemma keeps_with_cursor (A : Type) (body : Prog A) :
  keeps Inv body -> keeps Inv (with_cursor driver body).
Proof.
  intros Hb. unfold with_cursor. apply keeps_pbind; [apply keeps_db_do|].
  intros _ o Ho. specialize (Hb o Ho). destruct (body o) as [[a|e] o1];
    cbn [snd] in Hb.
  - pose proof (keeps_db_do (ExitCursor false) Hb) as H.
    destruct (db_do driver (ExitCursor false) o1) as [[u|e] o2]; exact H.
  - pose proof (keeps_db_do (ExitCursor true) Hb) as H.
    destruct (db_do driver (ExitCursor true) o1) as [[u|e'] o2]; exact H.
Qed.

#[local] Hint Resolve keeps_pret keeps_raise keeps_sleep keeps_db_do
  keeps_append_text keeps_write_frame keeps_logger keeps_console keeps_date
  keeps_time_time keeps_handle_nil : keeps_db.

(** One step of a proof that a method keeps the property: the
    combinators are taken apart, a test is decided, a call is left to
    the lemma of the method called. *)
Ltac keeps_step :=
  match goal with
  | |- keeps _ (pbind _ _) => apply keeps_pbind; [ | intro ]
  | |- keeps _ (try_except _ _) => apply keeps_try_except; [ | intro ]
  | |- keeps _ (handle (_ :: _) _) => apply keeps_handle_cons
  | |- keeps _ (try_finally _ _) => apply keeps_try_finally
  | |- keeps _ (with_cursor _ _) => apply keeps_with_cursor
  | |- keeps _ (if ?b then _ else _) => destruct b
  | |- keeps _ (match ?x with _ => _ end) => destruct x
  | |- keeps _ (fun o => _) =>
      let o := fresh "o" in
      let Ho := fresh "Ho" in
      intros o Ho; cbv beta zeta
  | Ho : ?I ?o |- ?I (snd (if ?b then _ else _)) => destruct b
  | Ho : ?I ?o |- ?I (snd (match ?x with _ => _ end)) => destruct x
  | Ho : ?I ?o |- ?I (snd (_, ?o)) => exact Ho
  | Ho : ?I ?o |- ?I (snd (?m ?o)) => refine ((_ : keeps I m) o Ho)
  | |- _ => solve [auto with keeps_db]
  end.

Ltac keeps_tac := repeat keeps_step.

Lemma keeps_write_attempts log_file_path max_attempts retry_delay
      remaining attempt :
  keeps Inv (write_attempts strftime open_fails log_file_path max_attempts
               retry_delay remaining attempt).
Proof.
  revert attempt. induction remaining as [|n IH]; intros attempt.
  - apply keeps_pret.
  - cbn [write_attempts]. intros o Ho.
    pose proof (@keeps_append_text log_file_path
                  (log_lines (last_n 500 (_logs (session o)))) o Ho) as H.
    destruct (append_text open_fails log_file_path _ o) as [[u|e] o1].
    + apply keeps_logger. exact H.
    + destruct (caught_by e [PermissionError; OSError]); [|exact H].
      revert H. generalize o1. change (keeps Inv
        (logger strftime
           ("Attempt " ++ str_nat attempt ++ "/" ++ str_nat max_attempts
              ++ ": Failed to write logs: " ++ exn_text e) >>
         (if Nat.ltb attempt max_attempts then sleep retry_delay
          else
            console "CRITICAL: Could not write logs. Dumping to console:" >>
            (fun o2 =>
               lift (for_each (last_n 100 (_logs (session o2)))
                              (fun log_entry => print (Print log_entry)))
                    o2)) >>
         write_attempts strftime open_fails log_file_path max_attempts
           retry_delay n (S attempt))).
      keeps_tac. apply keeps_lift, keeps_state_for_each. intros x. apply J_print.
Qed.

Lemma keeps_write_logs max_attempts retry_delay :
  keeps Inv (_write_logs strftime path_join open_fails max_attempts retry_delay).
Proof.
  unfold _write_logs. keeps_tac. apply keeps_write_attempts.
Qed.

Lemma keeps_exit_program :
  keeps Inv (_exit_program strftime path_join open_fails).
Proof.
  unfold _exit_program. keeps_tac. apply keeps_write_logs.
Qed.

Lemma keeps_log_error message : keeps Inv (_log_error strftime message).
Proof. unfold _log_error. keeps_tac. Qed.

Lemma keeps_log_failed_statements failed_statements script_path :
  keeps Inv (_log_failed_statements strftime path_join open_fails
               failed_statements script_path).
Proof. unfold _log_failed_statements. keeps_tac. Qed.

#[local] Hint Resolve keeps_write_logs keeps_exit_program keeps_log_error
  keeps_log_failed_statements : keeps_db.

Lemma keeps_run_statements statements :
  forall index executed failed failed_statements,
    keeps Inv (run_statements strftime driver statements index executed failed
                 failed_statements).
Proof.
  induction statements as [|statement rest IH]; intros; cbn [run_statements].
  - apply keeps_pret.
  - unfold try_statement. keeps_tac; apply IH.
Qed.

#[local] Hint Resolve keeps_run_statements : keeps_db.

Lemma keeps_execute_sql_statements sql_statements script_path :
  keeps Inv (_execute_sql_statements strftime path_join driver open_fails
               sql_statements script_path).
Proof. unfold _execute_sql_statements. keeps_tac. Qed.

Lemma keeps_replace_sql_parameters sql_script :
  keeps Inv (_replace_sql_parameters re_template sql_script).
Proof. unfold _replace_sql_parameters. keeps_tac. Qed.

#[local] Hint Resolve keeps_execute_sql_statements
  keeps_replace_sql_parameters : keeps_db.

Lemma keeps_create_tables :
  keeps Inv (_create_tables strftime path_join driver open_fails
               script_file_at sqlparse_format sqlparse_split elapsed_text
               re_template).
Proof. unfold _create_tables. keeps_tac. Qed.

Lemma keeps_execute_final_sql final_table :
  keeps Inv (_execute_final_sql strftime driver final_table).
Proof. unfold _execute_final_sql. keeps_tac. Qed.

Lemma keeps_write_parquet df :
  keeps Inv (_write_parquet strftime path_join exc_text df).
Proof. unfold _write_parquet. keeps_tac. Qed.

Lemma keeps_write_xlsx_frame df :
  keeps Inv (_write_xlsx_frame strftime path_join exc_text df).
Proof. unfold _write_xlsx_frame. keeps_tac. Qed.

Lemma keeps_comparator df :
  keeps Inv (comparator strftime path_join exc_text df).
Proof.
  intros o [Hj Hc]. unfold comparator.
  pose proof (J_comparator df Hj) as H.
  destruct (_comparator_two_sided_merge strftime path_join exc_text df
              (session o)) as [[r|exc] s]; split; assumption.
Qed.

#[local] Hint Resolve keeps_create_tables keeps_execute_final_sql
  keeps_write_parquet keeps_write_xlsx_frame keeps_comparator : keeps_db.

Lemma keeps_open_connection :
  C true -> keeps Inv (_open_connection strftime driver).
Proof.
  intros Ht. unfold _open_connection. keeps_tac;
    apply keeps_set_connection; exact Ht.
Qed.

Lemma keeps_close_connection :
  C false -> keeps Inv (_close_connection strftime driver).
Proof.
  intros Hf. unfold _close_connection. keeps_tac.
  apply keeps_set_connection; exact Hf.
Qed.

(** The part of [run] that follows the opening of the connection. *)
Lemma keeps_run_body_after_open :
  keeps Inv
    (create_tables <--
       _create_tables strftime path_join driver open_fails script_file_at
         sqlparse_format sqlparse_split elapsed_text re_template ;;
     if negb (contains "SUCCESS" create_tables) then
       logger strftime "ERROR: FAILED to create temp tables." >>
       pret (Some false)
     else
       result_df <-- _execute_final_sql strftime driver "#FINAL" ;;
       if negb (df_empty result_df) then
         fun o =>
           if String.eqb (_db_type (attributes o)) "TERA"
              && customer_is o "ALL_CHECK" then
             (_write_parquet strftime path_join exc_text result_df >>
              comparator strftime path_join exc_text result_df >>
              pret (Some true)) o
           else if String.eqb (_db_type (attributes o)) "TERA"
                   && ((negb (customer_is_int (attributes o))
                        && isdigit (_customer_number (session o)))
                       || customer_is_int (attributes o)) then
             (_write_xlsx_frame strftime path_join exc_text result_df >>
              comparator strftime path_join exc_text result_df >>
              pret (Some true)) o
           else (Ok None, o)
       else
         logger strftime "WARNING: Empty DataFrame;" >> pret (Some false)).
Proof. keeps_tac. Qed.

Lemma keeps_run :
  C true -> C false ->
  keeps Inv (run strftime path_join exc_text driver open_fails script_file_at
               sqlparse_format sqlparse_split elapsed_text re_template).
Proof.
  intros Ht Hf. unfold run.
  apply keeps_try_finally.
  - apply keeps_try_except.
    + apply keeps_pbind; [apply keeps_logger|]. intros _.
      apply keeps_pbind; [apply keeps_open_connection; exact Ht|].
      intros opened. destruct (negb opened).
      * keeps_tac.
      * apply keeps_run_body_after_open.
    + intros e. keeps_tac.
  - keeps_tac. apply keeps_close_connection. exact Hf.
Qed.
End ProgramInvariant.

(* ------------------------------------------------------------------ *)
(** ** How [run] ends *)

Lemma pbind_ok (A B : Type) (m : Prog A) (f : A -> Prog B) o b o' :
  pbind m f o = (Ok b, o') ->
  exists a o1, m o = (Ok a, o1) /\ f a o1 = (Ok b, o').
Proof.
  unfold pbind. destruct (m o) as [[a|e] o1]; intros H.
  - eauto.
  - discriminate.
Qed.

Lemma try_except_ok (A : Type) (body : Prog A) handlers o a o' :
  try_except body handlers o = (Ok a, o') ->
  body o = (Ok a, o')
  \/ exists e o1, body o = (Err e, o1) /\ handle handlers e o1 = (Ok a, o').
Proof.
  unfold try_except. destruct (body o) as [[x|e] o1]; intros H.
  - now left.
  - right. eauto.
Qed.

Lemma try_finally_ok (A : Type) (body : Prog A) final o a o' :
  try_finally body final o = (Ok a, o') ->
  exists o1, body o = (Ok a, o1) /\ final o1 = (Ok tt, o').
Proof.
  unfold try_finally. destruct (body o) as [r o1].
  destruct (final o1) as [[[]|e] o2] eqn:E; intros H; [|discriminate].
  inversion H; subst. eauto.
Qed.

Lemma pbind_eq_ok (A B : Type) (m : Prog A) (f : A -> Prog B) o a o1 :
  m o = (Ok a, o1) -> pbind m f o = f a o1.
Proof. intros H. unfold pbind. now rewrite H. Qed.

Lemma pbind_eq_err (A B : Type) (m : Prog A) (f : A -> Prog B) o e o1 :
  m o = (Err e, o1) -> pbind m f o = (Err e, o1).
Proof. intros H. unfold pbind. now rewrite H. Qed.

Lemma lift_eq (A : Type) (m : M A) o :
  lift m o = (Ok (fst (m (session o))), with_session o (snd (m (session o)))).
Proof. unfold lift. destruct (m (session o)). reflexivity. Qed.

Lemma logger_eq strftime message o :
  logger strftime message o
  = (Ok tt, with_session o (logged strftime message (session o))).
Proof.
  unfold logger. rewrite lift_eq. unfold logged.
  destruct (fst (_logger strftime message "INFO" (session o))). reflexivity.
Qed.

Lemma console_eq line o :
  console line o = (Ok tt, with_session o (snd (print (Print line) (session o)))).
Proof. unfold console. rewrite lift_eq. reflexivity. Qed.

Section RunFacts.
Variable strftime : string -> nat -> string.
Variable path_join : string -> string -> string.
Variable exc_text : string.
Variable driver : list db_call -> db_call -> db_reply.
Variable open_fails : nat -> string -> option exn.
Variable script_file_at : string -> file_read.
Variable sqlparse_format : string -> string.
Variable sqlparse_split : string -> list string.
Variable elapsed_text : nat -> nat -> string.
Variable re_template : string -> res string.

(** The methods other than [_open_connection], [_close_connection] and
    [run] leave the connection attribute as it is. *)
Lemma connection_kept (A : Type) (m : Prog A) c :
  keeps (session_and_connection (fun _ => True) (fun b => b = c)) m ->
  forall o, _connection o = c -> _connection (snd (m o)) = c.
Proof.
  intros H o Ho. destruct (H o (conj I Ho)) as [_ E]. exact E.
Qed.

Lemma trivial_state (A : Type) (m : M A) : keeps_state (fun _ => True) m.
Proof. intros s _. exact I. Qed.

Lemma exit_program_raises o :
  exists e o', _exit_program strftime path_join open_fails o = (Err e, o').
Proof.
  unfold _exit_program, pbind. rewrite logger_eq.
  destruct (_write_logs strftime path_join open_fails 3 2 _) as [[[]|e] o1];
    [|eauto].
  rewrite console_eq. unfold sleep, raise. eauto.
Qed.

Lemma open_connection_true o o' :
  _open_connection strftime driver o = (Ok true, o') -> _connection o' = true.
Proof.
  unfold _open_connection. cbv zeta.
  destruct (_connection o) eqn:Ec.
  - unfold pbind. rewrite logger_eq. unfold pret. intros H. inversion H.
    exact Ec.
  - intros H. apply try_except_ok in H. destruct H as [H|(e & o1 & _ & H)].
    + apply pbind_ok in H. destruct H as (u & o1 & H & H').
      apply pbind_ok in H'. destruct H' as (u' & o2 & H1 & H2).
      rewrite logger_eq in H1. inversion H1; subst. inversion H2; subst.
      cbn [with_session _connection]. clear H1 H2.
      destruct (String.eqb (_db_type (attributes o)) "TERA");
        apply pbind_ok in H; destruct H as (x & oa & _ & H);
        apply pbind_ok in H; destruct H as (y & ob & _ & H);
        inversion H; reflexivity.
    + cbn [handle] in H.
      destruct (caught_by e _) in H.
      { apply pbind_ok in H. destruct H as (x & oa & _ & H). inversion H. }
      destruct (caught_by e _) in H.
      { apply pbind_ok in H. destruct H as (x & oa & _ & H). inversion H. }
      inversion H.
Qed.

(** X5. [run] never returns [True], nor ends without a value: when it
    returns at all it returns [False], and the connection attribute is
    then [None].  Whenever a connection is open at the end, the final
    block closes it and ends the program by [SystemExit] (or lets
    another exception through), whatever the [return] statement
    reached before. *)
Theorem run_returns_only_false :
  forall (o o' : Object) (r : option bool),
    run strftime path_join exc_text driver open_fails script_file_at
        sqlparse_format sqlparse_split elapsed_text re_template o
    = (Ok r, o') ->
    r = Some false /\ _connection o' = false.
Proof.
  intros o o' r H. unfold run in H.
  apply try_finally_ok in H. destruct H as (o1 & Hbody & Hfinal).
  apply pbind_ok in Hfinal. destruct Hfinal as (u & o2 & Hlog & Hfinal).
  rewrite logger_eq in Hlog. inversion Hlog; subst o2. clear Hlog.
  cbv beta in Hfinal.
  destruct (_connection (with_session o1 _)) eqn:Ec in Hfinal.
  { apply pbind_ok in Hfinal. destruct Hfinal as (x & o3 & _ & Hexit).
    destruct (exit_program_raises o3) as (e & o4 & E).
    rewrite E in Hexit. discriminate. }
  inversion Hfinal; subst o'. split; [|exact Ec].
  cbn [with_session _connection] in Ec.
  apply try_except_ok in Hbody.
  destruct Hbody as [Hbody|(e & oe & _ & Hh)].
  - apply pbind_ok in Hbody. destruct Hbody as (x & oa & _ & Hbody).
    apply pbind_ok in Hbody. destruct Hbody as (opened & ob & Hopen & Hrest).
    destruct opened; cbn [negb] in Hrest.
    + apply open_connection_true in Hopen.
      match type of Hrest with
      | ?m ob = _ =>
          assert (K : keeps (session_and_connection (fun _ => True)
                               (fun b => b = true)) m)
            by (apply keeps_run_body_after_open; intros;
                first [apply trivial_state | exact I])
      end.
      apply connection_kept with (o := ob) in K; [|exact Hopen].
      rewrite Hrest in K. cbn [snd] in K. congruence.
    + apply pbind_ok in Hrest. destruct Hrest as (y & oc & _ & Hrest).
      inversion Hrest. reflexivity.
  - cbn [handle] in Hh. destruct (caught_by e [Exception]).
    + apply pbind_ok in Hh. destruct Hh as (y & oc & _ & Hh).
      inversion Hh. reflexivity.
    + inversion Hh.
Qed.
Lemma open_connection_refused o e :
  _connection o = false ->
  (forall cs, driver (db_trace o) (Connect cs) = Fails e) ->
  caught_by e [Exception] = true ->
  exists s cs,
    _open_connection strftime driver o
    = (Ok false,
       mkObject (attributes o) s false (db_trace o ++ [Connect cs])
                (text_files o) (data_files o) (opens o) (slept o)).
Proof.
  intros Hc Hd He. unfold _open_connection. cbv zeta. rewrite Hc.
  unfold try_except, pbind.
  destruct (String.eqb (_db_type (attributes o)) "TERA");
    rewrite logger_eq; unfold db_do; cbn [with_session db_trace];
    rewrite Hd; cbn [handle];
    (destruct (caught_by e [InterfaceError; DatabaseError; OperationalError;
                            PyodbcError]);
     [|rewrite He]);
    unfold pbind; rewrite logger_eq; unfold pret, with_session;
    cbn [attributes session _connection db_trace text_files data_files
         opens slept];
    rewrite ?Hc; do 2 eexists; reflexivity.
Qed.

(** X6. When no connection is open and the driver refuses the
    connection with an ordinary exception, [run] returns [False] after
    this one call to the driver: no statement is executed, no file is
    written, not even the log file, and nothing is slept. *)
Theorem run_without_connection_returns_false :
  forall (o : Object) (e : exn),
    _connection o = false ->
    (forall cs, driver (db_trace o) (Connect cs) = Fails e) ->
    caught_by e [Exception] = true ->
    exists (s : State) (cs : string),
      run strftime path_join exc_text driver open_fails script_file_at
          sqlparse_format sqlparse_split elapsed_text re_template o
      = (Ok (Some false),
         mkObject (attributes o) s false (db_trace o ++ [Connect cs])
                  (text_files o) (data_files o) (opens o) (slept o)).
Proof.
  intros o e Hc Hd He. unfold run, try_finally, try_except.
  rewrite (@pbind_eq_ok _ _ _ _ _ _ _ (logger_eq _ _ _)).
  destruct (@open_connection_refused
              (with_session o (logged strftime "...INITIALIZATION..."
                                 (session o))) e Hc Hd He)
    as (s & cs & E).
  rewrite (@pbind_eq_ok _ _ _ _ _ _ _ E). cbn [negb].
  rewrite (@pbind_eq_ok _ _ _ _ _ _ _ (logger_eq _ _ _)). unfold pret.
  rewrite (@pbind_eq_ok _ _ _ _ _ _ _ (logger_eq _ _ _)).
  unfold with_session.
  cbn [attributes session _connection db_trace text_files data_files
       opens slept].
  do 2 eexists. reflexivity.
Qed.

(** [_close_connection] when the driver raises nothing but its own
    errors. *)
Lemma close_connection_closes o :
  (forall t c e, driver t c = Fails e -> caught_by e [PyodbcError] = true) ->
  _connection o = true ->
  exists o',
    _close_connection strftime driver o = (Ok tt, o')
    /\ _connection o' = false.
Proof.
  intros Hd Hc. unfold _close_connection. rewrite Hc. cbn [negb].
  unfold pbind, try_except, try_finally, db_do.
  destruct (driver (db_trace o) Commit) eqn:E1;
    try (apply Hd in E1; cbn [handle]; rewrite E1);
    unfold pbind; rewrite ?logger_eq; cbn [with_session db_trace];
    match goal with
    | |- context [driver ?t Close] => destruct (driver t Close) eqn:E2
    end;
    try (apply Hd in E2; cbn [handle]; rewrite E2);
    unfold pbind; rewrite ?logger_eq; unfold set_connection;
    eexists; split; reflexivity.
Qed.

Lemma write_attempts_returns log_file_path max_attempts retry_delay remaining :
  (forall n p e, open_fails n p = Some e ->
                 caught_by e [PermissionError; OSError] = true) ->
  forall attempt o,
  exists o',
    write_attempts strftime open_fails log_file_path max_attempts retry_delay
                   remaining attempt o = (Ok tt, o').
Proof.
  intros Hfs. induction remaining as [|n IH]; intros attempt o.
  - eexists. reflexivity.
  - cbn [write_attempts]. unfold append_text.
    destruct (open_fails (opens o) log_file_path) as [e|] eqn:E.
    + rewrite (Hfs _ _ _ E). unfold pbind. rewrite logger_eq.
      destruct (Nat.ltb attempt max_attempts).
      * unfold sleep. apply IH.
      * rewrite console_eq. rewrite lift_eq. apply IH.
    + rewrite logger_eq. eexists. reflexivity.
Qed.

Lemma write_logs_returns max_attempts retry_delay o :
  (forall n p e, open_fails n p = Some e ->
                 caught_by e [PermissionError; OSError] = true) ->
  exists o',
    _write_logs strftime path_join open_fails max_attempts retry_delay o
    = (Ok tt, o').
Proof.
  intros Hfs. unfold _write_logs, pbind. rewrite lift_eq, logger_eq.
  apply write_attempts_returns. exact Hfs.
Qed.

Lemma exit_program_exits o :
  (forall n p e, open_fails n p = Some e ->
                 caught_by e [PermissionError; OSError] = true) ->
  exists o',
    _exit_program strftime path_join open_fails o = (Err exiting, o')
    /\ _connection o' = _connection o.
Proof.
  intros Hfs.
  assert (K : keeps (session_and_connection (fun _ => True)
                       (fun b => b = _connection o))
                (_exit_program strftime path_join open_fails))
    by (apply keeps_exit_program; intros;
        first [apply trivial_state | exact I]).
  apply connection_kept with (o := o) in K; [|reflexivity].
  revert K. unfold _exit_program, pbind. rewrite logger_eq.
  destruct (@write_logs_returns 3 2
              (with_session o (logged strftime
                                 "I-O-I SHUTTING DOWN THE PROGRAM" (session o)))
              Hfs) as (o1 & E).
  rewrite E, console_eq. unfold sleep, raise. cbn [snd].
  intros K. eexists. split; [reflexivity|exact K].
Qed.

Lemma open_connection_opens o :
  (_connection o = true
   \/ forall cs e, driver (db_trace o) (Connect cs) <> Fails e) ->
  exists o',
    _open_connection strftime driver o = (Ok true, o')
    /\ _connection o' = true.
Proof.
  intros Hopen. unfold _open_connection. cbv zeta.
  destruct (_connection o) eqn:Ec.
  - rewrite (@pbind_eq_ok _ _ _ _ _ _ _ (logger_eq _ _ _)).
    eexists. split; [reflexivity|]. exact Ec.
  - destruct Hopen as [Hopen|Hopen]; [congruence|].
    unfold try_except.
    destruct (String.eqb (_db_type (attributes o)) "TERA");
      unfold pbind; rewrite logger_eq; unfold db_do;
      cbn [with_session db_trace];
      match goal with
      | |- context [driver (db_trace o) ?c] =>
          destruct (driver (db_trace o) c) eqn:E;
            try (exfalso; exact (Hopen _ _ E))
      end;
      unfold set_connection; rewrite logger_eq;
      eexists; split; reflexivity.
Qed.

(** X7. When a connection is open at the start, or the driver accepts
    the connection, and the driver and the disk raise nothing but their
    own errors when the connection is closed and the log file written,
    [run] ends by raising [SystemExit], with the connection attribute
    reset to [None]: the value of the [return] statement reached in the
    body is lost. *)
Theorem run_with_connection_exits :
  forall o : Object,
    (forall t c e, driver t c = Fails e -> caught_by e [PyodbcError] = true) ->
    (forall n p e, open_fails n p = Some e ->
                   caught_by e [PermissionError; OSError] = true) ->
    (_connection o = true
     \/ forall cs e, driver (db_trace o) (Connect cs) <> Fails e) ->
    exists o',
      run strftime path_join exc_text driver open_fails script_file_at
          sqlparse_format sqlparse_split elapsed_text re_template o
      = (Err exiting, o')
      /\ _connection o' = false.
Proof.
  intros o Hd Hfs Hopen.
  set (body :=
         try_except
           (logger strftime "...INITIALIZATION..." >>
            opened <-- _open_connection strftime driver ;;
            if negb opened then
              logger strftime "DB connection failed. Exiting." >>
              pret (Some false)
            else
              create_tables <--
                _create_tables strftime path_join driver open_fails
                  script_file_at sqlparse_format sqlparse_split elapsed_text
                  re_template ;;
              if negb (contains "SUCCESS" create_tables) then
                logger strftime "ERROR: FAILED to create temp tables." >>
                pret (Some false)
              else
                result_df <-- _execute_final_sql strftime driver "#FINAL" ;;
                if negb (df_empty result_df) then
                  fun o =>
                    if String.eqb (_db_type (attributes o)) "TERA"
                       && customer_is o "ALL_CHECK" then
                      (_write_parquet strftime path_join exc_text result_df >>
                       comparator strftime path_join exc_text result_df >>
                       pret (Some true)) o
                    else if String.eqb (_db_type (attributes o)) "TERA"
                            && ((negb (customer_is_int (attributes o))
                                 && isdigit (_customer_number (session o)))
                                || customer_is_int (attributes o)) then
                      (_write_xlsx_frame strftime path_join exc_text result_df >>
                       comparator strftime path_join exc_text result_df >>
                       pret (Some true)) o
                    else (Ok None, o)
                else
                  logger strftime "WARNING: Empty DataFrame;" >>
                  pret (Some false))
           [ ([Exception],
              fun e =>
                logger strftime ("ERROR in run(): " ++ exn_text e) >>
                pret (Some false)) ]).
  assert (Hbody : _connection (snd (body o)) = true).
  { subst body. unfold try_except.
    rewrite (@pbind_eq_ok _ _ _ _ _ _ _ (logger_eq _ _ _)).
    destruct (@open_connection_opens
                (with_session o (logged strftime "...INITIALIZATION..."
                                   (session o))) Hopen) as (ob & Eo & Hob).
 rewrite (@pbind_eq_ok _ _ _ _ _ _ _ Eo). cbn [negb].
    match goal with
    | |- context [pbind ?m ?f ob] =>
        assert (K : keeps (session_and_connection (fun _ => True)
                             (fun b => b = true)) (pbind m f))
          by (apply keeps_run_body_after_open; intros;
              first [apply trivial_state | exact I]);
        apply connection_kept with (o := ob) in K; [|exact Hob];
        destruct (pbind m f ob) as [[r|e] oc]
    end; cbn [snd] in *; auto.
    cbn [handle]. destruct (caught_by e [Exception]); [|exact K].
    unfold pbind. rewrite logger_eq. exact K. }
  unfold run. fold body. unfold try_finally.
  destruct (body o) as [rb o1]. cbn [snd] in Hbody.
  rewrite (@pbind_eq_ok _ _ _ _ _ _ _ (logger_eq _ _ _)).
  cbn [with_session _connection]. rewrite Hbody.
  destruct (@close_connection_closes
              (with_session o1 (logged strftime "Process completed."
                                  (session o1))) Hd Hbody) as (o2 & E2 & H2).
  unfold with_session in E2. rewrite (@pbind_eq_ok _ _ _ _ _ _ _ E2).
  destruct (@exit_program_exits o2 Hfs) as (o3 & E3 & H3).
  rewrite E3. eexists. split; [reflexivity|]. congruence.
Qed.
End RunFacts.

Lemma run_returns_only_false_witness :
  _connection
    (snd (run sample_strftime String.append "" refusing_driver disk_ok
              no_script (fun s => s) (fun s => [s]) sample_elapsed
              literal_template sample_object))
  = false.
Proof.
  pose proof (@run_returns_only_false sample_strftime String.append ""
                refusing_driver disk_ok no_script (fun s => s) (fun s => [s])
                sample_elapsed literal_template sample_object
                (snd (run sample_strftime String.append "" refusing_driver
                          disk_ok no_script (fun s => s) (fun s => [s])
                          sample_elapsed literal_template sample_object))
                (Some false) ltac:(vm_compute; reflexivity)) as H.
  exact (proj2 H).
Defined.

Lemma run_without_connection_returns_false_witness :
  fst (run sample_strftime String.append "" refusing_driver disk_ok
           no_script (fun s => s) (fun s => [s]) sample_elapsed
           literal_template sample_object)
  = Ok (Some false).
Proof.
  pose proof (@run_without_connection_returns_false sample_strftime
                String.append "" refusing_driver disk_ok no_script
                (fun s => s) (fun s => [s]) sample_elapsed literal_template
                sample_object (mkExn OperationalError "connection refused")
                ltac:(reflexivity) ltac:(intros cs; reflexivity)
                ltac:(vm_compute; reflexivity)) as H.
  destruct H as (s & cs & H). rewrite H. reflexivity.
Defined.

Lemma run_with_connection_exits_witness :
  fst (run sample_strftime String.append "" quiet_driver disk_ok
           no_script (fun s => s) (fun s => [s]) sample_elapsed
           literal_template sample_object)
  = Err exiting.
Proof.
  pose proof (@run_with_connection_exits sample_strftime String.append ""
                quiet_driver disk_ok no_script (fun s => s) (fun s => [s])
                sample_elapsed literal_template sample_object) as H.
  assert (Hd : forall t c e, quiet_driver t c = Fails e ->
                             caught_by e [PyodbcError] = true)
    by (intros t c e E; discriminate E).
  assert (Hfs : forall n p e, disk_ok n p = Some e ->
                  caught_by e [PermissionError; OSError] = true)
    by (intros n p e E; discriminate E).
  specialize (H Hd Hfs ltac:(right; intros cs e E; discriminate E)).
  destruct H as (o' & H & _). rewrite H. reflexivity.
Defined.

(* ------------------------------------------------------------------ *)
(** ** The log buffer through a run *)

(** X8. [_logger] tests the length of the buffer before it appends, and
    with [>]: a buffer of at most 1000 entries grows by one, a longer
    one loses its oldest entry first.  So a buffer that holds at most
    1001 entries still does after a whole [run], however the run
    ends. *)
Theorem log_buffer_stays_within_1001 :
  forall (strftime : string -> nat -> string)
         (path_join : string -> string -> string) (exc_text : string)
         (driver : list db_call -> db_call -> db_reply)
         (open_fails : nat -> string -> option exn)
         (script_file_at : string -> file_read)
         (sqlparse_format : string -> string)
         (sqlparse_split : string -> list string)
         (elapsed_text : nat -> nat -> string)
         (re_template : string -> res string)
         (o : Object),
    logs_bounded (session o) ->
    logs_bounded
      (session
         (snd (run strftime path_join exc_text driver open_fails
                   script_file_at sqlparse_format sqlparse_split elapsed_text
                   re_template o)))
    /\ forall message level s,
        List.length (_logs (snd (_logger strftime message level s)))
        = if Nat.ltb 1000 (List.length (_logs s))
          then List.length (_logs s)
          else S (List.length (_logs s)).
Proof.
  intros strftime path_join exc_text driver open_fails script_file_at
         sqlparse_format sqlparse_split elapsed_text re_template o Ho.
  split; [|intros; apply logger_length].
  assert (K : keeps (session_and_connection logs_bounded (fun _ => True))
                (run strftime path_join exc_text driver open_fails
                     script_file_at sqlparse_format sqlparse_split
                     elapsed_text re_template)).
  { apply keeps_run; intros;
      first [ apply logger_bounded | apply print_bounded
            | apply comparator_bounded | exact I | assumption ]. }
  destruct (K o (conj Ho I)) as [H _]. exact H.
Qed.

Lemma log_buffer_stays_within_1001_witness :
  logs_bounded
    (session
       (snd (run sample_strftime String.append "" quiet_driver disk_ok
                 no_script (fun s => s) (fun s => [s]) sample_elapsed
                 literal_template sample_object))).
Proof.
  pose proof (@log_buffer_stays_within_1001 sample_strftime String.append ""
                quiet_driver disk_ok no_script (fun s => s) (fun s => [s])
                sample_elapsed literal_template sample_object) as H.
  assert (Ho : logs_bounded (session sample_object)).
  { unfold logs_bounded. cbn. lia. }
  exact (proj1 (H Ho)).
Defined.

(* ------------------------------------------------------------------ *)
(** ** The spreadsheet of the comparison *)

Lemma for_each_print (A : Type) (l : list A) (E : A -> event) s :
  for_each l (fun x => print (E x)) s
  = (tt, mkState (_customer_number s) (_xlsx_path s) (_logs s) (clock s)
           (stdout s ++ map E l) (files s) (disk_fails s)).
Proof.
  revert s. induction l as [|x t IH]; intros s.
  - cbn. rewrite app_nil_r. destruct s; reflexivity.
  - cbn [for_each map]. unfold bind. unfold print at 1. rewrite IH.
    cbn [_customer_number _xlsx_path _logs clock stdout files disk_fails].
    now rewrite <- app_assoc.
Qed.

Lemma bind_eq (A B : Type) (m : M A) (f : A -> M B) s :
  bind m f s = f (fst (m s)) (snd (m s)).
Proof. unfold bind. destruct (m s). reflexivity. Qed.

(** X9. The comparison writes a file exactly when it returns a styled
    table and the disk does not fail: one file, holding that table,
    under the name that starts with [DIFF_WH_CUST_NO_] and carries the
    second reading of the clock.  The log entry that follows names
    another path, the one that starts with [WH_CUST_NO_] and carries
    the first reading, where nothing is written.  When the disk fails
    the exception is logged and the table is returned all the same.
    When nothing is returned or [KeyError] is raised, no file is
    written and nothing is logged. *)
Theorem spreadsheet_written_only_for_differences :
  forall (strftime : string -> nat -> string)
         (path_join : string -> string -> string) (exc_text : string)
         (df : DataFrame) (s : State),
    let out := _comparator_two_sided_merge strftime path_join exc_text df s in
    let name (prefix : string) (t : nat) :=
      path_join (_xlsx_path s)
        (prefix ++ _customer_number s ++ "_" ++ strftime "%Y%m%d%H%M%S" t
           ++ "_AM.xlsx")%string in
    match reconcile df with
    | Returned (Styler table) =>
        fst out = Returned (Styler table)
        /\ files (snd out)
           = files s
             ++ (if disk_fails s then []
                 else [(name "DIFF_WH_CUST_NO_" (S (clock s)), table)])
        /\ _logs (snd out)
           = (if Nat.ltb 1000 (List.length (_logs s))
              then tl (_logs s) else _logs s)
             ++ [ (strftime "%Y-%m-%d %H:%M:%S" (S (S (clock s)))
                     ++ " [INFO] - "
                     ++ (if disk_fails s
                         then "CRITICAL in _write_xlsx(): " ++ exc_text
                         else "Excel file stored at "
                                ++ name "WH_CUST_NO_" (clock s)))%string ]
    | other =>
        fst out = other /\ files (snd out) = files s
        /\ _logs (snd out) = _logs s
    end.
Proof.
  intros strftime path_join exc_text df s out name. subst out.
  unfold reconcile, differences_list, _comparator_two_sided_merge.
  set (grouped := groupby id_columns (sort_values sort_columns df)).
  rewrite !bind_eq. cbv beta.
  destruct (negb (has_columns sort_columns df)).
  { unfold ret, print. cbn [fst snd files _logs]. auto. }
  destruct (negb (has_columns id_columns df)).
  { unfold ret, print. cbn [fst snd files _logs]. auto. }
  rewrite bind_eq, for_each_print. cbv beta.
  unfold print at 1 2.
  cbn [_customer_number _xlsx_path _logs clock stdout files disk_fails
       fst snd].
  destruct (flat_map process_group grouped) as [|frame frames].
  { rewrite bind_eq. unfold ret, print. cbn [fst snd files _logs]. auto. }
  unfold _write_xlsx, bind, _get_date_str, now, to_excel, ret.
  cbn [_customer_number _xlsx_path _logs clock stdout files disk_fails
       fst snd].
  destruct (disk_fails s) eqn:Ed;
    unfold _logger, bind, now, print;
    cbn [_customer_number _xlsx_path _logs clock stdout files disk_fails
         fst snd];
    rewrite ?Ed;
    cbn [_customer_number _xlsx_path _logs clock stdout files disk_fails
         fst snd];
    subst name; cbv beta; rewrite ?app_nil_r; repeat split.
Qed.

(* ------------------------------------------------------------------ *)
(** ** Executing the statements of a script *)

Lemma db_do_eq driver c o :
  db_do driver c o = (reply_result (driver (db_trace o) c), with_call o c).
Proof. unfold db_do. destruct (driver (db_trace o) c); reflexivity. Qed.

Lemma executed_sql_app a b :
  executed_sql (a ++ b) = executed_sql a ++ executed_sql b.
Proof.
  induction a as [|c t IH]; auto. destruct c; cbn; rewrite ?IH; reflexivity.
Qed.

Lemma executed_sql_pairs statements :
  executed_sql (execute_and_commit statements) = statements.
Proof.
  induction statements as [|s t IH]; auto.
  unfold execute_and_commit in *. simpl. f_equal. exact IH.
Qed.

Section SqlFacts.
Variable strftime : string -> nat -> string.
Variable path_join : string -> string -> string.
Variable driver : list db_call -> db_call -> db_reply.
Variable open_fails : nat -> string -> option exn.

(** What the methods leave untouched besides the session. *)
Lemma log_error_eq message o :
  _log_error strftime message o
  = (Ok ("ERROR: " ++ message)%string,
     with_session o (logged strftime ("ERROR: " ++ message) (session o))).
Proof.
  unfold _log_error. rewrite (@pbind_eq_ok _ _ _ _ _ _ _ (logger_eq _ _ _)).
  reflexivity.
Qed.

Lemma reply_result_ok reply :
  fails reply = false -> reply_result reply = Ok reply.
Proof. destruct reply; cbn; congruence. Qed.

Lemma after_calls_nil o : after_calls o [] (session o) = o.
Proof. unfold after_calls. rewrite app_nil_r. destruct o; reflexivity. Qed.

Lemma after_calls_after o calls s more s' :
  after_calls (after_calls o calls s) more s' = after_calls o (calls ++ more) s'.
Proof. unfold after_calls. cbn. now rewrite app_assoc. Qed.

Lemma accepts_app trace a b :
  accepts driver trace (a ++ b)
  = accepts driver trace a && accepts driver (trace ++ a) b.
Proof.
  revert trace. induction a as [|c t IH]; intros trace.
  - cbn. now rewrite app_nil_r.
  - change (accepts driver trace ((c :: t) ++ b))
      with (negb (fails (driver trace c))
            && accepts driver (trace ++ [c]) (t ++ b)).
    change (accepts driver trace (c :: t))
      with (negb (fails (driver trace c)) && accepts driver (trace ++ [c]) t).
    rewrite IH, <- !app_assoc, andb_assoc. reflexivity.
Qed.

(** Running a computation whose steps are calls on the driver and log
    entries: every reply of the driver and every test of an [except]
    clause is told apart. *)
Ltac run_prog :=
  repeat first
    [ rewrite db_do_eq
    | rewrite logger_eq
    | rewrite log_error_eq
    | progress cbn [reply_result handle with_call with_session db_trace
                    text_files session attributes _connection data_files
                    opens slept fst snd]
    | progress unfold pbind, pret, raise
    | match goal with
      | |- context [driver ?t ?c] => destruct (driver t c) eqn:?
      | |- context [caught_by ?e ?l] => destruct (caught_by e l) eqn:?
      end ].

Ltac same_object :=
  unfold after_calls, with_session, with_call;
  cbn [db_trace text_files session attributes _connection data_files
       opens slept fst snd];
  rewrite <- ?app_assoc; reflexivity.

(** One statement: the calls it adds, and what they say of the way the
    [try] statement ends. *)
Lemma try_statement_calls index statement o :
  let out := try_statement strftime driver index statement o in
  exists calls s',
    snd out = after_calls o calls s'
    /\ executed_sql calls = [statement]
    /\ match fst out with
       | Ok StepExecuted =>
           calls = [Execute statement; Commit]
           /\ accepts driver (db_trace o) calls = true
       | Ok (StepFailed _) => True
       | Ok (StepReturn text) => String.prefix "ERROR: " text = true
       | Err _ => True
       end.
Proof.
  intros out. subst out. unfold try_statement, try_except.
  run_prog; unfold after_calls, with_session, with_call;
    cbn [db_trace text_files session attributes _connection data_files
         opens slept fst snd];
    rewrite <- ?app_assoc;
    eexists; eexists; (split; [reflexivity|]); (split; [reflexivity|]);
    try exact I; try reflexivity;
    (split; [reflexivity|]); simpl;
    repeat match goal with H : driver _ _ = _ |- _ => rewrite H end;
    reflexivity.
Qed.

(** A statement the driver accepts is executed and committed. *)
Lemma try_statement_accepted index statement o :
  accepts driver (db_trace o) [Execute statement; Commit] = true ->
  try_statement strftime driver index statement o
  = (Ok StepExecuted,
     after_calls o [Execute statement; Commit]
       (logged strftime
          ("SUCCESS: [Stmt " ++ str_nat index ++ "] Executed: "
             ++ substring 0 50 statement ++ "...") (session o))).
Proof.
  cbn [accepts]. rewrite andb_true_r. intros H.
  apply andb_true_iff in H. destruct H as [H1 H2].
  apply negb_true_iff in H1. apply negb_true_iff in H2.
  unfold try_statement, try_except, pbind.
  rewrite db_do_eq, (reply_result_ok _ H1), db_do_eq.
  cbn [with_call db_trace]. rewrite (reply_result_ok _ H2), logger_eq.
  unfold pret. same_object.
Qed.

(** A statement on which the driver raises an error of the first
    [except] clause is recorded as failed. *)
Lemma try_statement_failed index statement o e :
  driver (db_trace o) (Execute statement) = Fails e ->
  caught_by e [ProgrammingError; IntegrityError] = true ->
  try_statement strftime driver index statement o
  = (Ok (StepFailed (exn_text e)),
     after_calls o [Execute statement]
       (logged strftime
          ("WARNING: [Stmt " ++ str_nat index ++ "] Error: " ++ exn_text e)
          (session o))).
Proof.
  intros H1 H2. unfold try_statement, try_except, pbind.
  rewrite db_do_eq, H1. cbn [reply_result handle]. rewrite H2.
  unfold pbind. rewrite logger_eq. unfold pret. same_object.
Qed.

(** A statement on which the driver raises an error of the second
    [except] clause ends the loop, after a rollback. *)
Lemma try_statement_fatal index statement o e :
  driver (db_trace o) (Execute statement) = Fails e ->
  caught_by e [ProgrammingError; IntegrityError] = false ->
  caught_by e [OperationalError; DatabaseError] = true ->
  fails (driver (db_trace o ++ [Execute statement]) Rollback) = false ->
  try_statement strftime driver index statement o
  = (Ok (StepReturn ("ERROR: FATAL: DB execution error: " ++ exn_text e)),
     after_calls o [Execute statement; Rollback]
       (logged strftime ("ERROR: FATAL: DB execution error: " ++ exn_text e)
          (session o))).
Proof.
  intros H1 H2 H3 H4. unfold try_statement, try_except, pbind.
  rewrite db_do_eq, H1. cbn [reply_result handle]. rewrite H2, H3.
  unfold pbind. rewrite db_do_eq. cbn [with_call db_trace].
  rewrite (reply_result_ok _ H4), log_error_eq.
  unfold pret. same_object.
Qed.

(** The loop: the statements sent are the first statements of the
    list, in order; when the loop completes they are all of them, and
    when it counts no new failure every one was executed and
    committed. *)
Lemma run_statements_calls statements :
  forall index executed failed failed_statements o,
    let out := run_statements strftime driver statements index executed
                 failed failed_statements o in
    exists calls s',
      snd out = after_calls o calls s'
      /\ (exists rest, statements = executed_sql calls ++ rest)
      /\ match fst out with
         | Ok (Completed executed' failed' failed_statements') =>
             executed_sql calls = statements
             /\ failed <= failed'
             /\ (failed' = failed ->
                 executed' = executed + List.length statements
                 /\ failed_statements' = failed_statements
                 /\ calls = execute_and_commit statements
                 /\ accepts driver (db_trace o) calls = true)
         | Ok (Return text) => String.prefix "ERROR: " text = true
         | Err _ => True
         end.
Proof.
  induction statements as [|statement rest IH];
    intros index executed failed failed_statements o out; subst out.
  - exists [], (session o). rewrite after_calls_nil. cbn.
    repeat split; auto. exists []. reflexivity.
  - cbn [run_statements].
    rewrite (@pbind_eq_ok _ _ _ _ _ _ _ (logger_eq _ _ _)).
    set (o1 := with_session o _).
    destruct (try_statement_calls index statement o1) as (calls & s1 & E1 & E2 & E3).
    destruct (try_statement strftime driver index statement o1)
      as [[step|e] o2] eqn:E; cbn [fst snd] in E1, E3; subst o2.
    2:{ rewrite (@pbind_eq_err _ _ _ _ _ _ _ E). cbn [fst snd].
        exists calls, s1. split; [reflexivity|]. split; [|exact I].
        exists rest. now rewrite E2. }
    rewrite (@pbind_eq_ok _ _ _ _ _ _ _ E).
    destruct step as [|error|result].
    + destruct E3 as [-> Ha].
      specialize (IH (S index) (S executed) failed failed_statements
                     (after_calls o1 [Execute statement; Commit] s1)).
      cbv zeta in IH. destruct IH as (more & s2 & F1 & [rest' F2] & F3).
      rewrite F1, after_calls_after.
      exists ([Execute statement; Commit] ++ more), s2.
      split; [reflexivity|]. split.
      { exists rest'. rewrite executed_sql_app, F2. cbn. reflexivity. }
      destruct (fst (run_statements strftime driver rest (S index) (S executed)
                       failed failed_statements _)) as [[e' f' fl'|text]|e'];
        auto.
      destruct F3 as (G1 & G2 & G3). split; [|split]; auto.
      { rewrite executed_sql_app, G1. reflexivity. }
      intros ->. destruct (G3 eq_refl) as (K1 & K2 & K3 & K4).
      repeat split; auto.
      * cbn [List.length]. lia.
      * rewrite K3. reflexivity.
      * rewrite accepts_app. subst o1. cbn [db_trace with_session].
        cbn [db_trace with_session after_calls] in K4, Ha.
        rewrite Ha. exact K4.
    + specialize (IH (S index) executed (S failed)
                     (failed_statements ++ [(index, statement, error)])
                     (after_calls o1 calls s1)).
      cbv zeta in IH. destruct IH as (more & s2 & F1 & [rest' F2] & F3).
      rewrite F1, after_calls_after.
      exists (calls ++ more), s2.
      split; [reflexivity|]. split.
      { exists rest'. rewrite executed_sql_app, E2, F2. reflexivity. }
      destruct (fst (run_statements strftime driver rest (S index) executed
                       (S failed) _ _)) as [[e' f' fl'|text]|e']; auto.
      destruct F3 as (G1 & G2 & G3). split; [|split].
      * rewrite executed_sql_app, E2, G1. reflexivity.
      * lia.
      * intros ->. lia.
    + unfold pret. cbn [fst snd]. exists calls, s1.
      split; [reflexivity|]. split; [|exact E3].
      exists rest. now rewrite E2.
Qed.

Lemma reply_result_accepted reply r :
  reply_result reply = Ok r -> fails reply = false.
Proof. destruct reply; cbn; congruence. Qed.

Lemma with_cursor_eq (A : Type) (body : Prog A) o :
  with_cursor driver body o
  = match reply_result (driver (db_trace o) Cursor) with
    | Err e => (Err e, with_call o Cursor)
    | Ok _ =>
        match body (with_call o Cursor) with
        | (Ok a, o1) =>
            match reply_result (driver (db_trace o1) (ExitCursor false)) with
            | Ok _ => (Ok a, with_call o1 (ExitCursor false))
            | Err e => (Err e, with_call o1 (ExitCursor false))
            end
        | (Err e, o1) =>
            match reply_result (driver (db_trace o1) (ExitCursor true)) with
            | Ok _ => (Err e, with_call o1 (ExitCursor true))
            | Err e' => (Err e', with_call o1 (ExitCursor true))
            end
        end
    end.
Proof.
  unfold with_cursor, pbind. rewrite db_do_eq.
  destruct (reply_result (driver (db_trace o) Cursor)); [|reflexivity].
  destruct (body (with_call o Cursor)) as [[x|e] o1]; rewrite db_do_eq;
    destruct (reply_result (driver (db_trace o1) _)); reflexivity.
Qed.

Lemma with_call_after o calls s c :
  with_call (after_calls (with_call o Cursor) calls s) c
  = after_calls o (Cursor :: calls ++ [c]) s.
Proof. same_object. Qed.

(** The statements of a script under the cursor. *)
Lemma cursor_statements statements o :
  let out := with_cursor driver
               (run_statements strftime driver statements 1 0 0 []) o in
  exists calls s',
    snd out = after_calls o calls s'
    /\ (exists rest, statements = executed_sql calls ++ rest)
    /\ match fst out with
       | Ok (Completed executed failed failed_statements) =>
           failed = 0 ->
           executed = List.length statements
           /\ failed_statements = []
           /\ calls = Cursor :: execute_and_commit statements
                        ++ [ExitCursor false]
           /\ accepts driver (db_trace o) calls = true
       | Ok (Return text) => String.prefix "ERROR: " text = true
       | Err _ => True
       end.
Proof.
  intros out. subst out. rewrite with_cursor_eq.
  destruct (reply_result (driver (db_trace o) Cursor)) as [r|e] eqn:Ecur.
  2:{ exists [Cursor], (session o). cbn [fst snd].
      split; [same_object|]. split; [|exact I].
      exists statements. reflexivity. }
  apply reply_result_accepted in Ecur.
  destruct (run_statements_calls statements 1 0 0 [] (with_call o Cursor))
    as (calls & s1 & E1 & [rest E2] & E3).
  destruct (run_statements strftime driver statements 1 0 0 []
              (with_call o Cursor)) as [[ended|e] o1];
    cbn [fst snd] in E1, E3; subst o1.
  2:{ exists (Cursor :: calls ++ [ExitCursor true]), s1.
      destruct (reply_result (driver _ (ExitCursor true)));
        cbn [fst snd]; (split; [apply with_call_after|]);
        (split; [|exact I]); exists rest;
        cbn [executed_sql]; rewrite executed_sql_app, app_nil_r; exact E2. }
  exists (Cursor :: calls ++ [ExitCursor false]), s1.
  destruct (reply_result (driver _ (ExitCursor false))) as [r'|e'] eqn:Eexit;
    cbn [fst snd]; (split; [apply with_call_after|]);
    (split; [exists rest; cbn [executed_sql];
             rewrite executed_sql_app, app_nil_r; exact E2|]);
    try exact I.
  apply reply_result_accepted in Eexit.
  destruct ended as [executed failed failed_statements|text]; [|exact E3].
  destruct E3 as (G1 & G2 & G3). intros ->.
  destruct (G3 eq_refl) as (K1 & K2 & K3 & K4). subst calls.
  repeat split; auto.
  change (accepts driver (db_trace o)
            ([Cursor] ++ execute_and_commit statements ++ [ExitCursor false])
          = true).
  rewrite !accepts_app.
  cbn [db_trace with_call after_calls] in K4, Eexit.
  rewrite K4. cbn [accepts]. rewrite Ecur, Eexit. reflexivity.
Qed.

(** What [_log_failed_statements] leaves untouched. *)
Lemma log_failed_statements_trace failed_statements script_path o :
  db_trace (snd (_log_failed_statements strftime path_join open_fails
                   failed_statements script_path o))
  = db_trace o.
Proof.
  unfold _log_failed_statements.
  destruct failed_statements as [|f t]; [reflexivity|].
  unfold try_except, pbind, append_text.
  destruct (open_fails (opens o) _) as [e|]; cbn [handle].
  - destruct (caught_by e [Exception]); [|reflexivity].
    rewrite logger_eq. reflexivity.
  - rewrite logger_eq. reflexivity.
Qed.

(** The two [except] clauses at the end of
    [_execute_sql_statements]. *)
Lemma execute_handlers e o :
  let out :=
    handle
      [ ([InterfaceError],
         fun e => _log_error strftime ("DB connection issue: " ++ exn_text e));
        ([Exception],
         fun e => _log_error strftime ("Unexpected error: " ++ exn_text e)) ]
      e o in
  db_trace (snd out) = db_trace o
  /\ forall text, fst out = Ok text -> String.prefix "ERROR: " text = true.
Proof.
  cbn [handle].
  destruct (caught_by e [InterfaceError]);
    [|destruct (caught_by e [Exception])];
    rewrite ?log_error_eq; cbn [fst snd];
    (split; [reflexivity|]); intros text H; inversion H; reflexivity.
Qed.

(** X10. [_execute_sql_statements] sends the statements of the script
    in their order, each at most once: the statements the driver has
    been asked to execute are the first statements of the list.  A
    result that does not start with [ERROR: ] is the text that counts
    all the statements as executed; then the driver was asked for a
    cursor, for the execution and the commit of every statement in
    turn, and to leave the cursor, it accepted each of these calls, and
    no file was written. *)
Theorem statements_sent_in_order :
  forall (statements : list string) (script_path : Path) (o : Object),
    let out := _execute_sql_statements strftime path_join driver open_fails
                 statements script_path o in
    exists calls,
      db_trace (snd out) = db_trace o ++ calls
      /\ (exists rest, statements = executed_sql calls ++ rest)
      /\ forall text,
          fst out = Ok text ->
          String.prefix "ERROR: " text = false ->
          text = ("SUCCESS: Executed " ++ str_nat (List.length statements)
                    ++ " statements.")%string
          /\ calls = Cursor :: execute_and_commit statements
                       ++ [ExitCursor false]
          /\ accepts driver (db_trace o) calls = true
          /\ text_files (snd out) = text_files o.
Proof.
  intros statements script_path o out. subst out.
  unfold _execute_sql_statements, try_except.
  destruct (_connection o) eqn:Ec; cbn [negb].
  2:{ exists []. cbn [handle].
      change (caught_by _ [InterfaceError]) with false.
      change (caught_by _ [Exception]) with true.
      cbv iota. rewrite log_error_eq. cbn [fst snd with_session db_trace].
      rewrite app_nil_r. split; [reflexivity|].
      split; [exists statements; reflexivity|].
      intros text H1 H2. inversion H1; subst. discriminate H2. }
  destruct (cursor_statements statements o) as (calls & s1 & E1 & E2 & E3).
  destruct (with_cursor driver
              (run_statements strftime driver statements 1 0 0 []) o)
    as [[ended|e] o1] eqn:Ew;
    cbn [fst snd] in E1, E3; subst o1; exists calls.
  2:{ rewrite (@pbind_eq_err _ _ _ _ _ _ _ Ew). cbv beta iota.
      destruct (execute_handlers e (after_calls o calls s1)) as [F1 F2].
      cbv zeta in F1, F2. rewrite F1. split; [reflexivity|]. split; [exact E2|].
      intros text H1 H2. rewrite (F2 _ H1) in H2. discriminate. }
  rewrite (@pbind_eq_ok _ _ _ _ _ _ _ Ew).
  destruct ended as [executed failed failed_statements|result].
  2:{ unfold pret. cbn [fst snd]. split; [reflexivity|]. split; [exact E2|].
      intros text H1 H2. inversion H1; subst. congruence. }
  destruct failed as [|failed].
  - destruct (E3 eq_refl) as (K1 & K2 & K3 & K4). subst failed_statements.
    cbn [_log_failed_statements Nat.eqb]. unfold pbind, pret.
    rewrite logger_eq.
    cbn [fst snd with_session after_calls db_trace text_files].
    split; [reflexivity|]. split; [exact E2|].
    intros text H1 H2. inversion H1; subst. auto.
  - cbn [Nat.eqb].
    pose proof (log_failed_statements_trace failed_statements script_path
                  (after_calls o calls s1)) as T.
    destruct (_log_failed_statements strftime path_join open_fails
                failed_statements script_path (after_calls o calls s1))
      as [[u|e] o2] eqn:El; cbn [fst snd] in T.
    + rewrite (@pbind_eq_ok _ _ _ _ _ _ _ El), log_error_eq.
      cbn [fst snd with_session db_trace].
      rewrite T. split; [reflexivity|]. split; [exact E2|].
      intros text H1 H2. inversion H1; subst. discriminate H2.
    + rewrite (@pbind_eq_err _ _ _ _ _ _ _ El). cbv beta iota.
      destruct (execute_handlers e o2) as [F1 F2].
      cbv zeta in F1, F2. rewrite F1, T. split; [reflexivity|].
      split; [exact E2|].
      intros text H1 H2. rewrite (F2 _ H1) in H2. discriminate.
Qed.

Lemma after_calls_with_session o s calls s' :
  after_calls (with_session o s) calls s' = after_calls o calls s'.
Proof. reflexivity. Qed.

(** The loop over statements that the driver accepts. *)
Lemma run_statements_accepted before :
  forall rest index executed failed failed_statements o,
    accepts driver (db_trace o) (execute_and_commit before) = true ->
    exists s',
      run_statements strftime driver (before ++ rest) index executed failed
        failed_statements o
      = run_statements strftime driver rest (index + List.length before)
          (executed + List.length before) failed failed_statements
          (after_calls o (execute_and_commit before) s').
Proof.
  induction before as [|statement before IH];
    intros rest index executed failed failed_statements o H.
  - exists (session o). cbn [app List.length execute_and_commit flat_map].
    now rewrite after_calls_nil, !Nat.add_0_r.
  - change (execute_and_commit (statement :: before))
      with ([Execute statement; Commit] ++ execute_and_commit before) in *.
    rewrite accepts_app in H. apply andb_true_iff in H. destruct H as [H1 H2].
    rewrite <- app_comm_cons. cbn [run_statements].
    rewrite (@pbind_eq_ok _ _ _ _ _ _ _ (logger_eq _ _ _)).
    set (o1 := with_session o _).
    rewrite (@pbind_eq_ok _ _ _ _ _ _ _
               (try_statement_accepted index statement o1 H1)).
    destruct (IH rest (S index) (S executed) failed failed_statements
                 (after_calls o1 [Execute statement; Commit]
                    (logged strftime
                       ("SUCCESS: [Stmt " ++ str_nat index ++ "] Executed: "
                          ++ substring 0 50 statement ++ "...")
                       (session o1))) H2) as [s' E].
    exists s'. rewrite E, after_calls_after. subst o1.
    rewrite after_calls_with_session.
    cbn [List.length]. rewrite !Nat.add_succ_r. reflexivity.
Qed.


(** The loop over statements of which the driver refuses some with an
    error of the first [except] clause and accepts the others. *)
Lemma run_statements_failures (bad : string -> bool) (why : string -> string) :
  (forall trace sql,
      bad sql = true ->
      exists e,
        driver trace (Execute sql) = Fails e
        /\ caught_by e [ProgrammingError; IntegrityError] = true
        /\ exn_text e = why sql) ->
  (forall trace sql,
      bad sql = false -> accepts driver trace [Execute sql; Commit] = true) ->
  forall statements index executed failed failed_statements o,
    exists executed' s',
      run_statements strftime driver statements index executed failed
        failed_statements o
      = (Ok (Completed executed'
               (failed + List.length (failed_of bad why index statements))
               (failed_statements ++ failed_of bad why index statements)),
         after_calls o
           (flat_map (fun sql => if bad sql then [Execute sql]
                                 else [Execute sql; Commit]) statements) s')
      /\ executed' + List.length (failed_of bad why index statements)
         = executed + List.length statements.
Proof.
  intros Hbad Hgood.
  induction statements as [|statement rest IH];
    intros index executed failed failed_statements o.
  - exists executed, (session o). cbn [run_statements failed_of flat_map].
    rewrite after_calls_nil, app_nil_r. cbn [List.length].
    rewrite !Nat.add_0_r. split; reflexivity.
  - cbn [run_statements failed_of flat_map].
    rewrite (@pbind_eq_ok _ _ _ _ _ _ _ (logger_eq _ _ _)).
    set (o1 := with_session o _).
    destruct (bad statement) eqn:Eb.
    + destruct (Hbad (db_trace o1) statement Eb) as (e & E1 & E2 & E3).
      rewrite (@pbind_eq_ok _ _ _ _ _ _ _
                 (@try_statement_failed index statement o1 e E1 E2)).
      rewrite E3.
      match goal with
      | |- context [run_statements _ _ rest ?i ?x ?f ?fs ?o'] =>
          destruct (IH i x f fs o') as (executed' & s' & F1 & F2)
      end.
      exists executed', s'. rewrite F1, after_calls_after. subst o1.
      rewrite after_calls_with_session, <- app_assoc.
      cbn [List.length Datatypes.app]. rewrite !Nat.add_succ_r.
      split; [reflexivity|lia].
    + rewrite (@pbind_eq_ok _ _ _ _ _ _ _
                 (@try_statement_accepted index statement o1
                    (Hgood (db_trace o1) statement Eb))).
      match goal with
      | |- context [run_statements _ _ rest ?i ?x ?f ?fs ?o'] =>
          destruct (IH i x f fs o') as (executed' & s' & F1 & F2)
      end.
      exists executed', s'. rewrite F1, after_calls_after. subst o1.
      rewrite after_calls_with_session.
      cbn [List.length Datatypes.app]. split; [reflexivity|]. lia.
Qed.

(** [_log_failed_statements] with failures to record, when the errors
    of the disk are exceptions: it returns, and has appended its text
    unless the file could not be opened. *)
Lemma log_failed_statements_eq failed_statements script_path o :
  (forall n path e,
      open_fails n path = Some e -> caught_by e [Exception] = true) ->
  failed_statements <> [] ->
  exists s',
    _log_failed_statements strftime path_join open_fails failed_statements
      script_path o
    = (Ok tt,
       mkObject (attributes o) s' (_connection o) (db_trace o)
         (text_files o
            ++ match open_fails (opens o)
                       (path_join (path_parent script_path)
                          "failed_statements.log") with
               | Some _ => []
               | None =>
                   [(path_join (path_parent script_path)
                       "failed_statements.log",
                     failed_statements_text failed_statements script_path)]
               end)
         (data_files o) (S (opens o)) (slept o)).
Proof.
  intros Hdisk Hne. unfold _log_failed_statements.
  destruct failed_statements as [|f t]; [congruence|].
  unfold try_except, pbind, append_text.
  destruct (open_fails (opens o) _) as [e|] eqn:Eo; cbn [handle].
  - rewrite (Hdisk _ _ _ Eo), logger_eq. eexists.
    unfold with_session.
    cbn [db_trace text_files session attributes _connection data_files
         opens slept]. rewrite app_nil_r. reflexivity.
  - rewrite logger_eq. eexists. reflexivity.
Qed.

(** X12. A statement that the driver refuses with [ProgrammingError]
    or [IntegrityError] does not end [_execute_sql_statements]: when
    these are the only errors of the driver, every statement of the
    script is sent, the accepted ones are committed one by one and no
    rollback is asked for.  The result counts the refused statements,
    or all statements when none is refused; the refused statements,
    with their positions counted from 1 and the texts of their errors,
    are appended to [failed_statements.log] beside the script, unless
    that file cannot be opened. *)
Theorem refused_statements_are_skipped_and_recorded :
  forall (bad : string -> bool) (why : string -> string)
         (statements : list string) (script_path : Path) (o : Object),
    _connection o = true ->
    (forall trace sql,
        bad sql = true ->
        exists e,
          driver trace (Execute sql) = Fails e
          /\ caught_by e [ProgrammingError; IntegrityError] = true
          /\ exn_text e = why sql) ->
    (forall trace sql,
        bad sql = false -> fails (driver trace (Execute sql)) = false) ->
    (forall trace c,
        (forall sql, c <> Execute sql) -> fails (driver trace c) = false) ->
    (forall n path e,
        open_fails n path = Some e -> caught_by e [Exception] = true) ->
    let out := _execute_sql_statements strftime path_join driver open_fails
                 statements script_path o in
    let failures := failed_of bad why 1 statements in
    let log_file :=
      path_join (path_parent script_path) "failed_statements.log" in
    fst out
    = Ok (match failures with
          | [] => "SUCCESS: Executed " ++ str_nat (List.length statements)
                    ++ " statements."
          | _ => "ERROR: Execution completed with "
                   ++ str_nat (List.length failures) ++ " failed statements."
          end)%string
    /\ db_trace (snd out)
       = db_trace o
           ++ Cursor :: flat_map (fun sql => if bad sql then [Execute sql]
                                             else [Execute sql; Commit])
                          statements
           ++ [ExitCursor false]
    /\ text_files (snd out)
       = text_files o
           ++ match failures with
              | [] => []
              | _ =>
                  match open_fails (opens o) log_file with
                  | Some _ => []
                  | None =>
                      [(log_file,
                        failed_statements_text failures script_path)]
                  end
              end.
Proof.
  intros bad why statements script_path o Hc Hbad Hgood Hother Hdisk
         out failures log_file.
  assert (Hgood' : forall trace sql,
             bad sql = false ->
             accepts driver trace [Execute sql; Commit] = true).
  { intros trace sql Eb. cbn [accepts].
    rewrite (Hgood trace sql Eb), Hother; [reflexivity|].
    intros sql'. discriminate. }
  destruct (@run_statements_failures bad why Hbad Hgood' statements 1 0 0 []
              (with_call o Cursor)) as (executed & s1 & E1 & E2).
  fold failures in E1, E2. cbn [Datatypes.app Nat.add] in E1, E2.
  assert (Ew : with_cursor driver
                 (run_statements strftime driver statements 1 0 0 []) o
               = (Ok (Completed executed (List.length failures) failures),
                  after_calls o
                    (Cursor :: flat_map (fun sql => if bad sql
                                                    then [Execute sql]
                                                    else [Execute sql; Commit])
                                 statements
                       ++ [ExitCursor false]) s1)).
  { rewrite with_cursor_eq, reply_result_ok
      by (apply Hother; intros sql; discriminate).
    rewrite E1, reply_result_ok by (apply Hother; intros sql; discriminate).
    f_equal. apply with_call_after. }
  subst out. unfold _execute_sql_statements, try_except. rewrite Hc.
  cbn [negb]. rewrite (@pbind_eq_ok _ _ _ _ _ _ _ Ew).
  destruct failures as [|f t] eqn:Ef.
  - cbn [_log_failed_statements List.length Nat.eqb]. unfold pbind, pret.
    rewrite logger_eq.
    cbn [fst snd with_session after_calls db_trace text_files].
    rewrite app_nil_r. cbn [List.length] in E2.
    replace executed with (List.length statements) by lia. auto.
  - destruct (@log_failed_statements_eq (f :: t) script_path
                (after_calls o
                   (Cursor :: flat_map (fun sql => if bad sql
                                                   then [Execute sql]
                                                   else [Execute sql; Commit])
                                statements
                      ++ [ExitCursor false]) s1) Hdisk)
      as [s2 El]; [discriminate|].
    rewrite (@pbind_eq_ok _ _ _ _ _ _ _ El). cbn [List.length Nat.eqb].
    rewrite log_error_eq.
    cbn [fst snd with_session after_calls db_trace text_files opens].
    fold log_file. auto.
Qed.
End SqlFacts.

Lemma statements_sent_in_order_witness :
  text_files
    (snd (_execute_sql_statements sample_strftime String.append quiet_driver
            disk_ok ["CREATE TABLE A"; "INSERT INTO A"] sample_script
            connected_object))
  = [].
Proof.
  destruct (@statements_sent_in_order sample_strftime String.append
              quiet_driver disk_ok ["CREATE TABLE A"; "INSERT INTO A"]
              sample_script connected_object) as (calls & _ & _ & H).
  destruct (H "SUCCESS: Executed 2 statements."
              ltac:(vm_compute; reflexivity) ltac:(vm_compute; reflexivity))
    as (_ & _ & _ & Hfiles).
  exact Hfiles.
Defined.


Lemma refused_statements_are_skipped_and_recorded_witness :
  fst (_execute_sql_statements sample_strftime String.append
         (picky_driver (String.eqb "INSERT INTO A")
            (fun sql => ("syntax error in " ++ sql)%string))
         disk_ok ["CREATE TABLE A"; "INSERT INTO A"; "DROP TABLE A"]
         sample_script connected_object)
  = Ok "ERROR: Execution completed with 1 failed statements.".
Proof.
  pose proof (@refused_statements_are_skipped_and_recorded sample_strftime
                String.append
                (picky_driver (String.eqb "INSERT INTO A")
                   (fun sql => ("syntax error in " ++ sql)%string))
                disk_ok (String.eqb "INSERT INTO A")
                (fun sql => ("syntax error in " ++ sql)%string)
                ["CREATE TABLE A"; "INSERT INTO A"; "DROP TABLE A"]
                sample_script connected_object) as H.
  assert (H1 : _connection connected_object = true) by reflexivity.
  assert (H2 : forall trace sql,
             String.eqb "INSERT INTO A" sql = true ->
             exists e,
               picky_driver (String.eqb "INSERT INTO A")
                 (fun sql => ("syntax error in " ++ sql)%string) trace
                 (Execute sql) = Fails e
               /\ caught_by e [ProgrammingError; IntegrityError] = true
               /\ exn_text e = ("syntax error in " ++ sql)%string).
  { intros trace sql E. unfold picky_driver. rewrite E.
    eexists. split; [reflexivity|]. split; reflexivity. }
  assert (H3 : forall trace sql,
             String.eqb "INSERT INTO A" sql = false ->
             fails (picky_driver (String.eqb "INSERT INTO A")
                      (fun sql => ("syntax error in " ++ sql)%string) trace
                      (Execute sql)) = false).
  { intros trace sql E. unfold picky_driver. rewrite E. reflexivity. }
  assert (H4 : forall trace c,
             (forall sql, c <> Execute sql) ->
             fails (picky_driver (String.eqb "INSERT INTO A")
                      (fun sql => ("syntax error in " ++ sql)%string) trace c)
             = false).
  { intros trace c Hc. destruct c; try reflexivity.
    exfalso. exact (Hc sql eq_refl). }
  assert (H5 : forall n path e,
             disk_ok n path = Some e -> caught_by e [Exception] = true).
  { intros n path e E. discriminate E. }
  exact (proj1 (H H1 H2 H3 H4 H5)).
Defined.

(* ------------------------------------------------------------------ *)
(** ** Writing the log file *)

Lemma logged_logs strftime message s :
  _logs (logged strftime message s)
  = (if Nat.ltb 1000 (List.length (_logs s)) then tl (_logs s) else _logs s)
      ++ [(strftime "%Y-%m-%d %H:%M:%S" (clock s) ++ " [INFO] - " ++ message)%string].
Proof. reflexivity. Qed.

Lemma last_n_tl (A : Type) (n : nat) (l : list A) :
  n < List.length l -> last_n n (tl l) = last_n n l.
Proof.
  unfold last_n. destruct l as [|x t]; [reflexivity|]. cbn [tl List.length].
  intros H. replace (S (List.length t) - n) with (S (List.length t - n)) by lia.
  reflexivity.
Qed.

(** The entries written are those of the buffer before the entry that
    reports the writing. *)
Lemma last_n_before_logged strftime message s :
  last_n 500 (removelast (_logs (logged strftime message s)))
  = last_n 500 (_logs s).
Proof.
  rewrite logged_logs, removelast_last.
  destruct (Nat.ltb 1000 (List.length (_logs s))) eqn:E; [|reflexivity].
  apply Nat.ltb_lt in E. apply last_n_tl. lia.
Qed.

Section LogFile.
Variable strftime : string -> nat -> string.
Variable path_join : string -> string -> string.
Variable open_fails : nat -> string -> option exn.

(** The loop of [_write_logs] when the first [k] attempts left are
    refused and the next one, if one is left, is not. *)
Lemma write_attempts_retries log_file_path max_attempts retry_delay :
  forall remaining attempt o k,
    attempt + remaining = S max_attempts ->
    k <= remaining ->
    (forall i, i < k ->
               exists e,
                 open_fails (opens o + i) log_file_path = Some e
                 /\ caught_by e [PermissionError; OSError] = true) ->
    (k < remaining -> open_fails (opens o + k) log_file_path = None) ->
    let out := write_attempts strftime open_fails log_file_path max_attempts
                 retry_delay remaining attempt o in
    fst out = Ok tt
    /\ slept (snd out)
       = slept o ++ repeat retry_delay (if Nat.ltb k remaining then k else k - 1)
    /\ opens (snd out) = opens o + (if Nat.ltb k remaining then S k else k)
    /\ text_files (snd out)
       = text_files o
           ++ (if Nat.ltb k remaining
               then [(log_file_path,
                      log_lines
                        (last_n 500
                           (removelast (_logs (session (snd out))))))]
               else []).
Proof.
  induction remaining as [|n IH]; intros attempt o k Hat Hk Hfail Hok out;
    subst out.
  - assert (k = 0) by lia. subst k. cbn.
    rewrite !app_nil_r, Nat.add_0_r. auto.
  - cbn [write_attempts]. unfold append_text.
    destruct k as [|k].
    + rewrite Nat.add_0_r in Hok. rewrite (Hok ltac:(lia)), logger_eq.
      cbn [Nat.ltb Nat.leb fst snd with_session slept opens text_files session
           repeat].
      rewrite last_n_before_logged, app_nil_r, Nat.add_1_r. auto.
    + destruct (Hfail 0 ltac:(lia)) as (e & E1 & E2).
      rewrite Nat.add_0_r in E1. rewrite E1, E2.
      rewrite (@pbind_eq_ok _ _ _ _ _ _ _ (logger_eq _ _ _)).
      assert (Et : Nat.ltb attempt max_attempts = Nat.ltb 0 n).
      { destruct n; [apply Nat.ltb_ge|apply Nat.ltb_lt]; lia. }
      rewrite Et.
      set (o1 := with_session _ _).
      assert (Hstep :
                exists o2,
                  ((if Nat.ltb 0 n then sleep retry_delay
                    else
                      console "CRITICAL: Could not write logs. Dumping to console:" >>
                      (fun o2 =>
                         lift (for_each (last_n 100 (_logs (session o2)))
                                 (fun log_entry => print (Print log_entry)))
                              o2)) o1 = (Ok tt, o2))
                  /\ opens o2 = S (opens o)
                  /\ text_files o2 = text_files o
                  /\ slept o2
                     = slept o ++ (if Nat.ltb 0 n then [retry_delay] else [])).
      { destruct (Nat.ltb 0 n).
        - eexists. split; [reflexivity|]. subst o1. cbn. auto.
        - rewrite (@pbind_eq_ok _ _ _ _ _ _ _ (console_eq _ _)), lift_eq.
          destruct (fst (for_each _ _ _)).
          eexists. split; [reflexivity|]. subst o1.
          cbn [opens text_files slept with_session].
          rewrite app_nil_r. auto. }
      destruct Hstep as (o2 & S1 & S2 & S3 & S4).
      rewrite (@pbind_eq_ok _ _ _ _ _ _ _ S1).
      destruct (IH (S attempt) o2 k ltac:(lia) ltac:(lia)) as (R1 & R2 & R3 & R4).
      { intros i Hi. rewrite S2. destruct (Hfail (S i) ltac:(lia)) as (e' & F1 & F2).
        exists e'. split; [|exact F2]. rewrite <- F1. f_equal. lia. }
      { intros Hlt. rewrite S2. rewrite <- (Hok ltac:(lia)). f_equal. lia. }
      cbv zeta in R1, R2, R3, R4.
      split; [exact R1|]. rewrite R2, R3, R4, S2, S3, S4.
      change (Nat.ltb (S k) (S n)) with (Nat.ltb k n).
      destruct (Nat.ltb k n) eqn:Ek.
      * apply Nat.ltb_lt in Ek.
        replace (Nat.ltb 0 n) with true by (symmetry; apply Nat.ltb_lt; lia).
        rewrite <- app_assoc. cbn [Datatypes.app repeat].
        repeat split; auto; lia.
      * apply Nat.ltb_ge in Ek. assert (k = n) by lia. subst k.
        rewrite app_nil_r.
        destruct n as [|n]; cbn [Nat.ltb Nat.leb Nat.sub repeat].
        -- rewrite !app_nil_r. repeat split; auto; lia.
        -- rewrite Nat.sub_0_r, <- app_assoc. cbn [Datatypes.app].
           repeat split; auto; lia.
Qed.

(** X13. [_write_logs] tries to open its file up to [max_attempts]
    times and stops at the first success.  When the first [k] attempts
    are refused with [PermissionError] or [OSError], it sleeps
    [retry_delay] after each refused attempt but the last of all
    [max_attempts], and returns in every case.  When an attempt is left
    and succeeds, one file is written: it holds the last 500 entries
    the buffer had before the entry that reports the writing.  When all
    attempts are refused, no file is written. *)
Theorem write_logs_retries_then_gives_up :
  forall (max_attempts retry_delay : nat) (o : Object) (k : nat),
    let log_file_path :=
      path_join (_log_path (attributes o))
        ("I-O-I_" ++ _customer_number (session o) ++ "_"
           ++ strftime "%Y%m%d%H%M%S" (clock (session o)) ++ "_I-O-I.log") in
    k <= max_attempts ->
    (forall i, i < k ->
               exists e,
                 open_fails (opens o + i) log_file_path = Some e
                 /\ caught_by e [PermissionError; OSError] = true) ->
    (k < max_attempts -> open_fails (opens o + k) log_file_path = None) ->
    let out := _write_logs strftime path_join open_fails max_attempts
                 retry_delay o in
    fst out = Ok tt
    /\ slept (snd out)
       = slept o
           ++ repeat retry_delay (if Nat.ltb k max_attempts then k else k - 1)
    /\ opens (snd out)
       = opens o + (if Nat.ltb k max_attempts then S k else k)
    /\ text_files (snd out)
       = text_files o
           ++ (if Nat.ltb k max_attempts
               then [(log_file_path,
                      log_lines
                        (last_n 500
                           (removelast (_logs (session (snd out))))))]
               else []).
Proof.
  intros max_attempts retry_delay o k log_file_path Hk Hfail Hok out.
  subst out. unfold _write_logs.
  rewrite (@pbind_eq_ok _ _ _ _ _ _ _ (lift_eq _ _)).
  rewrite (@pbind_eq_ok _ _ _ _ _ _ _ (logger_eq _ _ _)).
  cbn [fst _get_date_str now]. fold log_file_path.
  set (o1 := with_session _ _).
  apply (@write_attempts_retries log_file_path max_attempts retry_delay
           max_attempts 1 o1 k); auto.
Qed.
End LogFile.

Lemma write_logs_retries_then_gives_up_witness :
  slept (snd (_write_logs sample_strftime String.append (disk_busy 2) 3 2
                sample_object))
  = [2; 2].
Proof.
  pose proof (@write_logs_retries_then_gives_up sample_strftime String.append
                (disk_busy 2) 3 2 sample_object 2) as H.
  cbv zeta in H.
  assert (H1 : 2 <= 3) by lia.
  assert (H2 : forall i, i < 2 ->
               exists e,
                 disk_busy 2 (opens sample_object + i)
                   (String.append (_log_path (attributes sample_object))
                      ("I-O-I_" ++ _customer_number (session sample_object)
                         ++ "_"
                         ++ sample_strftime "%Y%m%d%H%M%S"
                              (clock (session sample_object))
                         ++ "_I-O-I.log"))
                 = Some e
                 /\ caught_by e [PermissionError; OSError] = true).
  { intros i Hi. destruct i as [|[|i]]; [| |lia];
      (eexists; split; reflexivity). }
  exact (proj1 (proj2 (H H1 H2 ltac:(intros; reflexivity)))).
Defined.

(* ------------------------------------------------------------------ *)
(** ** The script of the tables, the final query, closing *)

Section TablesAndQuery.
Variable strftime : string -> nat -> string.
Variable path_join : string -> string -> string.
Variable driver : list db_call -> db_call -> db_reply.
Variable open_fails : nat -> string -> option exn.
Variable script_file_at : string -> file_read.
Variable sqlparse_format : string -> string.
Variable sqlparse_split : string -> list string.
Variable elapsed_text : nat -> nat -> string.
Variable re_template : string -> res string.

(** X14. For a database type other than [TERA], [_create_tables] sends
    nothing to the database and writes no file.  For the type [SQL] it
    reports success as soon as the script file can be read, whatever
    the file holds; for any other type it reports the type as
    invalid without looking for a file. *)
Theorem create_tables_outside_teradata :
  forall (o : Object),
    _db_type (attributes o) <> "TERA" ->
    let out := _create_tables strftime path_join driver open_fails
                 script_file_at sqlparse_format sqlparse_split elapsed_text
                 re_template o in
    let script :=
      path_join (_scripts_path (attributes o)) "_create_rand_tables_SQL.sql" in
    db_trace (snd out) = db_trace o
    /\ text_files (snd out) = text_files o
    /\ match fst out with
       | Ok text =>
           if String.eqb (_db_type (attributes o)) "SQL" then
             match script_file_at script with
             | FileText _ =>
                 text = "SUCCESS: SQL branch execution not implemented."
             | NoFile => text = ("ERROR: SQL script not found: " ++ script)%string
             | Unreadable e =>
                 text = ("ERROR: Failed to read SQL script " ++ script ++ ": "
                           ++ exn_text e)%string
             end
           else
             text = ("ERROR: Invalid DB type: " ++ _db_type (attributes o))%string
       | Err e =>
           _db_type (attributes o) = "SQL"
           /\ script_file_at script = Unreadable e
           /\ caught_by e [OSError] = false
       end.
Proof.
  intros o Ht out script. subst out. apply String.eqb_neq in Ht.
  unfold _create_tables, time_time.
  rewrite (@pbind_eq_ok _ _ _ _ _ _ _ (lift_eq _ _)).
  unfold script_map. cbn [attributes with_session fst snd].
  rewrite Ht.
  destruct (String.eqb (_db_type (attributes o)) "SQL") eqn:Es.
  - unfold path_str. cbn [path_parent path_name]. fold script.
    destruct (script_file_at script) as [|e|text].
    + rewrite log_error_eq. cbn [fst snd with_session db_trace text_files].
      auto.
    + destruct (caught_by e [OSError]) eqn:Ec.
      * rewrite log_error_eq. cbn [fst snd with_session db_trace text_files].
        auto.
      * cbn [fst snd with_session db_trace text_files].
        apply String.eqb_eq in Es. auto.
    + cbn [attributes with_session]. rewrite ?Ht.
      rewrite (@pbind_eq_ok _ _ _ _ _ _ _ (logger_eq _ _ _)).
      rewrite (@pbind_eq_ok _ _ _ _ _ _ _ (lift_eq _ _)).
      rewrite (@pbind_eq_ok _ _ _ _ _ _ _ (logger_eq _ _ _)).
      unfold pret. cbn [fst snd with_session db_trace text_files]. auto.
  - rewrite log_error_eq. cbn [fst snd with_session db_trace text_files].
    auto.
Qed.

Lemma reply_result_eq reply r : reply_result reply = Ok r -> reply = r.
Proof. destruct reply; cbn; congruence. Qed.

(** Running a computation call by call: every call on the driver
    returns or raises. *)
Ltac run_calls :=
  repeat first
    [ rewrite db_do_eq
    | rewrite logger_eq
    | progress cbn [handle with_call with_session db_trace text_files
                    session attributes _connection data_files opens slept
                    fst snd]
    | progress unfold pbind, pret, raise
    | match goal with
      | |- context [reply_result (driver ?t ?c)] =>
          destruct (reply_result (driver t c)) eqn:?
      | |- context [caught_by ?e ?l] => destruct (caught_by e l) eqn:?
      | |- context [match ?r with _ => _ end] => is_var r; destruct r
      end ].

(** X16. [_execute_final_sql] sends no SQL for a table other than
    [#FINAL], and for [#FINAL] at most the one fixed query.  It returns
    a frame that is not empty only when the driver accepted the cursor,
    the query, the commit, [fetchall], [description] and the leaving of
    the cursor, in this order; the frame then holds the records that
    [fetchall] returned under the column names that [description]
    gave. *)
Theorem final_query_is_fixed :
  forall (final_table : string) (o : Object),
    let query :=
      "SELECT * FROM #FINAL ORDER BY DET_WH_CUST_NO, DET_ROW_NUM, ACC_WH_ACC_NO, ACC_REL_WH_ACC_NO;" in
    let out := _execute_final_sql strftime driver final_table o in
    exists calls,
      db_trace (snd out) = db_trace o ++ calls
      /\ (executed_sql calls = []
          \/ final_table = "#FINAL" /\ executed_sql calls = [query])
      /\ forall df,
          fst out = Ok df ->
          df_empty df = false ->
          calls = [Cursor; Execute query; Commit; Fetchall; Description;
                   ExitCursor false]
          /\ accepts driver (db_trace o) calls = true
          /\ exists records names,
              driver (db_trace o ++ [Cursor; Execute query; Commit]) Fetchall
              = Records records
              /\ driver (db_trace o
                           ++ [Cursor; Execute query; Commit; Fetchall])
                   Description
                 = Names names
              /\ df = from_records records names.
Proof.
  intros final_table o query out. subst out.
  unfold _execute_final_sql, mem_str. cbn [existsb]. rewrite orb_false_r.
  destruct (String.eqb final_table "#FINAL") eqn:Et; cbn [negb].
  2:{ exists []. unfold raise. cbn [fst snd]. rewrite app_nil_r.
      split; [reflexivity|]. split; [left; reflexivity|].
      intros df H. discriminate H. }
  apply String.eqb_eq in Et. subst final_table.
  change ("SELECT * FROM " ++ "#FINAL"
            ++ " ORDER BY DET_WH_CUST_NO, DET_ROW_NUM, ACC_WH_ACC_NO, ACC_REL_WH_ACC_NO;")%string
    with query.
  destruct (_connection o); cbn [negb].
  2:{ exists []. unfold pbind, pret. rewrite logger_eq.
      cbn [fst snd with_session db_trace]. rewrite app_nil_r.
      split; [reflexivity|]. split; [left; reflexivity|].
      intros df H E. inversion H; subst. discriminate E. }
  unfold try_except. rewrite with_cursor_eq.
  run_calls;
    rewrite <- ?app_assoc; cbn [Datatypes.app];
    eexists; (split; [reflexivity|]);
    (split; [cbn [executed_sql]; auto|]);
    intros df H E; inversion H; subst;
    try discriminate E; try (cbn in E; discriminate E).
  all: repeat match goal with
              | H : reply_result _ = Ok _ |- _ =>
                  pose proof (reply_result_accepted _ H);
                  apply reply_result_eq in H
              end.
  all: rewrite <- ?app_assoc in *; cbn [Datatypes.app] in *.
  all: split; [reflexivity|]; split;
    [ cbn [accepts]; rewrite <- ?app_assoc; cbn [Datatypes.app];
      repeat match goal with H : fails _ = false |- _ => rewrite H; clear H end;
      reflexivity
    | eexists; eexists; split; [eassumption|]; split; [eassumption|];
      reflexivity ].
Qed.
End TablesAndQuery.

Lemma create_tables_outside_teradata_witness :
  fst (_create_tables sample_strftime String.append quiet_driver disk_ok
         (any_script "SELECT 1;") (fun s => s) (fun s => [s]) sample_elapsed
         literal_template sql_server_object)
  = Ok "SUCCESS: SQL branch execution not implemented.".
Proof.
  pose proof (@create_tables_outside_teradata sample_strftime String.append
                quiet_driver disk_ok (any_script "SELECT 1;") (fun s => s)
                (fun s => [s]) sample_elapsed literal_template
                sql_server_object ltac:(discriminate)) as H.
  cbv zeta in H. destruct H as (_ & _ & H).
  destruct (fst (_create_tables sample_strftime String.append quiet_driver
                   disk_ok (any_script "SELECT 1;") (fun s => s)
                   (fun s => [s]) sample_elapsed literal_template
                   sql_server_object)) as [text|e].
  - cbn in H. rewrite H. reflexivity.
  - destruct H as (_ & H & _). discriminate H.
Defined.


Lemma final_query_is_fixed_witness :
  accepts serving_driver (db_trace connected_object)
    [Cursor;
     Execute "SELECT * FROM #FINAL ORDER BY DET_WH_CUST_NO, DET_ROW_NUM, ACC_WH_ACC_NO, ACC_REL_WH_ACC_NO;";
     Commit; Fetchall; Description; ExitCursor false]
  = true.
Proof.
  destruct (@final_query_is_fixed sample_strftime serving_driver "#FINAL"
              connected_object) as (calls & _ & _ & H).
  destruct (H (from_records [[VInt 428821167; VInt 1]]
                 ["DET_WH_CUST_NO"; "DET_ROW_NUM"])
              ltac:(vm_compute; reflexivity) ltac:(reflexivity))
    as (Hcalls & Haccepts & _).
  rewrite Hcalls in Haccepts. exact Haccepts.
Defined.
